(* ===== verification/_CoqProject ===== *)
-Q . S2P
Prelude.v
Abi.v
Time.v
LlRequest.v
Reply.v
Request.v
Wire.v
ReplyWire.v
Filesystem.v
Session.v
Dispatch.v
Spec.v
DispatchProps.v
SessionProps.v
Logging.v
DeriveProps.v
ReplyProps.v
Machine.v
Observer.v
Lifecycle.v
ExactlyOnce.v
Containment.v
Loop.v
Typing.v
Builds.v
Returns.v
WireProps.v
EndToEnd.v
