(* ===== verification/Prelude.v ===== *)
(** * Verification of the FUSE request dispatcher ([fuse_ll/src/fuse/request.rs])

    The program is the userspace half of the FUSE protocol: a request read
    from the kernel channel is parsed into a typed operation, checked
    against the session's handshake state, and handed to one method of a
    pluggable filesystem together with a reply object bound to the request's
    correlation id.  The only source file of the repository under [src/] is
    [src/fuse_ll/src/fuse/request.rs]: [struct Request], [Request::new],
    [Request::dispatch], [Request::reply] and the header accessors.  The ABI
    structs and constants, the low-level parser, the reply types, the
    session record and the [Filesystem] trait live in sibling modules that
    are not among the sources; they are modelled from the specification as
    far as the dispatcher reads, calls or assigns them.

    ** Files, in dependency order

    - [Prelude] (this file): machine integers as [Z] with explicit ranges
      ([in_bits], [in_signed]) and casts ([as_unsigned], [as_signed] for
      Rust's [as u32], [as usize], [as i64]); lemmas on [Z.land] against
      one-bit masks, which is how the dispatcher reads validity bitmasks;
      the [outcome] monad for code that may panic, [assert] for
      [assert_eq!]; the tactics and the hint databases shared by all files.
    - [Abi]: the constants ([FATTR_*], [FUSE_*], errno values) and the
      argument structs of [abi.rs], one Module per struct with its record
      [t] and its range predicate [ok] (the Rust types of its fields); the
      class [Config] that stands for [cfg(target_os)] and for the build
      constants [FUSE_KERNEL_MINOR_VERSION], [BUFFER_SIZE], [MAX_WRITE_SIZE].
    - [Time]: [std::time::Duration] and [SystemTime] as far as the
      dispatcher uses them ([Duration::new], [+], [checked_add]); a [Clock]
      gives the readings of [SystemTime::now()] by call site.
    - [LlRequest]: the request header, the closed [Operation] union of
      [ll_request.rs] with one constructor per arm of the dispatcher's
      match, and the accessors [unique], [nodeid], [uid], [gid], [pid].
    - [Reply]: reply objects ([Reply::new], [ReplyDirectory::new]), their
      terminal operations as the [Message] written to the channel,
      [ReplyDirectory::add] on entries as bytes with its budget, and
      [uses]: what at most one terminal operation on a reply object writes.
    - [Request]: [struct Request], [Request::new] over the interface
      [Parser], [Request::reply] and the accessors.
    - [Wire]: the bytes of a request: integers of 4 and 8 bytes, least
      significant byte first ([le_bytes], [le_value], [fetch_int]), the
      40-byte header ([encode_header], [decode_header]), the parser's
      checks on it ([try_from_bytes]: a whole header, a known opcode, the
      declared length against the buffer's) as an instance of [Parser],
      over the interface [OperationParser] for the argument layouts per
      opcode; null-terminated names ([fetch_str]); [codec], a decoder and
      an encoder with their round-trip laws, and [pair_codec], two codecs
      in sequence.
    - [ReplyWire]: the bytes of a reply ([encode_message]: the reply header
      with the negated error code and the correlation id, then the payload;
      [init_out_bytes] for the handshake), the header as the kernel reads
      it back, and their round trips.
    - [Filesystem]: the [Filesystem] trait as the type class
      [fs.Filesystem], one state-passing method per trait method; the calls
      as data ([FsCall], [invoke]); the contract [FilesystemLaws] (a method
      writes through the reply object it is given, at most once); the
      recording filesystem [Recorder] that satisfies the contract and serves
      the concrete runs.
    - [Session]: the [Session] record, one setter per assignment of
      [request.rs] ([set_proto_major], [set_proto_minor], [set_initialized],
      [set_destroyed]; [set_filesystem] for the [&mut] receiver of a call),
      the abstract [Phase], the invariant [consistent], and the equivalence
      of sessions that differ at most in their filesystem, with the
      [Proper] instances of the fields, of [phase] and of [consistent].
    - [Dispatch]: [Request::dispatch] in the source's order: [dispatch_init]
      (lines 67-107) with [unsupported_abi] and [init_out], the two
      sequencing guards, [dispatch_destroy], one definition per arm, and one
      per derived argument ([attr_mode] .. [attr_flags] for the validity
      bits of [SetAttr], [release_flag_flush], [fsync_flag_datasync]).  The
      items the source has once per [cfg(target_os)] ([INIT_FLAGS],
      [get_macos_setattr], [get_position]) are one definition per version,
      in the Modules [cfg_macos] and [cfg_not_macos], and a definition of
      the same name that selects by [target_os].  The arms of
      [SetVolName], [GetXTimes] and [Exchange], which the source compiles
      on macOS only, are arms of [dispatch_operation] on every target: the
      model has one type of operations for both builds, and
      [ll_request.on_target] says which of them a build has.  The model's
      dispatcher is in this the wider one: what a theorem says of every
      operation it says of the operations of the build.
    - [Spec]: the abstract dispatcher.  [plan] chooses an [Action] from the
      phase and the operation alone (handshake, refusal, teardown, a call
      forwarded with its derived arguments, abort); [derive] states each
      derivation with [Z.testbit] and option values; [execute] carries an
      action out.
    - [DispatchProps]: the refinement [dispatch = execute (plan)], arm by
      arm, and the concrete platforms and requests the witnesses run on.
    - [SessionProps]: the handshake, the sequencing guards and the
      dispatcher's own replies, error paths included; bounds on the
      negotiated values.
    - [Logging]: the calls of [error!], [warn!] and [debug!] as records,
      [dispatch_log] and [new_log] (what one call logs, in order), and the
      log against the guards: what is logged above the debug level is a
      refusal.
    - [DeriveProps]: the argument derivations: validity bits of [SetAttr],
      time overflow, the length assertions of [Write] and [SetXAttr], flag
      bits, signed offsets, the directory reply's budget.
    - [ReplyProps]: the reply discipline: at most one message per request,
      bound to the request; exactly one for the dispatcher's own replies;
      where [dispatch] can panic.
    - [Machine]: the session as a transition system whose step is
      [dispatch]: [run] (the dispatch loop), [reachable], the abstract
      machine [phase_step] and its simulation, trace properties of whole
      runs (the replies are a subsequence of the requests), [receive]
      (parse, then dispatch).
    - [Observer]: the interface of a filesystem that keeps the log of the
      hooks and methods called on it ([Observer], [ObserverLaws]), with
      two instances: the recording filesystem, and [Logged], any
      filesystem with a log beside it; [event_of], what an action shows to
      the filesystem; [run_unlogged], that logging does not change a run.
    - [Lifecycle]: what the filesystem sees over the life of a session,
      proved against the interface [Observer]: [well_ordered] (the [init]
      hook first) and [quiet_after_destroy] (no method after the [destroy]
      hook) as invariants of runs, and through [Logged] for every
      filesystem.
    - [ExactlyOnce]: the contract [FilesystemReplies] of a filesystem that
      answers every call, and that every request is then answered exactly
      once, [Forget] in a live session excepted; over a run, that the
      replies contain one for every request other than [Forget], in order.
    - [Containment]: [refused], the requests the session's state alone
      turns away and the error each gets; a run of such requests; a
      refused request inside a run ([insert_reply]: it adds its own reply
      and nothing else).
    - [Loop]: the session's loop as an interaction tree ([session_loop],
      an [ITree.iter] of [loop_body]) over the events [loopE] of the
      channel and the clock; [handle_loopE] plays the kernel's side from a
      [World] of pending buffers; [play], the world and the outcome the
      loop returns, as a function, and [play_ensures], what every turn
      ensures of it; the loop against [run].
    - [Typing]: the types of what crosses the dispatcher's interfaces
      ([request_typed], [call_typed], [message_typed], [session_typed],
      all decidable), the contract [FilesystemTyped] of a filesystem that
      answers typed calls with typed messages, and the preservation of
      the types by [dispatch] and [run], for every such filesystem.
    - [Builds]: the macOS build against the build for other systems:
      [portable] requests, on which the two dispatchers agree.
    - [Returns]: [returning], the requests on which no arm panics, and
      that a run over them returns.
    - [WireProps]: the header codec's round trips, what [try_from_bytes]
      accepts, [Request::new] on encoded and on malformed buffers, and the
      correlation id from the bytes of a buffer to the bytes of its reply.
    - [EndToEnd]: the components in one piece: the loop of [Loop] with the
      parser of [Wire] and the encoder of [ReplyWire]; [frames] (the
      replies as bytes), [frame_ok] (a reply the kernel can read),
      [unique_bytes] (the correlation id at offset 8 of either header);
      that the loop ends, and what it leaves on the channel.

    ** How the model corresponds to the code

    Integers keep their width: a [u32] is a [Z] with [in_bits 32], and every
    cast of the source is written out.  [&] is [Z.land]; the source's
    [match x & MASK { 0 => None, _ => Some(v) }] is the same match on [Z].
    A call [se.filesystem.m(self, args.., self.reply())] is [fs.m f self
    args.. (reply self)] and returns the filesystem after the call and the
    messages written to the channel during it (the source mutates [&mut
    self] and writes through the reply object); [call] stores the former in
    the session.  [dispatch] returns an [outcome]: [Done (se', msgs)] for a
    normal return and [Panicked p] where the source panics ([assert_eq!],
    [Duration::new], [UNIX_EPOCH + Duration]).  The source selects code with
    [cfg(target_os)]; the model matches on [target_os], so every theorem
    covers both builds.  The header on the wire is read in the byte order
    of the machine; the model fixes it to little-endian, the order of the
    targets the crate supports.

    ** What the theorems show

    - [dispatch] refines the abstract dispatcher on every request whose
      integer fields are in range, in every session state;
    - the handshake accepts exactly the versions from 7.6 on, negotiates
      [min(BUFFER_SIZE as u32, max_readahead)] and [flags & INIT_FLAGS], and
      sets [initialized] only when the filesystem's [init] hook succeeds;
    - before initialisation and after destruction every other operation is
      answered with [EIO] and changes nothing; a whole run of requests the
      session refuses leaves it untouched and answers each with its error,
      in order; a refused request inside any run adds its one reply and
      changes nothing else of the run, a later panic included;
    - over a run the replies come in the order of the requests, at most
      one each;
    - the loop over the channel ends when the channel is closed and leaves
      the session and the replies of [run] on the requests its buffers
      parse to; a panic of [dispatch] ends it with what was written before;
    - end to end, for buffers of bytes, whatever they hold: the loop
      ends, every reply it has written is a frame the kernel can read
      back, and the correlation ids of the frames are, byte for byte and
      in order, those of the buffers that were answered, also when a
      panic ends the loop, which happens only on a request on which an
      arm asserts or overflows;
    - each validity bit of [SetAttr] surfaces exactly its own field; off
      macOS the call is given in full, with the times as instants after
      the epoch and the nanoseconds carried; times out of range panic, or
      are clamped to the clock for the macOS fields; [fsync], [fsyncdir]
      and [release] receive bit 0 of their flags as a boolean;
    - [Write] and [SetXAttr] panic exactly when payload length and declared
      size disagree, before any filesystem call, and nothing else panics
      outside [SetAttr];
    - for a filesystem that keeps the contract, one dispatch writes at most
      one message, and any message carries the request's [unique] and goes
      to its channel; the dispatcher's own replies are exactly one message,
      and for a filesystem that answers every call so is every reply, a
      [Forget] that reaches the filesystem excepted; over a run the replies
      then contain the reply to every request other than [Forget], in the
      order of the requests;
    - every reachable session is [consistent], both flags are monotone,
      and every step is a transition of the three-phase machine;
    - whatever the filesystem and the requests, the first thing the
      dispatcher calls on the filesystem is its [init] hook, and after its
      [destroy] hook it calls no method any more, only the hooks again;
      the arms themselves do not ensure this, the guards before them do,
      so the test of the flags and the arm must be one step on the
      session, as the exclusive borrow of the session makes them;
    - [Request::new] on an encoded header followed by its arguments returns
      the request that was encoded, every request it returns encodes back
      to the first 40 bytes of its buffer, and a buffer that is too short,
      has a wrong length field or an unknown opcode is dropped with
      nothing written; the bytes of the correlation id in a reply are those
      of the buffer it answers;
    - a warning or an error in the log of a call means the request was
      refused with one error and nothing changed, and conversely;
    - a directory reply never holds more bytes than the kernel asked for;
    - requests whose fields are values of their Rust types lead to calls
      and messages whose fields are, casts and rebuilt instants included;
    - on portable requests the two builds of the dispatcher are the same
      function; on [Interrupt] they differ by the value of [ENOSYS];
    - a run over requests with matching payload lengths and representable
      times returns; in a live session [dispatch] returns exactly on those
      ([dispatch_live_is_done]).

    ** Bounds and fuel

    No definition needs fuel: [dispatch] is a single match, and [run]
    recurses on the list of requests.  [session_loop] is not bounded: it
    iterates until the channel is closed; its theorems are about worlds
    with finitely many pending buffers, and show that it ends there, with
    the world and the outcome that [play] computes by recursion on the
    buffers.  Integer fields are unbounded [Z] constrained by the [ok]
    predicates; theorems that depend on a cast keeping its value assume
    the predicate of that field and no other.

    ** Not modelled

    The argument layouts per opcode of [ll_request.rs] (an interface,
    [OperationParser]: that file is not among the sources and the
    specification does not give the layouts), the layouts of the reply
    payloads other than the handshake's and of a directory entry
    (likewise: [ReplyDirectory::add] takes the entry as bytes), the device
    reads and writes of the channel and their errors (the loop sees the
    channel as the events [Receive] and [Send]; whether the loop goes on
    after a buffer the parser rejects is not said by the specification,
    and the model goes on), the output format of the log, the default
    bodies of the [Filesystem] trait (the specification only says that
    they are no-ops or errors), mounting and unmounting.
    Panics inside a filesystem method are outside the model: methods are
    total functions. *)

From Stdlib Require Import ZArith Lia Bool.
From stdpp Require Import base tactics numbers list option.

#[local] Open Scope Z_scope.

Declare Scope fuse_scope.
Delimit Scope fuse_scope with fuse.

Notation "a .&. b" := (Z.land a b) (at level 40, left associativity) : fuse_scope.
Notation "a .|. b" := (Z.lor a b) (at level 50, left associativity) : fuse_scope.
Abbreviation bytes := (list Z) (only parsing).

#[global] Open Scope fuse_scope.

(** Bits are reasoned about, not computed on open terms. *)
#[global] Arguments Z.testbit : simpl never.
#[global] Arguments Z.odd : simpl never.

(** ** Machine integers *)

(** [in_bits w z]: [z] is a value of the unsigned [w]-bit type. *)
Definition in_bits (w z : Z) : Prop := 0 <= z < 2 ^ w.

(** [in_signed w z]: [z] is a value of the signed [w]-bit type. *)
Definition in_signed (w z : Z) : Prop := - 2 ^ (w - 1) <= z < 2 ^ (w - 1).

Abbreviation is_u8 := (in_bits 8) (only parsing).
Abbreviation is_u32 := (in_bits 32) (only parsing).
Abbreviation is_u64 := (in_bits 64) (only parsing).
Abbreviation is_i32 := (in_signed 32) (only parsing).
Abbreviation is_i64 := (in_signed 64) (only parsing).

#[export] Instance in_bits_dec w z : Decision (in_bits w z).
Proof. unfold in_bits. apply _. Defined.

#[export] Instance in_signed_dec w z : Decision (in_signed w z).
Proof. unfold in_signed. apply _. Defined.

(** Rust's [e as uN]: truncation to the low [w] bits. *)
Definition as_unsigned (w z : Z) : Z := z mod 2 ^ w.

(** Rust's [e as iN]: the two's complement reading of the low [w] bits. *)
Definition as_signed (w z : Z) : Z := (z + 2 ^ (w - 1)) mod 2 ^ w - 2 ^ (w - 1).

Abbreviation as_u32 := (as_unsigned 32) (only parsing).
Abbreviation as_usize := (as_unsigned 64) (only parsing).
Abbreviation as_i64 := (as_signed 64) (only parsing).

(** The length of a slice, as the [usize] the source compares it with. *)
Definition len {A} (l : list A) : Z := Z.of_nat (length l).

(** A byte string: every element is a [u8]. *)
Definition is_bytes (bs : bytes) : Prop := Forall (in_bits 8) bs.

(** ** Code that may panic *)

Inductive panic : Type :=
  | AssertionFailed
  | DurationOverflow
  | InstantOverflow.

Inductive outcome (A : Type) : Type :=
  | Done (a : A)
  | Panicked (p : panic).
Arguments Done {A} a.
Arguments Panicked {A} p.

#[export] Instance panic_eq_dec : EqDecision panic.
Proof. solve_decision. Defined.

#[export] Instance outcome_eq_dec `{EqDecision A} : EqDecision (outcome A).
Proof. solve_decision. Defined.

#[export] Instance outcome_ret : MRet outcome := fun _ a => Done a.
#[export] Instance outcome_bind : MBind outcome := fun _ _ f m =>
  match m with Done a => f a | Panicked p => Panicked p end.
#[export] Instance outcome_fmap : FMap outcome := fun _ _ f m =>
  match m with Done a => Done (f a) | Panicked p => Panicked p end.

(** Rust's [Result<T, E>]. *)
Inductive Result (T E : Type) : Type :=
  | Ok (t : T)
  | Err (e : E).
Arguments Ok {T E} t.
Arguments Err {T E} e.

#[export] Instance Result_eq_dec `{EqDecision T, EqDecision E} : EqDecision (Result T E).
Proof. solve_decision. Defined.

(** [assert!(b)]: continue when [b] holds, panic otherwise. *)
Definition assert (b : bool) : outcome unit :=
  if b then Done tt else Panicked AssertionFailed.

Definition is_done {A} (m : outcome A) : bool :=
  match m with Done _ => true | Panicked _ => false end.

(** ** Tactics *)

Ltac invert H := inversion H; subst; clear H.

(** Unfold the range predicates and leave linear arithmetic to [lia]. *)
Ltac range :=
  unfold in_bits, in_signed, as_unsigned, as_signed, len in *;
  try (split; [try lia | try lia]); try lia.

(** Case analysis on every [outcome] or [option] scrutinee in sight. *)
Ltac case_outcome :=
  repeat match goal with
  | H : Done _ = Done _ |- _ => invert H
  | H : Panicked _ = Done _ |- _ => discriminate H
  | H : Done _ = Panicked _ |- _ => discriminate H
  | H : context [match ?m with Done _ => _ | Panicked _ => _ end] |- _ =>
      let E := fresh "E" in destruct m eqn:E
  | |- context [match ?m with Done _ => _ | Panicked _ => _ end] =>
      let E := fresh "E" in destruct m eqn:E
  end.

Create HintDb fuse discriminated.
Create Rewrite HintDb fuse_rw.

(** ** Lemmas on ranges and casts *)

Section Ranges.
Implicit Types (w z a b k : Z).

Lemma pow2_pos w : 0 <= w -> 0 < 2 ^ w.
Proof. intros. apply Z.pow_pos_nonneg; lia. Qed.

Lemma in_bits_nonneg w z : in_bits w z -> 0 <= z.
Proof. unfold in_bits; lia. Qed.

Lemma in_bits_mono w w' z : w <= w' -> in_bits w z -> in_bits w' z.
Proof.
  unfold in_bits. intros Hw [H0 H1]. split; [done|].
  eapply Z.lt_le_trans; [done|]. apply Z.pow_le_mono_r; lia.
Qed.

Lemma as_unsigned_range w z : 0 <= w -> in_bits w (as_unsigned w z).
Proof. intros. apply Z.mod_pos_bound, pow2_pos; done. Qed.

Lemma as_unsigned_id w z : in_bits w z -> as_unsigned w z = z.
Proof. intros. apply Z.mod_small; done. Qed.

Lemma as_unsigned_idem w z :
  0 <= w -> as_unsigned w (as_unsigned w z) = as_unsigned w z.
Proof. intros. apply as_unsigned_id, as_unsigned_range; done. Qed.

Lemma as_signed_range w z : 0 < w -> in_signed w (as_signed w z).
Proof.
  intros. unfold in_signed, as_signed.
  assert (2 ^ w = 2 * 2 ^ (w - 1)) as Hw.
  { rewrite <- Z.pow_succ_r by lia. f_equal; lia. }
  pose proof (Z.mod_pos_bound (z + 2 ^ (w - 1)) (2 ^ w) (pow2_pos w ltac:(lia))).
  lia.
Qed.

Lemma as_signed_small w z :
  0 < w -> 0 <= z < 2 ^ (w - 1) -> as_signed w z = z.
Proof.
  intros Hw Hz. unfold as_signed.
  assert (2 ^ w = 2 * 2 ^ (w - 1)) as Hp.
  { rewrite <- Z.pow_succ_r by lia. f_equal; lia. }
  rewrite Z.mod_small by lia. lia.
Qed.

Lemma as_signed_large w z :
  0 < w -> 2 ^ (w - 1) <= z < 2 ^ w -> as_signed w z = z - 2 ^ w.
Proof.
  intros Hw Hz. unfold as_signed.
  assert (2 ^ w = 2 * 2 ^ (w - 1)) as Hp.
  { rewrite <- Z.pow_succ_r by lia. f_equal; lia. }
  replace (z + 2 ^ (w - 1)) with ((z - 2 ^ (w - 1)) + 1 * 2 ^ w) by lia.
  rewrite Z.mod_add by lia. rewrite Z.mod_small by lia. lia.
Qed.

(** Reading a [w]-bit value as signed and back as unsigned loses nothing. *)
Lemma as_unsigned_as_signed w z :
  0 < w -> as_unsigned w (as_signed w z) = as_unsigned w z.
Proof.
  intros Hw. unfold as_unsigned, as_signed.
  rewrite Zminus_mod_idemp_l. f_equal. lia.
Qed.

Lemma len_nonneg {A} (l : list A) : 0 <= len l.
Proof. unfold len; lia. Qed.

Lemma len_app {A} (l1 l2 : list A) : len (l1 ++ l2) = len l1 + len l2.
Proof. unfold len. rewrite length_app. lia. Qed.
End Ranges.

(** ** Lemmas on masks *)

Section Masks.
Implicit Types (a b k w : Z).

Lemma shiftl_1_pow2 k : 0 <= k -> Z.shiftl 1 k = 2 ^ k.
Proof. intros. rewrite Z.shiftl_mul_pow2 by done. lia. Qed.

(** [a & (1 << k)] is the mask itself when bit [k] of [a] is set, and
    zero otherwise. *)
Lemma land_pow2 a k :
  0 <= k -> a .&. 2 ^ k = if Z.testbit a k then 2 ^ k else 0.
Proof.
  intros Hk. apply Z.bits_inj'. intros n Hn.
  rewrite Z.land_spec, Z.pow2_bits_eqb by done.
  destruct (Z.eqb_spec k n) as [->|Hne].
  - destruct (Z.testbit a n); [by rewrite Z.pow2_bits_true|by rewrite Z.bits_0].
  - rewrite andb_false_r.
    destruct (Z.testbit a k); [by rewrite Z.pow2_bits_false|by rewrite Z.bits_0].
Qed.

Lemma land_pow2_eq0 a k : 0 <= k -> a .&. 2 ^ k = 0 <-> Z.testbit a k = false.
Proof.
  intros Hk. rewrite land_pow2 by done. pose proof (pow2_pos k Hk).
  destruct (Z.testbit a k); split; (done || lia).
Qed.

(** The source's [match x & MASK { 0 => no, _ => yes }] reads bit [k]. *)
Lemma match_land_pow2 {A} a k (no yes : A) :
  0 <= k ->
  match a .&. 2 ^ k with 0 => no | _ => yes end =
  if Z.testbit a k then yes else no.
Proof.
  intros Hk. rewrite land_pow2 by done. pose proof (pow2_pos k Hk).
  destruct (Z.testbit a k); [|done]. destruct (2 ^ k); (done || lia).
Qed.

(** The same for a mask written [1 << k], as the ABI constants are. *)
Lemma match_land_shiftl {A} a k (no yes : A) :
  0 <= k ->
  match a .&. Z.shiftl 1 k with 0 => no | _ => yes end =
  if Z.testbit a k then yes else no.
Proof. intros Hk. rewrite shiftl_1_pow2 by done. by apply match_land_pow2. Qed.

(** The same for the literal mask [1]. *)
Lemma match_land_1 {A} a (no yes : A) :
  match a .&. 1 with 0 => no | _ => yes end = if Z.testbit a 0 then yes else no.
Proof. apply (match_land_pow2 a 0); done. Qed.

Lemma land_in_bits w a b : 0 <= w -> in_bits w a -> in_bits w (a .&. b).
Proof.
  intros Hw [Ha0 Ha1].
  assert (0 <= a .&. b) as H0 by (apply Z.land_nonneg; auto).
  split; [done|].
  apply (Z.bounded_iff_bits_nonneg w); [done..|]. intros l Hl.
  rewrite Z.land_spec.
  rewrite (proj1 (Z.bounded_iff_bits_nonneg w a Hw Ha0) Ha1 l Hl). done.
Qed.

Lemma land_in_bits_r w a b : 0 <= w -> in_bits w b -> in_bits w (a .&. b).
Proof. intros. rewrite Z.land_comm. by apply land_in_bits. Qed.

(** Bits of a union of masks. *)
Lemma testbit_lor_pow2 a k n :
  0 <= k -> Z.testbit (a .|. 2 ^ k) n = Z.testbit a n || (k =? n).
Proof. intros. by rewrite Z.lor_spec, Z.pow2_bits_eqb. Qed.
End Masks.

#[export] Hint Resolve in_bits_nonneg as_unsigned_range as_signed_range
  land_in_bits land_in_bits_r len_nonneg : fuse.
#[export] Hint Rewrite as_unsigned_id as_unsigned_idem using (done || lia) : fuse_rw.

(** ** Lemmas on [outcome] *)

Section Outcome.
Context {A B : Type}.
Implicit Types (m : outcome A) (f : A -> outcome B).

Lemma bind_Done (a : A) f : Done a ≫= f = f a.
Proof. done. Qed.

Lemma bind_Panicked (p : panic) f : Panicked p ≫= f = Panicked p.
Proof. done. Qed.

Lemma bind_Done_inv m f (b : B) :
  m ≫= f = Done b -> exists a, m = Done a /\ f a = Done b.
Proof. destruct m; [eauto|done]. Qed.

Lemma bind_Panicked_inv m f (p : panic) :
  m ≫= f = Panicked p ->
  m = Panicked p \/ exists a, m = Done a /\ f a = Panicked p.
Proof. destruct m; [eauto|]. intros [= ->]. by left. Qed.

Lemma assert_Done (b : bool) : assert b = Done tt <-> b = true.
Proof. destruct b; split; done. Qed.

Lemma assert_Panicked (b : bool) p :
  assert b = Panicked p <-> b = false /\ p = AssertionFailed.
Proof. destruct b; split; (done || (try intros [= <-]; try intros [? ->]; done)). Qed.
End Outcome.

(** ** Lemmas on lists of at most one element *)

Section AtMostOne.
Context {A : Type}.
Implicit Types (l : list A) (P : A -> Prop).

Lemma length_le_1_cases l : (length l <= 1)%nat -> l = [] \/ exists x, l = [x].
Proof. destruct l as [|x [|y l]]; simpl; intros; eauto; lia. Qed.

Lemma Forall_le_1 P l :
  (length l <= 1)%nat -> (forall x, l = [x] -> P x) -> Forall P l.
Proof.
  intros [->|[x ->]]%length_le_1_cases HP; [done|].
  apply Forall_singleton; auto.
Qed.
End AtMostOne.
