(* ===== verification/Abi.v ===== *)
(** * The kernel ABI as the dispatcher sees it ([abi.rs])

    The build configuration ([Config]: target platform and the session's
    buffer constants), the errno values, the bit masks of [abi::consts] and
    the argument structs the operations carry.  Each struct is a record in a
    module of its name, so that a field is read as in the source
    ([fuse_init_in.major arg] for [arg.major]).  [abi.rs] is not among the
    sources: the layouts follow the FUSE kernel ABI 7.8 that the handshake
    of [request.rs] negotiates. *)

From Stdlib Require Import ZArith Lia.
From stdpp Require Import base tactics numbers list option.
From S2P Require Import Prelude.

#[local] Open Scope Z_scope.

(** ** Build configuration *)

(** [cfg(target_os = "macos")] against every other target. *)
Inductive TargetOs : Type := MacOs | OtherOs.

#[export] Instance TargetOs_eq_dec : EqDecision TargetOs.
Proof. solve_decision. Defined.

(** What is fixed when the crate is built: the platform, the protocol minor
    version the crate speaks, and the two buffer constants of [session.rs]. *)
Class Config : Type := {
  target_os : TargetOs;
  FUSE_KERNEL_MINOR_VERSION : Z;
  BUFFER_SIZE : Z;
  MAX_WRITE_SIZE : Z;
}.

(** The constants are values of their Rust types ([u32], [usize], [usize]). *)
Record ConfigOk (c : Config) : Prop := {
  minor_u32 : in_bits 32 FUSE_KERNEL_MINOR_VERSION;
  buffer_usize : in_bits 64 BUFFER_SIZE;
  max_write_usize : in_bits 64 MAX_WRITE_SIZE;
}.

Definition FUSE_KERNEL_VERSION : Z := 7.

(** ** Errno values ([libc]) *)

Definition EIO : Z := 5.

Definition ENOSYS `{Config} : Z :=
  match target_os with MacOs => 78 | OtherOs => 38 end.

Definition EPROTO `{Config} : Z :=
  match target_os with MacOs => 100 | OtherOs => 71 end.

(** ** Bit masks ([abi::consts]) *)

(** Validity bits of [fuse_setattr_in.valid]. *)
Definition FATTR_MODE : Z := Z.shiftl 1 0.
Definition FATTR_UID : Z := Z.shiftl 1 1.
Definition FATTR_GID : Z := Z.shiftl 1 2.
Definition FATTR_SIZE : Z := Z.shiftl 1 3.
Definition FATTR_ATIME : Z := Z.shiftl 1 4.
Definition FATTR_MTIME : Z := Z.shiftl 1 5.
Definition FATTR_FH : Z := Z.shiftl 1 6.
Definition FATTR_CRTIME : Z := Z.shiftl 1 28.
Definition FATTR_CHGTIME : Z := Z.shiftl 1 29.
Definition FATTR_BKUPTIME : Z := Z.shiftl 1 30.
Definition FATTR_FLAGS : Z := Z.shiftl 1 31.

(** Capability flags of the handshake. *)
Definition FUSE_ASYNC_READ : Z := Z.shiftl 1 0.
Definition FUSE_CASE_INSENSITIVE : Z := Z.shiftl 1 29.
Definition FUSE_VOL_RENAME : Z := Z.shiftl 1 30.
Definition FUSE_XTIMES : Z := Z.shiftl 1 31.

(** Release flags. *)
Definition FUSE_RELEASE_FLUSH : Z := Z.shiftl 1 0.

(** ** Argument structs *)

Module fuse_init_in.
Record t : Type := mk {
  major : Z; minor : Z; max_readahead : Z; flags : Z;
}.
Definition ok (a : t) : Prop :=
  in_bits 32 (major a) /\ in_bits 32 (minor a) /\
  in_bits 32 (max_readahead a) /\ in_bits 32 (flags a).
End fuse_init_in.

Module fuse_init_out.
Record t : Type := mk {
  major : Z; minor : Z; max_readahead : Z; flags : Z; unused : Z;
  max_write : Z;
}.
Definition ok (a : t) : Prop :=
  in_bits 32 (major a) /\ in_bits 32 (minor a) /\
  in_bits 32 (max_readahead a) /\ in_bits 32 (flags a) /\
  in_bits 32 (unused a) /\ in_bits 32 (max_write a).
End fuse_init_out.

Module fuse_forget_in.
Record t : Type := mk { nlookup : Z }.
Definition ok (a : t) : Prop := in_bits 64 (nlookup a).
End fuse_forget_in.

Module fuse_setattr_in.
Record t : Type := mk {
  valid : Z; padding : Z; fh : Z; size : Z; unused1 : Z;
  atime : Z; mtime : Z; unused2 : Z;
  atimensec : Z; mtimensec : Z; unused3 : Z;
  mode : Z; unused4 : Z; uid : Z; gid : Z; unused5 : Z;
  (* present on macOS only; zero elsewhere *)
  bkuptime : Z; chgtime : Z; crtime : Z;
  bkuptimensec : Z; chgtimensec : Z; crtimensec : Z;
  flags : Z;
}.
Definition ok (a : t) : Prop :=
  in_bits 32 (valid a) /\ in_bits 64 (fh a) /\ in_bits 64 (size a) /\
  in_bits 64 (atime a) /\ in_bits 64 (mtime a) /\
  in_bits 32 (atimensec a) /\ in_bits 32 (mtimensec a) /\
  in_bits 32 (mode a) /\ in_bits 32 (uid a) /\ in_bits 32 (gid a) /\
  in_bits 64 (bkuptime a) /\ in_bits 64 (chgtime a) /\ in_bits 64 (crtime a) /\
  in_bits 32 (bkuptimensec a) /\ in_bits 32 (chgtimensec a) /\
  in_bits 32 (crtimensec a) /\ in_bits 32 (flags a).
End fuse_setattr_in.

Module fuse_mknod_in.
Record t : Type := mk { mode : Z; rdev : Z }.
Definition ok (a : t) : Prop := in_bits 32 (mode a) /\ in_bits 32 (rdev a).
End fuse_mknod_in.

Module fuse_mkdir_in.
Record t : Type := mk { mode : Z; padding : Z }.
Definition ok (a : t) : Prop := in_bits 32 (mode a).
End fuse_mkdir_in.

Module fuse_rename_in.
Record t : Type := mk { newdir : Z }.
Definition ok (a : t) : Prop := in_bits 64 (newdir a).
End fuse_rename_in.

Module fuse_exchange_in.
Record t : Type := mk { olddir : Z; newdir : Z; options : Z }.
Definition ok (a : t) : Prop :=
  in_bits 64 (olddir a) /\ in_bits 64 (newdir a) /\ in_bits 64 (options a).
End fuse_exchange_in.

Module fuse_link_in.
Record t : Type := mk { oldnodeid : Z }.
Definition ok (a : t) : Prop := in_bits 64 (oldnodeid a).
End fuse_link_in.

Module fuse_open_in.
Record t : Type := mk { flags : Z; unused : Z }.
Definition ok (a : t) : Prop := in_bits 32 (flags a).
End fuse_open_in.

Module fuse_create_in.
Record t : Type := mk { flags : Z; mode : Z }.
Definition ok (a : t) : Prop := in_bits 32 (flags a) /\ in_bits 32 (mode a).
End fuse_create_in.

Module fuse_read_in.
Record t : Type := mk { fh : Z; offset : Z; size : Z; padding : Z }.
Definition ok (a : t) : Prop :=
  in_bits 64 (fh a) /\ in_bits 64 (offset a) /\ in_bits 32 (size a).
End fuse_read_in.

Module fuse_write_in.
Record t : Type := mk { fh : Z; offset : Z; size : Z; write_flags : Z }.
Definition ok (a : t) : Prop :=
  in_bits 64 (fh a) /\ in_bits 64 (offset a) /\ in_bits 32 (size a) /\
  in_bits 32 (write_flags a).
End fuse_write_in.

Module fuse_flush_in.
Record t : Type := mk { fh : Z; unused : Z; padding : Z; lock_owner : Z }.
Definition ok (a : t) : Prop := in_bits 64 (fh a) /\ in_bits 64 (lock_owner a).
End fuse_flush_in.

Module fuse_release_in.
Record t : Type := mk { fh : Z; flags : Z; release_flags : Z; lock_owner : Z }.
Definition ok (a : t) : Prop :=
  in_bits 64 (fh a) /\ in_bits 32 (flags a) /\ in_bits 32 (release_flags a) /\
  in_bits 64 (lock_owner a).
End fuse_release_in.

Module fuse_fsync_in.
Record t : Type := mk { fh : Z; fsync_flags : Z; padding : Z }.
Definition ok (a : t) : Prop := in_bits 64 (fh a) /\ in_bits 32 (fsync_flags a).
End fuse_fsync_in.

Module fuse_setxattr_in.
Record t : Type := mk {
  size : Z; flags : Z;
  (* present on macOS only; zero elsewhere *)
  position : Z; padding : Z;
}.
Definition ok (a : t) : Prop :=
  in_bits 32 (size a) /\ in_bits 32 (flags a) /\ in_bits 32 (position a).
End fuse_setxattr_in.

Module fuse_getxattr_in.
Record t : Type := mk { size : Z; padding : Z; position : Z; padding2 : Z }.
Definition ok (a : t) : Prop := in_bits 32 (size a).
End fuse_getxattr_in.

Module fuse_file_lock.
Record t : Type := mk { start : Z; end_ : Z; typ : Z; pid : Z }.
Definition ok (a : t) : Prop :=
  in_bits 64 (start a) /\ in_bits 64 (end_ a) /\ in_bits 32 (typ a) /\ in_bits 32 (pid a).
End fuse_file_lock.

Module fuse_lk_in.
Record t : Type := mk { fh : Z; owner : Z; lk : fuse_file_lock.t }.
Definition ok (a : t) : Prop :=
  in_bits 64 (fh a) /\ in_bits 64 (owner a) /\ fuse_file_lock.ok (lk a).
End fuse_lk_in.

Module fuse_access_in.
Record t : Type := mk { mask : Z; padding : Z }.
Definition ok (a : t) : Prop := in_bits 32 (mask a).
End fuse_access_in.

Module fuse_interrupt_in.
Record t : Type := mk { unique : Z }.
Definition ok (a : t) : Prop := in_bits 64 (unique a).
End fuse_interrupt_in.

Module fuse_bmap_in.
Record t : Type := mk { block : Z; blocksize : Z; padding : Z }.
Definition ok (a : t) : Prop := in_bits 64 (block a) /\ in_bits 32 (blocksize a).
End fuse_bmap_in.


(** ** Decidable equality of the argument structs *)

#[export] Instance fuse_init_in_eq_dec : EqDecision fuse_init_in.t.
Proof. solve_decision. Defined.

#[export] Instance fuse_init_out_eq_dec : EqDecision fuse_init_out.t.
Proof. solve_decision. Defined.

#[export] Instance fuse_forget_in_eq_dec : EqDecision fuse_forget_in.t.
Proof. solve_decision. Defined.

#[export] Instance fuse_setattr_in_eq_dec : EqDecision fuse_setattr_in.t.
Proof. solve_decision. Defined.

#[export] Instance fuse_mknod_in_eq_dec : EqDecision fuse_mknod_in.t.
Proof. solve_decision. Defined.

#[export] Instance fuse_mkdir_in_eq_dec : EqDecision fuse_mkdir_in.t.
Proof. solve_decision. Defined.

#[export] Instance fuse_rename_in_eq_dec : EqDecision fuse_rename_in.t.
Proof. solve_decision. Defined.

#[export] Instance fuse_exchange_in_eq_dec : EqDecision fuse_exchange_in.t.
Proof. solve_decision. Defined.

#[export] Instance fuse_link_in_eq_dec : EqDecision fuse_link_in.t.
Proof. solve_decision. Defined.

#[export] Instance fuse_open_in_eq_dec : EqDecision fuse_open_in.t.
Proof. solve_decision. Defined.

#[export] Instance fuse_create_in_eq_dec : EqDecision fuse_create_in.t.
Proof. solve_decision. Defined.

#[export] Instance fuse_read_in_eq_dec : EqDecision fuse_read_in.t.
Proof. solve_decision. Defined.

#[export] Instance fuse_write_in_eq_dec : EqDecision fuse_write_in.t.
Proof. solve_decision. Defined.

#[export] Instance fuse_flush_in_eq_dec : EqDecision fuse_flush_in.t.
Proof. solve_decision. Defined.

#[export] Instance fuse_release_in_eq_dec : EqDecision fuse_release_in.t.
Proof. solve_decision. Defined.

#[export] Instance fuse_fsync_in_eq_dec : EqDecision fuse_fsync_in.t.
Proof. solve_decision. Defined.

#[export] Instance fuse_setxattr_in_eq_dec : EqDecision fuse_setxattr_in.t.
Proof. solve_decision. Defined.

#[export] Instance fuse_getxattr_in_eq_dec : EqDecision fuse_getxattr_in.t.
Proof. solve_decision. Defined.

#[export] Instance fuse_file_lock_eq_dec : EqDecision fuse_file_lock.t.
Proof. solve_decision. Defined.

#[export] Instance fuse_lk_in_eq_dec : EqDecision fuse_lk_in.t.
Proof. solve_decision. Defined.

#[export] Instance fuse_access_in_eq_dec : EqDecision fuse_access_in.t.
Proof. solve_decision. Defined.

#[export] Instance fuse_interrupt_in_eq_dec : EqDecision fuse_interrupt_in.t.
Proof. solve_decision. Defined.

#[export] Instance fuse_bmap_in_eq_dec : EqDecision fuse_bmap_in.t.
Proof. solve_decision. Defined.

(** ** The masks are single bits *)

Lemma FATTR_bits :
  FATTR_MODE = 2 ^ 0 /\ FATTR_UID = 2 ^ 1 /\ FATTR_GID = 2 ^ 2 /\
  FATTR_SIZE = 2 ^ 3 /\ FATTR_ATIME = 2 ^ 4 /\ FATTR_MTIME = 2 ^ 5 /\
  FATTR_FH = 2 ^ 6 /\ FATTR_CRTIME = 2 ^ 28 /\ FATTR_CHGTIME = 2 ^ 29 /\
  FATTR_BKUPTIME = 2 ^ 30 /\ FATTR_FLAGS = 2 ^ 31.
Proof. repeat split. Qed.

Lemma FUSE_RELEASE_FLUSH_bit : FUSE_RELEASE_FLUSH = 2 ^ 0.
Proof. reflexivity. Qed.

Lemma errno_positive `{Config} : 0 < EIO /\ 0 < ENOSYS /\ 0 < EPROTO.
Proof. unfold EIO, ENOSYS, EPROTO. destruct target_os; lia. Qed.

Lemma errno_distinct `{Config} : EIO <> ENOSYS /\ EIO <> EPROTO /\ ENOSYS <> EPROTO.
Proof. unfold EIO, ENOSYS, EPROTO. destruct target_os; lia. Qed.
