(* ===== verification/Time.v ===== *)
(** * [std::time] as the dispatcher uses it

    [Duration::new] normalises nanoseconds into seconds and panics when the
    seconds overflow [u64]; a [SystemTime] on the targets of the crate is a
    [Timespec] of signed 64-bit seconds and nanoseconds below one second;
    [checked_add] returns [None] when the seconds leave [i64], and [+] is
    [checked_add] followed by a panic on [None].  Modelled from the
    standard library's documentation: [request.rs] only calls them. *)

From Stdlib Require Import ZArith Lia.
From stdpp Require Import base tactics numbers list option.
From S2P Require Import Prelude.

#[local] Open Scope Z_scope.

Definition NANOS_PER_SEC : Z := 1000000000.

Module Duration.
Record t : Type := mk { secs : Z; nanos : Z }.

(** A value of the type: [u64] seconds, fewer than 10^9 nanoseconds. *)
Definition ok (d : t) : Prop :=
  in_bits 64 (secs d) /\ 0 <= nanos d < NANOS_PER_SEC.

(** [Duration::new(secs, nanos)] *)
Definition new (s n : Z) : outcome t :=
  let s' := s + n / NANOS_PER_SEC in
  if s' <? 2 ^ 64 then Done (mk s' (n mod NANOS_PER_SEC))
  else Panicked DurationOverflow.
End Duration.

Module SystemTime.
Record t : Type := mk { tv_sec : Z; tv_nsec : Z }.

Definition ok (x : t) : Prop :=
  in_signed 64 (tv_sec x) /\ 0 <= tv_nsec x < NANOS_PER_SEC.

Definition UNIX_EPOCH : t := mk 0 0.

(** [SystemTime::checked_add] *)
Definition checked_add (x : t) (d : Duration.t) : option t :=
  if Duration.secs d <? 2 ^ 63 then
    let s := tv_sec x + Duration.secs d in
    if s <? 2 ^ 63 then
      let n := Duration.nanos d + tv_nsec x in
      if NANOS_PER_SEC <=? n then
        if s + 1 <? 2 ^ 63 then Some (mk (s + 1) (n - NANOS_PER_SEC)) else None
      else Some (mk s n)
    else None
  else None.

(** [SystemTime + Duration] *)
Definition add (x : t) (d : Duration.t) : outcome t :=
  match checked_add x d with
  | Some y => Done y
  | None => Panicked InstantOverflow
  end.
End SystemTime.

(** The readings of [SystemTime::now()] during one dispatch, by call site:
    0 for [crtime], 1 for [chgtime], 2 for [bkuptime]. *)
Abbreviation Clock := (nat -> SystemTime.t).

#[export] Instance Duration_eq_dec : EqDecision Duration.t.
Proof. solve_decision. Defined.

#[export] Instance SystemTime_eq_dec : EqDecision SystemTime.t.
Proof. solve_decision. Defined.

(** ** Properties *)

Section TimeLemmas.
Implicit Types (s n : Z) (d : Duration.t) (x : SystemTime.t).

Lemma Duration_new_Done s n d :
  Duration.new s n = Done d <->
  s + n / NANOS_PER_SEC < 2 ^ 64 /\
  d = Duration.mk (s + n / NANOS_PER_SEC) (n mod NANOS_PER_SEC).
Proof.
  unfold Duration.new. case_match eqn:E.
  - apply Z.ltb_lt in E. split; [intros [= <-]; done|intros [_ ->]; done].
  - apply Z.ltb_ge in E. split; [done|]. intros [? _]. lia.
Qed.

Lemma Duration_new_Panicked s n p :
  Duration.new s n = Panicked p <->
  2 ^ 64 <= s + n / NANOS_PER_SEC /\ p = DurationOverflow.
Proof.
  unfold Duration.new. case_match eqn:E.
  - apply Z.ltb_lt in E. split; [done|]. intros [? _]. lia.
  - apply Z.ltb_ge in E. split; [intros [= <-]; done|intros [_ ->]; done].
Qed.

Lemma Duration_new_ok s n d :
  in_bits 64 s -> in_bits 32 n -> Duration.new s n = Done d -> Duration.ok d.
Proof.
  intros Hs Hn [Hlt ->]%Duration_new_Done. unfold Duration.ok, in_bits in *. simpl.
  pose proof (Z.mod_pos_bound n NANOS_PER_SEC ltac:(done)).
  assert (0 <= n / NANOS_PER_SEC) by (apply Z.div_pos; [lia|done]).
  lia.
Qed.

(** Nanoseconds already below one second: nothing is carried. *)
Lemma Duration_new_small s n :
  in_bits 64 s -> 0 <= n < NANOS_PER_SEC ->
  Duration.new s n = Done (Duration.mk s n).
Proof.
  intros Hs Hn. apply Duration_new_Done.
  rewrite (Z.div_small n NANOS_PER_SEC Hn), (Z.mod_small n NANOS_PER_SEC Hn), Z.add_0_r.
  unfold in_bits in Hs. split; [lia|done].
Qed.

Lemma epoch_checked_add d :
  Duration.ok d ->
  SystemTime.checked_add SystemTime.UNIX_EPOCH d =
  if Duration.secs d <? 2 ^ 63
  then Some (SystemTime.mk (Duration.secs d) (Duration.nanos d))
  else None.
Proof.
  intros [Hs Hn]. unfold SystemTime.checked_add, SystemTime.UNIX_EPOCH. simpl.
  rewrite Z.add_0_l, Z.add_0_r.
  destruct (Z.ltb_spec (Duration.secs d) (2 ^ 63)); [|done].
  destruct (Z.leb_spec NANOS_PER_SEC (Duration.nanos d)); [lia|done].
Qed.

Lemma epoch_checked_add_ok d x :
  Duration.ok d ->
  SystemTime.checked_add SystemTime.UNIX_EPOCH d = Some x -> SystemTime.ok x.
Proof.
  intros Hd. rewrite epoch_checked_add by done.
  destruct Hd as [[Hs0 Hs1] Hn].
  destruct (Z.ltb_spec (Duration.secs d) (2 ^ 63)); [|done].
  intros [= <-]. unfold SystemTime.ok, in_signed. simpl. lia.
Qed.

Lemma SystemTime_add_Done x d y :
  SystemTime.add x d = Done y <-> SystemTime.checked_add x d = Some y.
Proof. unfold SystemTime.add. destruct (SystemTime.checked_add x d); intuition congruence. Qed.

Lemma SystemTime_add_Panicked x d p :
  SystemTime.add x d = Panicked p <->
  SystemTime.checked_add x d = None /\ p = InstantOverflow.
Proof. unfold SystemTime.add. destruct (SystemTime.checked_add x d); intuition congruence. Qed.
End TimeLemmas.
