(* ===== verification/LlRequest.v ===== *)
(** * The parsed request ([ll_request.rs])

    The fixed header every request starts with, the closed union of
    operations (one constructor per opcode, carrying the argument struct and
    the trailing names or payload of that opcode), and the parsed request
    with its accessors.  [ll_request.rs] is not among the sources: the
    constructors and their fields are the patterns [Request::dispatch]
    matches on. *)

From Stdlib Require Import ZArith Lia.
From stdpp Require Import base tactics numbers list option.
From S2P Require Import Prelude Abi.

#[local] Open Scope Z_scope.

Module fuse_in_header.
Record t : Type := mk {
  len : Z; opcode : Z; unique : Z; nodeid : Z;
  uid : Z; gid : Z; pid : Z; padding : Z;
}.
Definition ok (h : t) : Prop :=
  in_bits 32 (len h) /\ in_bits 32 (opcode h) /\ in_bits 64 (unique h) /\
  in_bits 64 (nodeid h) /\ in_bits 32 (uid h) /\ in_bits 32 (gid h) /\
  in_bits 32 (pid h) /\ in_bits 32 (padding h).
End fuse_in_header.

Module ll_request.

(** [ll_request::Operation].  The last three variants exist on macOS only. *)
Inductive Operation : Type :=
  | Lookup (name : bytes)
  | Forget (arg : fuse_forget_in.t)
  | GetAttr
  | SetAttr (arg : fuse_setattr_in.t)
  | ReadLink
  | SymLink (name link : bytes)
  | MkNod (arg : fuse_mknod_in.t) (name : bytes)
  | MkDir (arg : fuse_mkdir_in.t) (name : bytes)
  | Unlink (name : bytes)
  | RmDir (name : bytes)
  | Rename (arg : fuse_rename_in.t) (name newname : bytes)
  | Link (arg : fuse_link_in.t) (name : bytes)
  | Open (arg : fuse_open_in.t)
  | Read (arg : fuse_read_in.t)
  | Write (arg : fuse_write_in.t) (data : bytes)
  | StatFs
  | Release (arg : fuse_release_in.t)
  | FSync (arg : fuse_fsync_in.t)
  | SetXAttr (arg : fuse_setxattr_in.t) (name value : bytes)
  | GetXAttr (arg : fuse_getxattr_in.t) (name : bytes)
  | ListXAttr (arg : fuse_getxattr_in.t)
  | RemoveXAttr (name : bytes)
  | Flush (arg : fuse_flush_in.t)
  | Init (arg : fuse_init_in.t)
  | OpenDir (arg : fuse_open_in.t)
  | ReadDir (arg : fuse_read_in.t)
  | ReleaseDir (arg : fuse_release_in.t)
  | FSyncDir (arg : fuse_fsync_in.t)
  | GetLk (arg : fuse_lk_in.t)
  | SetLk (arg : fuse_lk_in.t)
  | SetLkW (arg : fuse_lk_in.t)
  | Access (arg : fuse_access_in.t)
  | Create (arg : fuse_create_in.t) (name : bytes)
  | Interrupt (arg : fuse_interrupt_in.t)
  | BMap (arg : fuse_bmap_in.t)
  | Destroy
  | SetVolName (name : bytes)
  | GetXTimes
  | Exchange (arg : fuse_exchange_in.t) (oldname newname : bytes).

(** [ll_request::Request]: header and operation. *)
Record Request : Type := mk {
  header : fuse_in_header.t;
  operation : Operation;
}.

Definition unique (r : Request) : Z := fuse_in_header.unique (header r).
Definition nodeid (r : Request) : Z := fuse_in_header.nodeid (header r).
Definition uid (r : Request) : Z := fuse_in_header.uid (header r).
Definition gid (r : Request) : Z := fuse_in_header.gid (header r).
Definition pid (r : Request) : Z := fuse_in_header.pid (header r).

(** The variants the parser can produce on a platform. *)
Definition macos_only (op : Operation) : bool :=
  match op with
  | SetVolName _ | GetXTimes | Exchange _ _ _ => true
  | _ => false
  end.

Definition on_target `{Config} (op : Operation) : bool :=
  match target_os with
  | MacOs => true
  | OtherOs => negb (macos_only op)
  end.

(** The integer fields an arm casts are values of their types. *)
Definition ok (op : Operation) : Prop :=
  match op with
  | Init arg => fuse_init_in.ok arg
  | SetAttr arg => fuse_setattr_in.ok arg
  | Read arg | ReadDir arg => fuse_read_in.ok arg
  | Write arg _ => fuse_write_in.ok arg
  | SetXAttr arg _ _ => fuse_setxattr_in.ok arg
  | _ => True
  end.

Definition is_init (op : Operation) : bool :=
  match op with Init _ => true | _ => false end.

Definition is_destroy (op : Operation) : bool :=
  match op with Destroy => true | _ => false end.

Definition is_forget (op : Operation) : bool :=
  match op with Forget _ => true | _ => false end.

End ll_request.

#[export] Instance fuse_in_header_eq_dec : EqDecision fuse_in_header.t.
Proof. solve_decision. Defined.

#[export] Instance Operation_eq_dec : EqDecision ll_request.Operation.
Proof. solve_decision. Defined.

#[export] Instance ll_Request_eq_dec : EqDecision ll_request.Request.
Proof. solve_decision. Defined.

#[export] Instance Operation_ok_dec op : Decision (ll_request.ok op).
Proof.
  destruct op; simpl;
    unfold fuse_init_in.ok, fuse_setattr_in.ok, fuse_read_in.ok,
      fuse_write_in.ok, fuse_setxattr_in.ok; apply _.
Defined.
