(* ===== verification/Reply.v ===== *)
(** * Reply objects ([reply.rs])

    A reply object is created for one request and bound to that request's
    [unique] and to the channel sender.  Each terminal operation consumes
    the object and writes one message to the channel; the model returns that
    message.  The reply types of the [Filesystem] trait differ in the
    payload they accept, not in how they are bound, so one record indexed by
    the kind stands for all of them.  [reply.rs] is not among the sources. *)

From Stdlib Require Import ZArith Lia.
From stdpp Require Import base tactics numbers list option.
From S2P Require Import Prelude Abi.

#[local] Open Scope Z_scope.

(** The sending half of the channel: the file descriptor of the device. *)
Definition ChannelSender : Type := Z.

(** What a message carries after its header. *)
Inductive Payload : Type :=
  | NoPayload
  | InitOut (out : fuse_init_out.t)
  | Raw (data : bytes).

(** One write to the channel: the reply header's [unique] and [error]
    fields, and the payload. *)
Record Message : Type := mkMessage {
  msg_sender : ChannelSender;
  msg_unique : Z;
  msg_error : Z;
  msg_payload : Payload;
}.

Inductive ReplyKind : Type :=
  | KRaw | KEmpty | KData | KEntry | KAttr | KOpen | KWrite | KStatfs
  | KCreate | KLock | KBmap | KXattr | KXTimes.

Module Reply.
Record t (k : ReplyKind) : Type := mk {
  unique : Z;
  sender : ChannelSender;
}.
Arguments mk {k} unique sender.
Arguments unique {k} _.
Arguments sender {k} _.

(** [Reply::new(unique, sender)] *)
Definition new {k} (unique : Z) (sender : ChannelSender) : t k :=
  mk unique sender.

(** [reply.error(err)]: an error code and no payload. *)
Definition error {k} (r : t k) (err : Z) : Message :=
  mkMessage (sender r) (unique r) err NoPayload.

(** [reply.ok(..)]: success with the payload of the reply's kind. *)
Definition ok {k} (r : t k) (p : Payload) : Message :=
  mkMessage (sender r) (unique r) 0 p.
End Reply.

Abbreviation ReplyRaw := (Reply.t KRaw).
Abbreviation ReplyEmpty := (Reply.t KEmpty).
Abbreviation ReplyData := (Reply.t KData).
Abbreviation ReplyEntry := (Reply.t KEntry).
Abbreviation ReplyAttr := (Reply.t KAttr).
Abbreviation ReplyOpen := (Reply.t KOpen).
Abbreviation ReplyWrite := (Reply.t KWrite).
Abbreviation ReplyStatfs := (Reply.t KStatfs).
Abbreviation ReplyCreate := (Reply.t KCreate).
Abbreviation ReplyLock := (Reply.t KLock).
Abbreviation ReplyBmap := (Reply.t KBmap).
Abbreviation ReplyXattr := (Reply.t KXattr).
Abbreviation ReplyXTimes := (Reply.t KXTimes).

Module ReplyDirectory.
(** A directory reply accumulates entries in a buffer of fixed capacity. *)
Record t : Type := mk {
  reply : ReplyRaw;
  capacity : Z;
  data : bytes;
}.

(** [ReplyDirectory::new(unique, sender, size)] *)
Definition new (unique : Z) (sender : ChannelSender) (size : Z) : t :=
  mk (Reply.new unique sender) size [].

(** [ReplyDirectory::add]: append an entry, unless the buffer would grow
    past its capacity; the result tells whether the buffer is full. *)
Definition add (r : t) (entry : bytes) : t * bool :=
  if len (data r) + len entry <=? capacity r
  then (mk (reply r) (capacity r) (data r ++ entry), false)
  else (r, true).

Definition ok (r : t) : Message := Reply.ok (reply r) (Raw (data r)).
Definition error (r : t) (err : Z) : Message := Reply.error (reply r) err.
End ReplyDirectory.

(** A directory reply after a filesystem has offered it the entries. *)
Definition fill (r : ReplyDirectory.t) (entries : list bytes) : ReplyDirectory.t :=
  foldl (fun r entry => (ReplyDirectory.add r entry).1) r entries.

#[export] Instance Payload_eq_dec : EqDecision Payload.
Proof. solve_decision. Defined.

#[export] Instance Message_eq_dec : EqDecision Message.
Proof. solve_decision. Defined.

(** ** The binding of a reply object *)

(** What identifies a reply object on the wire: its correlation id and its
    sender. *)
Definition Binding : Type := (Z * ChannelSender)%type.

Definition binding {k} (r : Reply.t k) : Binding := (Reply.unique r, Reply.sender r).
Definition dir_binding (r : ReplyDirectory.t) : Binding := binding (ReplyDirectory.reply r).
Definition msg_binding (m : Message) : Binding := (msg_unique m, msg_sender m).

(** [uses b msgs]: the messages are what at most one terminal operation on a
    reply object bound to [b] writes. *)
Definition uses (b : Binding) (msgs : list Message) : Prop :=
  (length msgs <= 1)%nat /\ Forall (fun m => msg_binding m = b) msgs.

#[export] Instance uses_dec b msgs : Decision (uses b msgs).
Proof. unfold uses. apply _. Defined.

Section ReplyLemmas.
Context {k : ReplyKind}.
Implicit Types (r : Reply.t k) (b : Binding) (msgs : list Message).

Lemma error_binding r err : msg_binding (Reply.error r err) = binding r.
Proof. done. Qed.

Lemma ok_binding r p : msg_binding (Reply.ok r p) = binding r.
Proof. done. Qed.

Lemma new_binding (u : Z) (s : ChannelSender) : binding (@Reply.new k u s) = (u, s).
Proof. done. Qed.

Lemma uses_nil b : uses b [].
Proof. split; [simpl; lia|done]. Qed.

Lemma uses_one b (m : Message) : msg_binding m = b -> uses b [m].
Proof. split; [simpl; lia|]. by apply Forall_singleton. Qed.

Lemma uses_error r err : uses (binding r) [Reply.error r err].
Proof. by apply uses_one. Qed.

Lemma uses_ok r p : uses (binding r) [Reply.ok r p].
Proof. by apply uses_one. Qed.

Lemma uses_inv b msgs :
  uses b msgs -> msgs = [] \/ exists m, msgs = [m] /\ msg_binding m = b.
Proof.
  intros [[->|[m ->]]%length_le_1_cases HF]; [by left|right].
  exists m. apply Forall_inv in HF. done.
Qed.

(** What is written through a reply object, read as bindings, is a
    selection from the one binding of the object. *)
Lemma uses_sublist b msgs : uses b msgs -> msg_binding <$> msgs `sublist_of` [b].
Proof.
  intros [->|(m & -> & <-)]%uses_inv; [apply sublist_nil_l|done].
Qed.
End ReplyLemmas.

(** ** The budget of a directory reply *)

Section Directory.
Implicit Types (r : ReplyDirectory.t) (entry : bytes) (entries : list bytes).

(** The data of a directory reply stays within its capacity. *)
Definition within r : Prop := len (ReplyDirectory.data r) <= ReplyDirectory.capacity r.

Lemma add_spec r entry :
  ReplyDirectory.reply (ReplyDirectory.add r entry).1 = ReplyDirectory.reply r /\
  ReplyDirectory.capacity (ReplyDirectory.add r entry).1 = ReplyDirectory.capacity r /\
  (within r -> within (ReplyDirectory.add r entry).1) /\
  ReplyDirectory.data (ReplyDirectory.add r entry).1 =
    ReplyDirectory.data r ++ (if (ReplyDirectory.add r entry).2 then [] else entry).
Proof.
  unfold ReplyDirectory.add, within.
  destruct (Z.leb_spec (len (ReplyDirectory.data r) + len entry) (ReplyDirectory.capacity r));
    simpl; rewrite ?len_app, ?app_nil_r; auto.
Qed.

(** An entry that is refused changes nothing. *)
Lemma add_full r entry :
  (ReplyDirectory.add r entry).2 = true -> (ReplyDirectory.add r entry).1 = r.
Proof. unfold ReplyDirectory.add. by case_match. Qed.

Lemma fill_spec r entries :
  ReplyDirectory.reply (fill r entries) = ReplyDirectory.reply r /\
  ReplyDirectory.capacity (fill r entries) = ReplyDirectory.capacity r /\
  (within r -> within (fill r entries)).
Proof.
  revert r. induction entries as [|entry entries IH]; intros r; [done|]. simpl.
  destruct (add_spec r entry) as (Hr & Hc & Hw & _).
  destruct (IH (ReplyDirectory.add r entry).1) as (Hr' & Hc' & Hw').
  split_and!; [congruence..|auto].
Qed.

Lemma new_within (u : Z) (s : ChannelSender) (size : Z) :
  0 <= size -> within (ReplyDirectory.new u s size).
Proof. done. Qed.
End Directory.

Lemma dir_new_binding (u : Z) (s : ChannelSender) (size : Z) :
  dir_binding (ReplyDirectory.new u s size) = (u, s).
Proof. done. Qed.

#[export] Hint Resolve uses_nil uses_error uses_ok uses_one : fuse.
