(* ===== verification/Request.v ===== *)
(** * The request handed to the dispatcher ([request.rs], lines 33-57 and
    522-554)

    [Request] keeps the channel sender, the raw bytes and the parsed
    request.  [new] runs the parser and drops the buffer when it fails;
    [reply] creates the reply object bound to this request; [unique], [uid],
    [gid] and [pid] read the header.  The parser itself
    ([ll_request::Request::try_from]) is the interface [Parser]. *)

From Stdlib Require Import ZArith Lia.
From stdpp Require Import base tactics numbers list option.
From S2P Require Import Prelude Abi LlRequest Reply.

#[local] Open Scope Z_scope.

(** [ll_request::RequestError] *)
Inductive RequestError : Type :=
  | ShortReadHeader (n : Z)
  | UnknownOperation (opcode : Z)
  | ShortRead (n m : Z)
  | InsufficientData.

(** [TryFrom<&[u8]> for ll_request::Request]: what [new] needs of the
    parser. *)
Class Parser : Type :=
  try_from : bytes -> Result ll_request.Request RequestError.

(** [struct Request] *)
Record Request : Type := mk {
  ch : ChannelSender;
  data : bytes;
  request : ll_request.Request;
}.

(** [Request::new] *)
Definition new `{Parser} (ch : ChannelSender) (data : bytes) : option Request :=
  match try_from data with
  | Ok request => Some (mk ch data request)
  | Err err => None
  end.

(** [Request::reply] *)
Definition reply {k : ReplyKind} (self : Request) : Reply.t k :=
  Reply.new (ll_request.unique (request self)) (ch self).

(** [Request::unique] *)
Definition unique (self : Request) : Z := ll_request.unique (request self).

(** [Request::uid] *)
Definition uid (self : Request) : Z := ll_request.uid (request self).

(** [Request::gid] *)
Definition gid (self : Request) : Z := ll_request.gid (request self).

(** [Request::pid] *)
Definition pid (self : Request) : Z := ll_request.pid (request self).

#[export] Instance RequestError_eq_dec : EqDecision RequestError.
Proof. solve_decision. Defined.

#[export] Instance Request_eq_dec : EqDecision Request.
Proof. solve_decision. Defined.

(** The binding every reply to this request carries. *)
Definition request_binding (self : Request) : Binding := (unique self, ch self).

Section RequestLemmas.
Context `{Parser}.
Implicit Types (self : Request) (c : ChannelSender) (d : bytes).

Lemma new_Some c d self :
  new c d = Some self <->
  exists r, try_from d = Ok r /\ self = mk c d r.
Proof.
  unfold new. destruct (try_from d) as [r|e]; split.
  - intros [= <-]. eauto.
  - intros (r' & [= <-] & ->). done.
  - done.
  - intros (r' & [=] & _).
Qed.

Lemma new_None c d :
  new c d = None <-> exists e, try_from d = Err e.
Proof.
  unfold new. destruct (try_from d) as [r|e]; split; try done.
  - intros (e & [=]).
  - eauto.
Qed.

Lemma reply_binding {k} self : binding (@reply k self) = request_binding self.
Proof. done. Qed.
End RequestLemmas.

#[export] Hint Resolve reply_binding : fuse.
