(* ===== verification/Wire.v ===== *)
(** * The wire format of a request ([ll_request.rs], [abi.rs])

    A request buffer starts with the fixed header of 40 bytes, its integers
    in the byte order of the machine (little-endian on the supported
    targets), followed by the arguments of the opcode.  This file holds the
    integers and the null-terminated names on the wire, the header's
    encoder and decoder, [ll_request::Request::try_from], which
    [Request::new] runs on every buffer, and codecs: decoders with their
    encoders and round-trip laws, composed in sequence.  The layout of the arguments of each opcode is not part of the
    sources or of the specification: the parser of the operation is the
    interface [OperationParser].  [ll_request.rs] is not among the sources;
    the header's layout and the checks are those of the specification. *)

From Stdlib Require Import ZArith Lia.
From stdpp Require Import base tactics numbers list option.
From S2P Require Import Prelude Abi LlRequest Reply Request.

#[local] Open Scope Z_scope.

(** ** Integers on the wire *)

(** The [n] bytes of an integer, least significant first. *)
Fixpoint le_bytes (n : nat) (z : Z) : bytes :=
  match n with
  | O => []
  | S n => z mod 256 :: le_bytes n (z / 256)
  end.

(** The integer a sequence of bytes stands for. *)
Fixpoint le_value (bs : bytes) : Z :=
  match bs with
  | [] => 0
  | b :: bs => b + 256 * le_value bs
  end.

(** [ArgumentIterator::fetch] at an integer of [n] bytes: its value and the
    rest of the buffer, or nothing when fewer than [n] bytes are left. *)
Definition fetch_int (n : nat) (data : bytes) : option (Z * bytes) :=
  if decide (n <= length data)%nat
  then Some (le_value (take n data), drop n data)
  else None.

(** [ArgumentIterator::fetch_str]: the bytes up to the first zero byte and
    the bytes after it, or nothing when no zero byte is left. *)
Fixpoint fetch_str (data : bytes) : option (bytes * bytes) :=
  match data with
  | [] => None
  | b :: data =>
      if decide (b = 0) then Some ([], data)
      else '(name, rest) ← fetch_str data; Some (b :: name, rest)
  end.

(** ** The request header *)

Definition encode_header (h : fuse_in_header.t) : bytes :=
  le_bytes 4 (fuse_in_header.len h) ++ le_bytes 4 (fuse_in_header.opcode h) ++
  le_bytes 8 (fuse_in_header.unique h) ++ le_bytes 8 (fuse_in_header.nodeid h) ++
  le_bytes 4 (fuse_in_header.uid h) ++ le_bytes 4 (fuse_in_header.gid h) ++
  le_bytes 4 (fuse_in_header.pid h) ++ le_bytes 4 (fuse_in_header.padding h).

(** The header at the start of a buffer, and the bytes after it. *)
Definition decode_header (data : bytes) : option (fuse_in_header.t * bytes) :=
  '(total, data) ← fetch_int 4 data;
  '(opcode, data) ← fetch_int 4 data;
  '(unique, data) ← fetch_int 8 data;
  '(nodeid, data) ← fetch_int 8 data;
  '(uid, data) ← fetch_int 4 data;
  '(gid, data) ← fetch_int 4 data;
  '(pid, data) ← fetch_int 4 data;
  '(padding, data) ← fetch_int 4 data;
  Some (fuse_in_header.mk total opcode unique nodeid uid gid pid padding, data).

(** ** The parsed request *)

(** [fuse_opcode::try_from] and [Operation::parse]: which opcodes exist,
    and the operation the bytes after the header stand for. *)
Class OperationParser : Type := {
  known_opcode : Z -> bool;
  parse_operation : Z -> bytes -> option ll_request.Operation;
}.

(** [impl TryFrom<&[u8]> for ll_request::Request]: the header, the opcode,
    the declared length against the buffer's, the operation. *)
Definition try_from_bytes `{OperationParser} (data : bytes)
  : Result ll_request.Request RequestError :=
  match decode_header data with
  | None => Err (ShortReadHeader (len data))
  | Some (header, body) =>
      if negb (known_opcode (fuse_in_header.opcode header)) then
        Err (UnknownOperation (fuse_in_header.opcode header))
      else if negb (len data =? fuse_in_header.len header) then
        Err (ShortRead (len data) (fuse_in_header.len header))
      else
        match parse_operation (fuse_in_header.opcode header) body with
        | Some operation => Ok (ll_request.mk header operation)
        | None => Err InsufficientData
        end
  end.

#[export] Instance wire_parser `{OperationParser} : Parser := try_from_bytes.

(** ** Codecs

    An encoder and a decoder of one type, with the values the encoder is
    defined on and the two laws that make them inverse to each other. *)
Record codec (A : Type) : Type := {
  wf : A -> Prop;
  encode : A -> bytes;
  decode : bytes -> option (A * bytes);
  decode_encode a rest : wf a -> decode (encode a ++ rest) = Some (a, rest);
  encode_decode data a rest :
    is_bytes data -> decode data = Some (a, rest) ->
    data = encode a ++ rest /\ wf a /\ is_bytes rest;
  encode_is_bytes a : wf a -> is_bytes (encode a);
}.
Arguments wf {A} _ _.
Arguments encode {A} _ _.
Arguments decode {A} _ _.
Arguments decode_encode {A} _ _ _ _.
Arguments encode_decode {A} _ _ _ _ _ _.
Arguments encode_is_bytes {A} _ _ _.

(** ** Properties of the integers *)

Section Integers.
Implicit Types (n : nat) (z : Z) (bs data rest : bytes).

Lemma pow_bytes_succ n : 2 ^ (8 * Z.of_nat (S n)) = 256 * 2 ^ (8 * Z.of_nat n).
Proof.
  replace (8 * Z.of_nat (S n)) with (8 + 8 * Z.of_nat n) by lia.
  by rewrite Z.pow_add_r by lia.
Qed.

Lemma le_bytes_length n z : length (le_bytes n z) = n.
Proof. revert z. induction n as [|n IH]; intros z; simpl; [done|by rewrite IH]. Qed.

Lemma le_bytes_is_bytes n z : is_bytes (le_bytes n z).
Proof.
  revert z. induction n as [|n IH]; intros z; simpl; [by constructor|].
  constructor; [|apply IH]. apply (Z.mod_pos_bound z 256). lia.
Qed.

Lemma le_value_range bs : is_bytes bs -> in_bits (8 * len bs) (le_value bs).
Proof.
  unfold is_bytes, len, in_bits. induction 1 as [|b bs Hb _ IH]; [simpl; lia|].
  cbn [le_value length]. rewrite pow_bytes_succ. unfold in_bits in Hb. lia.
Qed.

(** An integer that fits [n] bytes is the value of its bytes. *)
Lemma le_value_le_bytes n z : in_bits (8 * Z.of_nat n) z -> le_value (le_bytes n z) = z.
Proof.
  unfold in_bits. revert z. induction n as [|n IH]; intros z Hz; cbn [le_bytes le_value].
  - simpl in Hz. lia.
  - rewrite pow_bytes_succ in Hz. rewrite IH.
    + pose proof (Z.div_mod z 256). lia.
    + split; [apply Z.div_pos; lia|apply Z.div_lt_upper_bound; lia].
Qed.

(** Bytes are the bytes of their value. *)
(** The bytes of an integer stand for the integer modulo their width. *)
Lemma le_value_le_bytes_mod n z : le_value (le_bytes n z) = z mod 2 ^ (8 * Z.of_nat n).
Proof.
  revert z. induction n as [|n IH]; intros z; [by rewrite Z.mod_1_r|].
  cbn [le_bytes le_value]. rewrite IH, pow_bytes_succ.
  by rewrite Z.rem_mul_r by lia.
Qed.

Lemma le_bytes_le_value bs : is_bytes bs -> le_bytes (length bs) (le_value bs) = bs.
Proof.
  unfold is_bytes. induction 1 as [|b bs Hb _ IH]; [done|].
  unfold in_bits in Hb. cbn [le_value length le_bytes].
  rewrite (Z.mul_comm 256), Z_mod_plus_full, Z_div_plus_full by lia.
  rewrite (Z.mod_small b 256), (Z.div_small b 256), Z.add_0_l, IH by lia. done.
Qed.

Lemma fetch_int_app n z rest :
  in_bits (8 * Z.of_nat n) z -> fetch_int n (le_bytes n z ++ rest) = Some (z, rest).
Proof.
  intros Hz. unfold fetch_int. pose proof (le_bytes_length n z) as Hn.
  rewrite decide_True by (rewrite length_app; lia).
  by rewrite take_app_length', drop_app_length', le_value_le_bytes.
Qed.

(** Fetching reads the bytes whatever their value is. *)
Lemma fetch_int_length_app n z rest :
  fetch_int n (le_bytes n z ++ rest) = Some (z mod 2 ^ (8 * Z.of_nat n), rest).
Proof.
  unfold fetch_int. pose proof (le_bytes_length n z) as Hn.
  rewrite decide_True by (rewrite length_app; lia).
  by rewrite take_app_length', drop_app_length', le_value_le_bytes_mod.
Qed.

Lemma fetch_int_inv n data z rest :
  is_bytes data -> fetch_int n data = Some (z, rest) ->
  data = le_bytes n z ++ rest /\ in_bits (8 * Z.of_nat n) z /\ is_bytes rest.
Proof.
  unfold fetch_int. intros Hd. case_decide as Hn; [|done]. intros [= <- <-].
  assert (is_bytes (take n data)) as Ht by by apply Forall_take.
  assert (length (take n data) = n) as Hl by (rewrite length_take; lia).
  split; [|split].
  - rewrite <- Hl at 1. by rewrite le_bytes_le_value, take_drop.
  - pose proof (le_value_range _ Ht) as Hr. unfold len in Hr. by rewrite Hl in Hr.
  - by apply Forall_drop.
Qed.

(** Fetching makes progress: what is left is shorter by [n] bytes. *)
Lemma fetch_int_length n data z rest :
  fetch_int n data = Some (z, rest) -> length data = (n + length rest)%nat.
Proof.
  unfold fetch_int. case_decide; [|done]. intros [= _ <-]. rewrite length_drop. lia.
Qed.
End Integers.

#[global] Arguments le_bytes : simpl never.
#[global] Arguments le_value : simpl never.
#[global] Arguments fetch_int : simpl never.

(** The integers of [n] bytes as a codec. *)
Definition int_codec (n : nat) : codec Z := {|
  wf := in_bits (8 * Z.of_nat n);
  encode := le_bytes n;
  decode := fetch_int n;
  decode_encode := fetch_int_app n;
  encode_decode data := fetch_int_inv n data;
  encode_is_bytes a _ := le_bytes_is_bytes n a;
|}.

(** An encoder with a decoder is injective on the values it is defined
    on. *)
Lemma encode_inj {A} (c : codec A) (a b : A) :
  wf c a -> wf c b -> encode c a = encode c b -> a = b.
Proof.
  intros Ha Hb Heq.
  pose proof (decode_encode c a [] Ha) as Hda. pose proof (decode_encode c b [] Hb) as Hdb.
  rewrite Heq in Hda. congruence.
Qed.

(** ** Names

    A name on the wire is its bytes followed by a zero byte; a buffer
    without the terminator holds no name. *)

Section Names.
Implicit Types (name data rest : bytes).

Lemma fetch_str_app name rest :
  0 ∉ name -> fetch_str (name ++ 0 :: rest) = Some (name, rest).
Proof.
  induction name as [|b name IH]; intros Hn; simpl; [done|].
  apply not_elem_of_cons in Hn as [Hb Hn]. rewrite decide_False by done.
  by rewrite IH.
Qed.

Lemma fetch_str_inv name data rest :
  fetch_str data = Some (name, rest) -> data = name ++ 0 :: rest /\ 0 ∉ name.
Proof.
  revert name. induction data as [|b data IH]; intros name; simpl; [done|].
  case_decide as Hb; [intros [= <- <-]; subst; split; [done|apply not_elem_of_nil]|].
  destruct (fetch_str data) as [[name' rest']|]; [|done]. intros [= <- <-].
  destruct (IH name' eq_refl) as [-> Hn]. split; [done|].
  apply not_elem_of_cons. split; [congruence|done].
Qed.

(** Decoding fails exactly on the buffers without a terminator. *)
Lemma fetch_str_None data : fetch_str data = None <-> 0 ∉ data.
Proof.
  induction data as [|b data IH]; simpl; [split; [intros _; apply not_elem_of_nil|done]|].
  rewrite not_elem_of_cons. case_decide as Hb; [split; [done|intros [? _]; congruence]|].
  destruct (fetch_str data) as [[name rest]|].
  - split; [done|]. intros [_ Hn]. by apply IH in Hn.
  - split; [|done]. intros _. split; [congruence|by apply IH].
Qed.

Lemma fetch_str_is_bytes name data rest :
  is_bytes data -> fetch_str data = Some (name, rest) -> is_bytes name /\ is_bytes rest.
Proof.
  intros Hd [-> _]%fetch_str_inv. apply Forall_app in Hd as [Hn Hr].
  split; [done|]. by inversion Hr.
Qed.

Lemma name_decoded data name rest :
  is_bytes data -> fetch_str data = Some (name, rest) ->
  data = (name ++ [0]) ++ rest /\ (is_bytes name /\ 0 ∉ name) /\ is_bytes rest.
Proof.
  intros Hd Hf. destruct (fetch_str_is_bytes _ _ _ Hd Hf) as [Hn Hr].
  apply fetch_str_inv in Hf as [-> H0]. by rewrite <- app_assoc.
Qed.
End Names.

Lemma name_is_bytes name : is_bytes name -> is_bytes (name ++ [0]).
Proof. intros Hn. apply Forall_app_2; [done|]. by apply Forall_singleton. Qed.

(** Names as a codec. *)
Definition name_codec : codec bytes := {|
  wf name := is_bytes name /\ 0 ∉ name;
  encode name := name ++ [0];
  decode := fetch_str;
  decode_encode name rest Hn :=
    eq_trans (f_equal fetch_str (eq_sym (app_assoc name [0] rest)))
      (fetch_str_app name rest (proj2 Hn));
  encode_decode := name_decoded;
  encode_is_bytes name Hn := name_is_bytes name (proj1 Hn);
|}.

(** ** Codecs in sequence

    The codec of a pair writes the first component and then the second. *)

Section Sequence.
Context {A B : Type} (ca : codec A) (cb : codec B).

Definition pair_encode (x : A * B) : bytes := encode ca x.1 ++ encode cb x.2.

Definition pair_decode (data : bytes) : option ((A * B) * bytes) :=
  '(a, data) ← decode ca data;
  '(b, data) ← decode cb data;
  Some ((a, b), data).

Lemma pair_decode_encode x rest :
  wf ca x.1 /\ wf cb x.2 -> pair_decode (pair_encode x ++ rest) = Some (x, rest).
Proof.
  intros [Ha Hb]. unfold pair_decode, pair_encode. rewrite <- app_assoc.
  rewrite decode_encode by done. cbn [mbind option_bind].
  rewrite decode_encode by done. by destruct x.
Qed.

Lemma pair_encode_decode data x rest :
  is_bytes data -> pair_decode data = Some (x, rest) ->
  data = pair_encode x ++ rest /\ (wf ca x.1 /\ wf cb x.2) /\ is_bytes rest.
Proof.
  intros Hd. unfold pair_decode, pair_encode.
  destruct (decode ca data) as [[a r1]|] eqn:Ea; [cbn [mbind option_bind]|done].
  destruct (decode cb r1) as [[b r2]|] eqn:Eb; [cbn [mbind option_bind]|done].
  intros [= <- <-].
  destruct (encode_decode ca _ _ _ Hd Ea) as (-> & Ha & Hr1).
  destruct (encode_decode cb _ _ _ Hr1 Eb) as (-> & Hb & Hr2).
  by rewrite <- app_assoc.
Qed.

Definition pair_codec : codec (A * B) := {|
  wf x := wf ca x.1 /\ wf cb x.2;
  encode := pair_encode;
  decode := pair_decode;
  decode_encode := pair_decode_encode;
  encode_decode := pair_encode_decode;
  encode_is_bytes x Hx :=
    Forall_app_2 _ _ _ (encode_is_bytes ca x.1 (proj1 Hx)) (encode_is_bytes cb x.2 (proj2 Hx));
|}.
End Sequence.
