(* ===== verification/ReplyWire.v ===== *)
(** * The bytes of a reply ([reply.rs], [abi.rs])

    [ReplyRaw::send] writes the reply header ([fuse_out_header]: the total
    length as [u32], the negated error code as [i32], the correlation id as
    [u64]) followed by the payload.  This file holds the encoder of a
    [Message], the payload of the handshake reply ([fuse_init_out], 24
    bytes), the header as the kernel reads it back, and their round trips.
    [reply.rs] and [abi.rs] are not among the sources; the layouts are those
    of the specification and of the FUSE kernel ABI 7.8. *)

From Stdlib Require Import ZArith Lia.
From stdpp Require Import base tactics numbers list option.
From S2P Require Import Prelude Abi LlRequest Reply Request Wire.

#[local] Open Scope Z_scope.

(** ** Encoding *)

(** [fuse_init_out] as bytes. *)
Definition init_out_bytes (out : fuse_init_out.t) : bytes :=
  le_bytes 4 (fuse_init_out.major out) ++ le_bytes 4 (fuse_init_out.minor out) ++
  le_bytes 4 (fuse_init_out.max_readahead out) ++ le_bytes 4 (fuse_init_out.flags out) ++
  le_bytes 4 (fuse_init_out.unused out) ++ le_bytes 4 (fuse_init_out.max_write out).

(** The bytes after the reply header. *)
Definition payload_bytes (p : Payload) : bytes :=
  match p with
  | NoPayload => []
  | InitOut out => init_out_bytes out
  | Raw data => data
  end.

(** [ReplyRaw::send]: the header, with the error code negated as the
    kernel expects it, and the payload. *)
Definition encode_message (m : Message) : bytes :=
  let payload := payload_bytes (msg_payload m) in
  le_bytes 4 (16 + len payload) ++ le_bytes 4 (as_u32 (- msg_error m)) ++
  le_bytes 8 (msg_unique m) ++ payload.

(** ** The kernel's reading *)

Module fuse_out_header.
Record t : Type := mk { len : Z; error : Z; unique : Z }.
End fuse_out_header.

Definition decode_out_header (data : bytes) : option (fuse_out_header.t * bytes) :=
  '(total, data) ← fetch_int 4 data;
  '(error, data) ← fetch_int 4 data;
  '(unique, data) ← fetch_int 8 data;
  Some (fuse_out_header.mk total (as_signed 32 error) unique, data).

Definition decode_init_out (data : bytes) : option (fuse_init_out.t * bytes) :=
  '(major, data) ← fetch_int 4 data;
  '(minor, data) ← fetch_int 4 data;
  '(max_readahead, data) ← fetch_int 4 data;
  '(flags, data) ← fetch_int 4 data;
  '(unused, data) ← fetch_int 4 data;
  '(max_write, data) ← fetch_int 4 data;
  Some (fuse_init_out.mk major minor max_readahead flags unused max_write, data).

(** A message the header can carry: a [u64] correlation id, an error code
    whose negation is an [i32], a payload whose length leaves the total a
    [u32], made of bytes. *)
Definition sendable (m : Message) : Prop :=
  is_u64 (msg_unique m) /\ is_i32 (- msg_error m) /\
  is_u32 (16 + len (payload_bytes (msg_payload m))) /\
  is_bytes (payload_bytes (msg_payload m)).

#[export] Instance sendable_dec m : Decision (sendable m).
Proof. unfold sendable. apply _. Defined.

(** ** Round trips *)

Section ReplyWire.
Implicit Types (m : Message) (out : fuse_init_out.t) (p : Payload) (rest : bytes).

(** A signed integer survives the cast to unsigned and back. *)
Lemma as_signed_as_unsigned (w z : Z) :
  0 < w -> in_signed w z -> as_signed w (as_unsigned w z) = z.
Proof.
  intros Hw [Hlo Hhi]. unfold as_signed, as_unsigned.
  assert (2 ^ w = 2 * 2 ^ (w - 1)) as Hp
    by (rewrite <- Z.pow_succ_r by lia; f_equal; lia).
  rewrite Zplus_mod_idemp_l, Z.mod_small; lia.
Qed.

Lemma init_out_bytes_length out : length (init_out_bytes out) = 24%nat.
Proof. unfold init_out_bytes. by rewrite !length_app, !le_bytes_length. Qed.

Lemma init_out_bytes_is_bytes out : is_bytes (init_out_bytes out).
Proof.
  unfold init_out_bytes.
  repeat (apply Forall_app_2; [apply le_bytes_is_bytes|]). apply le_bytes_is_bytes.
Qed.

Lemma decode_init_out_bytes out rest :
  fuse_init_out.ok out -> decode_init_out (init_out_bytes out ++ rest) = Some (out, rest).
Proof.
  intros (? & ? & ? & ? & ? & ?). unfold decode_init_out, init_out_bytes.
  rewrite <- !app_assoc.
  repeat (rewrite fetch_int_app by done; cbn [mbind option_bind]).
  by destruct out.
Qed.

Lemma encode_message_length m :
  length (encode_message m) = (16 + length (payload_bytes (msg_payload m)))%nat.
Proof. unfold encode_message. by rewrite !length_app, !le_bytes_length. Qed.

Lemma encode_message_is_bytes m :
  is_bytes (payload_bytes (msg_payload m)) -> is_bytes (encode_message m).
Proof.
  intros Hp. unfold encode_message.
  by repeat (apply Forall_app_2; [apply le_bytes_is_bytes|]).
Qed.

(** The kernel's reading of a reply whose length fits the header: the
    length is the length of the reply, the correlation id is the
    message's, the payload follows, and the error is what the negated code
    is as an [i32]. *)
Lemma decode_out_header_encode m :
  is_u64 (msg_unique m) -> is_u32 (16 + len (payload_bytes (msg_payload m))) ->
  decode_out_header (encode_message m) =
  Some (fuse_out_header.mk (len (encode_message m))
          (as_signed 32 (as_u32 (- msg_error m))) (msg_unique m),
        payload_bytes (msg_payload m)).
Proof.
  intros Hu Hl. unfold decode_out_header.
  unfold len at 1. rewrite encode_message_length. unfold encode_message.
  rewrite fetch_int_app by done. cbn [mbind option_bind].
  rewrite fetch_int_app by by apply as_unsigned_range. cbn [mbind option_bind].
  rewrite fetch_int_app by done. cbn [mbind option_bind].
  do 3 f_equal. unfold len. lia.
Qed.

(** The kernel reads back what was sent: with an error code whose negation
    is an [i32], the error is the negated code. *)
Lemma decode_encode_message m :
  sendable m ->
  decode_out_header (encode_message m) =
  Some (fuse_out_header.mk (len (encode_message m)) (- msg_error m) (msg_unique m),
        payload_bytes (msg_payload m)).
Proof.
  intros (Hu & He & Hl & _). rewrite decode_out_header_encode by done.
  by rewrite as_signed_as_unsigned.
Qed.

(** The correlation id is bytes 8 to 15 of a reply. *)
Lemma encode_message_unique m :
  take 8 (drop 8 (encode_message m)) = le_bytes 8 (msg_unique m).
Proof.
  unfold encode_message. rewrite !app_assoc, <- (app_assoc _ (le_bytes 8 _)).
  rewrite drop_app_length' by by rewrite length_app, !le_bytes_length.
  by rewrite take_app_length' by by rewrite le_bytes_length.
Qed.
End ReplyWire.
