(* ===== verification/Filesystem.v ===== *)
(** * The filesystem capability ([Filesystem] trait)

    The dispatcher is generic in the filesystem: [fs.Filesystem FS] has one
    method per trait method, each taking the filesystem state, the request,
    the derived arguments and the reply object, and returning the new state
    and the messages written to the channel during the call.  [init]
    returns a [Result]; [destroy] and [forget] write nothing.

    [FsCall] is the same method set as data, one constructor per method with
    its arguments; [invoke] runs a call.  It lets a theorem say which method
    the dispatcher calls and with which arguments, for every filesystem at
    once.  [FilesystemLaws] is the contract of the reply object: a method
    writes at most one message, through the reply object it was given.
    The trait is not among the sources; the signatures are those of the
    calls in [request.rs]. *)

From Stdlib Require Import ZArith Lia.
From stdpp Require Import base tactics numbers list option.
From S2P Require Import Prelude Abi Time LlRequest Reply Request.

#[local] Open Scope Z_scope.

(** What a method does: the new filesystem state, and the channel writes. *)
Abbreviation Effect FS := (FS * list Message)%type.

Module fs.
Class Filesystem (FS : Type) : Type := {
  init : FS -> Request -> FS * Result unit Z;
  destroy : FS -> Request -> FS;
  lookup : FS -> Request -> Z -> bytes -> ReplyEntry -> Effect FS;
  forget : FS -> Request -> Z -> Z -> FS;
  getattr : FS -> Request -> Z -> ReplyAttr -> Effect FS;
  setattr : FS -> Request -> Z ->
    option Z -> option Z -> option Z -> option Z ->
    option SystemTime.t -> option SystemTime.t -> option Z ->
    option SystemTime.t -> option SystemTime.t -> option SystemTime.t ->
    option Z -> ReplyAttr -> Effect FS;
  readlink : FS -> Request -> Z -> ReplyData -> Effect FS;
  mknod : FS -> Request -> Z -> bytes -> Z -> Z -> ReplyEntry -> Effect FS;
  mkdir : FS -> Request -> Z -> bytes -> Z -> ReplyEntry -> Effect FS;
  unlink : FS -> Request -> Z -> bytes -> ReplyEmpty -> Effect FS;
  rmdir : FS -> Request -> Z -> bytes -> ReplyEmpty -> Effect FS;
  symlink : FS -> Request -> Z -> bytes -> bytes -> ReplyEntry -> Effect FS;
  rename : FS -> Request -> Z -> bytes -> Z -> bytes -> ReplyEmpty -> Effect FS;
  link : FS -> Request -> Z -> Z -> bytes -> ReplyEntry -> Effect FS;
  open : FS -> Request -> Z -> Z -> ReplyOpen -> Effect FS;
  read : FS -> Request -> Z -> Z -> Z -> Z -> ReplyData -> Effect FS;
  write : FS -> Request -> Z -> Z -> Z -> bytes -> Z -> ReplyWrite -> Effect FS;
  flush : FS -> Request -> Z -> Z -> Z -> ReplyEmpty -> Effect FS;
  release : FS -> Request -> Z -> Z -> Z -> Z -> bool -> ReplyEmpty -> Effect FS;
  fsync : FS -> Request -> Z -> Z -> bool -> ReplyEmpty -> Effect FS;
  opendir : FS -> Request -> Z -> Z -> ReplyOpen -> Effect FS;
  readdir : FS -> Request -> Z -> Z -> Z -> ReplyDirectory.t -> Effect FS;
  releasedir : FS -> Request -> Z -> Z -> Z -> ReplyEmpty -> Effect FS;
  fsyncdir : FS -> Request -> Z -> Z -> bool -> ReplyEmpty -> Effect FS;
  statfs : FS -> Request -> Z -> ReplyStatfs -> Effect FS;
  setxattr : FS -> Request -> Z -> bytes -> bytes -> Z -> Z -> ReplyEmpty -> Effect FS;
  getxattr : FS -> Request -> Z -> bytes -> Z -> ReplyXattr -> Effect FS;
  listxattr : FS -> Request -> Z -> Z -> ReplyXattr -> Effect FS;
  removexattr : FS -> Request -> Z -> bytes -> ReplyEmpty -> Effect FS;
  access : FS -> Request -> Z -> Z -> ReplyEmpty -> Effect FS;
  create : FS -> Request -> Z -> bytes -> Z -> Z -> ReplyCreate -> Effect FS;
  getlk : FS -> Request -> Z -> Z -> Z -> Z -> Z -> Z -> Z -> ReplyLock -> Effect FS;
  setlk : FS -> Request -> Z -> Z -> Z -> Z -> Z -> Z -> Z -> bool -> ReplyEmpty -> Effect FS;
  bmap : FS -> Request -> Z -> Z -> Z -> ReplyBmap -> Effect FS;
  setvolname : FS -> Request -> bytes -> ReplyEmpty -> Effect FS;
  exchange : FS -> Request -> Z -> bytes -> Z -> bytes -> Z -> ReplyEmpty -> Effect FS;
  getxtimes : FS -> Request -> Z -> ReplyXTimes -> Effect FS;
}.
End fs.

(** ** Calls as data *)

Inductive FsCall : Type :=
  | CLookup (parent : Z) (name : bytes) (reply : ReplyEntry)
  | CForget (ino nlookup : Z)
  | CGetattr (ino : Z) (reply : ReplyAttr)
  | CSetattr (ino : Z) (mode uid gid size : option Z)
      (atime mtime : option SystemTime.t) (fh : option Z)
      (crtime chgtime bkuptime : option SystemTime.t) (flags : option Z)
      (reply : ReplyAttr)
  | CReadlink (ino : Z) (reply : ReplyData)
  | CMknod (parent : Z) (name : bytes) (mode rdev : Z) (reply : ReplyEntry)
  | CMkdir (parent : Z) (name : bytes) (mode : Z) (reply : ReplyEntry)
  | CUnlink (parent : Z) (name : bytes) (reply : ReplyEmpty)
  | CRmdir (parent : Z) (name : bytes) (reply : ReplyEmpty)
  | CSymlink (parent : Z) (name link : bytes) (reply : ReplyEntry)
  | CRename (parent : Z) (name : bytes) (newparent : Z) (newname : bytes)
      (reply : ReplyEmpty)
  | CLink (ino newparent : Z) (newname : bytes) (reply : ReplyEntry)
  | COpen (ino flags : Z) (reply : ReplyOpen)
  | CRead (ino fh offset size : Z) (reply : ReplyData)
  | CWrite (ino fh offset : Z) (data : bytes) (flags : Z) (reply : ReplyWrite)
  | CFlush (ino fh lock_owner : Z) (reply : ReplyEmpty)
  | CRelease (ino fh flags lock_owner : Z) (flush : bool) (reply : ReplyEmpty)
  | CFsync (ino fh : Z) (datasync : bool) (reply : ReplyEmpty)
  | COpendir (ino flags : Z) (reply : ReplyOpen)
  | CReaddir (ino fh offset : Z) (reply : ReplyDirectory.t)
  | CReleasedir (ino fh flags : Z) (reply : ReplyEmpty)
  | CFsyncdir (ino fh : Z) (datasync : bool) (reply : ReplyEmpty)
  | CStatfs (ino : Z) (reply : ReplyStatfs)
  | CSetxattr (ino : Z) (name value : bytes) (flags position : Z) (reply : ReplyEmpty)
  | CGetxattr (ino : Z) (name : bytes) (size : Z) (reply : ReplyXattr)
  | CListxattr (ino size : Z) (reply : ReplyXattr)
  | CRemovexattr (ino : Z) (name : bytes) (reply : ReplyEmpty)
  | CAccess (ino mask : Z) (reply : ReplyEmpty)
  | CCreate (parent : Z) (name : bytes) (mode flags : Z) (reply : ReplyCreate)
  | CGetlk (ino fh lock_owner start end_ typ pid : Z) (reply : ReplyLock)
  | CSetlk (ino fh lock_owner start end_ typ pid : Z) (sleep : bool)
      (reply : ReplyEmpty)
  | CBmap (ino blocksize idx : Z) (reply : ReplyBmap)
  | CSetvolname (name : bytes) (reply : ReplyEmpty)
  | CExchange (parent : Z) (name : bytes) (newparent : Z) (newname : bytes)
      (options : Z) (reply : ReplyEmpty)
  | CGetxtimes (ino : Z) (reply : ReplyXTimes).

(** Run a call against a filesystem. *)
Definition invoke `{fs.Filesystem FS} (f : FS) (req : Request) (c : FsCall) : Effect FS :=
  match c with
  | CLookup parent name r => fs.lookup f req parent name r
  | CForget ino nlookup => (fs.forget f req ino nlookup, [])
  | CGetattr ino r => fs.getattr f req ino r
  | CSetattr ino mode uid gid size atime mtime fh crtime chgtime bkuptime flags r =>
      fs.setattr f req ino mode uid gid size atime mtime fh crtime chgtime bkuptime flags r
  | CReadlink ino r => fs.readlink f req ino r
  | CMknod parent name mode rdev r => fs.mknod f req parent name mode rdev r
  | CMkdir parent name mode r => fs.mkdir f req parent name mode r
  | CUnlink parent name r => fs.unlink f req parent name r
  | CRmdir parent name r => fs.rmdir f req parent name r
  | CSymlink parent name link r => fs.symlink f req parent name link r
  | CRename parent name newparent newname r => fs.rename f req parent name newparent newname r
  | CLink ino newparent newname r => fs.link f req ino newparent newname r
  | COpen ino flags r => fs.open f req ino flags r
  | CRead ino fh offset size r => fs.read f req ino fh offset size r
  | CWrite ino fh offset data flags r => fs.write f req ino fh offset data flags r
  | CFlush ino fh lock_owner r => fs.flush f req ino fh lock_owner r
  | CRelease ino fh flags lock_owner flush r => fs.release f req ino fh flags lock_owner flush r
  | CFsync ino fh datasync r => fs.fsync f req ino fh datasync r
  | COpendir ino flags r => fs.opendir f req ino flags r
  | CReaddir ino fh offset r => fs.readdir f req ino fh offset r
  | CReleasedir ino fh flags r => fs.releasedir f req ino fh flags r
  | CFsyncdir ino fh datasync r => fs.fsyncdir f req ino fh datasync r
  | CStatfs ino r => fs.statfs f req ino r
  | CSetxattr ino name value flags position r => fs.setxattr f req ino name value flags position r
  | CGetxattr ino name size r => fs.getxattr f req ino name size r
  | CListxattr ino size r => fs.listxattr f req ino size r
  | CRemovexattr ino name r => fs.removexattr f req ino name r
  | CAccess ino mask r => fs.access f req ino mask r
  | CCreate parent name mode flags r => fs.create f req parent name mode flags r
  | CGetlk ino fh owner start end_ typ pid r => fs.getlk f req ino fh owner start end_ typ pid r
  | CSetlk ino fh owner start end_ typ pid sleep r =>
      fs.setlk f req ino fh owner start end_ typ pid sleep r
  | CBmap ino blocksize idx r => fs.bmap f req ino blocksize idx r
  | CSetvolname name r => fs.setvolname f req name r
  | CExchange parent name newparent newname options r =>
      fs.exchange f req parent name newparent newname options r
  | CGetxtimes ino r => fs.getxtimes f req ino r
  end.

(** The reply object a call hands over, if any. *)
Definition call_binding (c : FsCall) : option Binding :=
  match c with
  | CForget _ _ => None
  | CReaddir _ _ _ r => Some (dir_binding r)
  | CLookup _ _ r | CMknod _ _ _ _ r | CMkdir _ _ _ r | CSymlink _ _ _ r
  | CLink _ _ _ r => Some (binding r)
  | CGetattr _ r | CSetattr _ _ _ _ _ _ _ _ _ _ _ _ r => Some (binding r)
  | CReadlink _ r | CRead _ _ _ _ r => Some (binding r)
  | CUnlink _ _ r | CRmdir _ _ r | CRename _ _ _ _ r | CFlush _ _ _ r
  | CRelease _ _ _ _ _ r | CFsync _ _ _ r | CReleasedir _ _ _ r
  | CFsyncdir _ _ _ r | CSetxattr _ _ _ _ _ r | CRemovexattr _ _ r
  | CAccess _ _ r | CSetlk _ _ _ _ _ _ _ _ r | CSetvolname _ r
  | CExchange _ _ _ _ _ r => Some (binding r)
  | COpen _ _ r | COpendir _ _ r => Some (binding r)
  | CWrite _ _ _ _ _ r => Some (binding r)
  | CStatfs _ r => Some (binding r)
  | CGetxattr _ _ _ r | CListxattr _ _ r => Some (binding r)
  | CCreate _ _ _ _ r => Some (binding r)
  | CGetlk _ _ _ _ _ _ _ r => Some (binding r)
  | CBmap _ _ _ r => Some (binding r)
  | CGetxtimes _ r => Some (binding r)
  end.

(** The messages a call may write: none for a call without reply object,
    at most one through the reply object otherwise. *)
Definition answers (c : FsCall) (msgs : list Message) : Prop :=
  match call_binding c with
  | Some b => uses b msgs
  | None => msgs = []
  end.

#[export] Instance answers_dec c msgs : Decision (answers c msgs).
Proof. unfold answers. destruct (call_binding c); apply _. Defined.

(** ** The contract of the reply object *)

Class FilesystemLaws (FS : Type) `{fs.Filesystem FS} : Prop := {
  invoke_answers : forall (f : FS) (req : Request) (c : FsCall),
    answers c (invoke f req c).2;
}.

(** ** A recording filesystem

    A filesystem that logs every hook and call it receives and answers each
    call with an empty success through the reply object it was given.  Its
    [init] hook returns a configured result.  It instantiates the interface
    for the concrete runs of the later files, and shows the laws are
    satisfiable. *)

Inductive Event : Type :=
  | EInit (req : Request)
  | EDestroy (req : Request)
  | ECall (req : Request) (c : FsCall).

Module Recorder.
Record t : Type := mk {
  log : list Event;
  init_result : Result unit Z;
}.

Definition empty (r : Result unit Z) : t := mk [] r.

Definition note (e : Event) (f : t) : t := mk (log f ++ [e]) (init_result f).

Definition reply_of (c : FsCall) : list Message :=
  match call_binding c with
  | Some (u, s) => [mkMessage s u 0 NoPayload]
  | None => []
  end.

Definition record (req : Request) (c : FsCall) (f : t) : Effect t :=
  (note (ECall req c) f, reply_of c).
End Recorder.

#[export] Instance Recorder_fs : fs.Filesystem Recorder.t := {|
  fs.init f req := (Recorder.note (EInit req) f, Recorder.init_result f);
  fs.destroy f req := Recorder.note (EDestroy req) f;
  fs.lookup f req parent name r := Recorder.record req (CLookup parent name r) f;
  fs.forget f req ino n := (Recorder.record req (CForget ino n) f).1;
  fs.getattr f req ino r := Recorder.record req (CGetattr ino r) f;
  fs.setattr f req ino mode uid gid size atime mtime fh crtime chgtime bkuptime flags r :=
    Recorder.record req
      (CSetattr ino mode uid gid size atime mtime fh crtime chgtime bkuptime flags r) f;
  fs.readlink f req ino r := Recorder.record req (CReadlink ino r) f;
  fs.mknod f req parent name mode rdev r := Recorder.record req (CMknod parent name mode rdev r) f;
  fs.mkdir f req parent name mode r := Recorder.record req (CMkdir parent name mode r) f;
  fs.unlink f req parent name r := Recorder.record req (CUnlink parent name r) f;
  fs.rmdir f req parent name r := Recorder.record req (CRmdir parent name r) f;
  fs.symlink f req parent name link r := Recorder.record req (CSymlink parent name link r) f;
  fs.rename f req parent name newparent newname r :=
    Recorder.record req (CRename parent name newparent newname r) f;
  fs.link f req ino newparent newname r := Recorder.record req (CLink ino newparent newname r) f;
  fs.open f req ino flags r := Recorder.record req (COpen ino flags r) f;
  fs.read f req ino fh offset size r := Recorder.record req (CRead ino fh offset size r) f;
  fs.write f req ino fh offset data flags r :=
    Recorder.record req (CWrite ino fh offset data flags r) f;
  fs.flush f req ino fh owner r := Recorder.record req (CFlush ino fh owner r) f;
  fs.release f req ino fh flags owner flush r :=
    Recorder.record req (CRelease ino fh flags owner flush r) f;
  fs.fsync f req ino fh datasync r := Recorder.record req (CFsync ino fh datasync r) f;
  fs.opendir f req ino flags r := Recorder.record req (COpendir ino flags r) f;
  fs.readdir f req ino fh offset r := Recorder.record req (CReaddir ino fh offset r) f;
  fs.releasedir f req ino fh flags r := Recorder.record req (CReleasedir ino fh flags r) f;
  fs.fsyncdir f req ino fh datasync r := Recorder.record req (CFsyncdir ino fh datasync r) f;
  fs.statfs f req ino r := Recorder.record req (CStatfs ino r) f;
  fs.setxattr f req ino name value flags position r :=
    Recorder.record req (CSetxattr ino name value flags position r) f;
  fs.getxattr f req ino name size r := Recorder.record req (CGetxattr ino name size r) f;
  fs.listxattr f req ino size r := Recorder.record req (CListxattr ino size r) f;
  fs.removexattr f req ino name r := Recorder.record req (CRemovexattr ino name r) f;
  fs.access f req ino mask r := Recorder.record req (CAccess ino mask r) f;
  fs.create f req parent name mode flags r :=
    Recorder.record req (CCreate parent name mode flags r) f;
  fs.getlk f req ino fh owner start end_ typ pid r :=
    Recorder.record req (CGetlk ino fh owner start end_ typ pid r) f;
  fs.setlk f req ino fh owner start end_ typ pid sleep r :=
    Recorder.record req (CSetlk ino fh owner start end_ typ pid sleep r) f;
  fs.bmap f req ino blocksize idx r := Recorder.record req (CBmap ino blocksize idx r) f;
  fs.setvolname f req name r := Recorder.record req (CSetvolname name r) f;
  fs.exchange f req parent name newparent newname options r :=
    Recorder.record req (CExchange parent name newparent newname options r) f;
  fs.getxtimes f req ino r := Recorder.record req (CGetxtimes ino r) f;
|}.

(** ** Lemmas *)

Lemma answers_nil (c : FsCall) : answers c [].
Proof. unfold answers. destruct (call_binding c); auto with fuse. Qed.

Lemma answers_length (c : FsCall) (msgs : list Message) :
  answers c msgs -> (length msgs <= 1)%nat.
Proof.
  unfold answers. destruct (call_binding c); [by intros [? _]|intros ->; simpl; lia].
Qed.

Lemma answers_binding (c : FsCall) (msgs : list Message) (m : Message) :
  answers c msgs -> m ∈ msgs -> call_binding c = Some (msg_binding m).
Proof.
  unfold answers. destruct (call_binding c) as [b|].
  - intros [_ HF] Hm. f_equal. symmetry. exact (proj1 (list.Forall_forall _ _) HF m Hm).
  - intros -> Hm. by apply elem_of_nil in Hm.
Qed.

Lemma Recorder_invoke (f : Recorder.t) (req : Request) (c : FsCall) :
  invoke f req c = Recorder.record req c f.
Proof. by destruct c. Qed.

Lemma Recorder_reply_answers (c : FsCall) : answers c (Recorder.reply_of c).
Proof.
  unfold answers, Recorder.reply_of.
  destruct (call_binding c) as [[u s]|]; [by apply uses_one|done].
Qed.

#[export] Instance Recorder_laws : FilesystemLaws Recorder.t.
Proof. split. intros f req c. rewrite Recorder_invoke. apply Recorder_reply_answers. Qed.

#[export] Hint Resolve answers_nil invoke_answers : fuse.
