(* ===== verification/Session.v ===== *)
(** * The session ([session.rs])

    The per-mount state the dispatcher reads and writes: the filesystem, the
    protocol version the kernel announced, and the two flags of the
    handshake state machine.  [Phase] is the abstract state of the
    specification.  [session.rs] is not among the sources; the fields are
    those [Request::dispatch] assigns, and each setter stands for one
    assignment of [request.rs]. *)

From Stdlib Require Import ZArith Lia.
From stdpp Require Import base tactics numbers list option.
From S2P Require Import Prelude Abi.

#[local] Open Scope Z_scope.

Record Session (FS : Type) : Type := mk {
  filesystem : FS;
  proto_major : Z;
  proto_minor : Z;
  initialized : bool;
  destroyed : bool;
}.
Arguments mk {FS} filesystem proto_major proto_minor initialized destroyed.
Arguments filesystem {FS} _.
Arguments proto_major {FS} _.
Arguments proto_minor {FS} _.
Arguments initialized {FS} _.
Arguments destroyed {FS} _.

(** The session as [session::Session::new] leaves it: nothing negotiated
    yet. *)
Module session.
Definition new {FS} (f : FS) : Session FS := mk f 0 0 false false.
End session.

(** [se.filesystem.m(..)] with [&mut self]: the filesystem after the call. *)
Definition set_filesystem {FS} (se : Session FS) (f : FS) : Session FS :=
  mk f (proto_major se) (proto_minor se) (initialized se) (destroyed se).

(** [se.proto_major = v] *)
Definition set_proto_major {FS} (se : Session FS) (v : Z) : Session FS :=
  mk (filesystem se) v (proto_minor se) (initialized se) (destroyed se).

(** [se.proto_minor = v] *)
Definition set_proto_minor {FS} (se : Session FS) (v : Z) : Session FS :=
  mk (filesystem se) (proto_major se) v (initialized se) (destroyed se).

(** [se.initialized = b] *)
Definition set_initialized {FS} (se : Session FS) (b : bool) : Session FS :=
  mk (filesystem se) (proto_major se) (proto_minor se) b (destroyed se).

(** [se.destroyed = b] *)
Definition set_destroyed {FS} (se : Session FS) (b : bool) : Session FS :=
  mk (filesystem se) (proto_major se) (proto_minor se) (initialized se) b.

#[export] Instance Session_eq_dec `{EqDecision FS} : EqDecision (Session FS).
Proof. solve_decision. Defined.

(** ** The abstract handshake state *)

Inductive Phase : Type := Uninitialized | Initialized | Destroyed.

#[export] Instance Phase_eq_dec : EqDecision Phase.
Proof. solve_decision. Defined.

Definition phase {FS} (se : Session FS) : Phase :=
  if negb (initialized se) then Uninitialized
  else if destroyed se then Destroyed
  else Initialized.

(** A protocol version the handshake accepts: 7.6 or later. *)
Definition supported (major minor : Z) : Prop :=
  7 < major \/ (major = 7 /\ 6 <= minor).

#[export] Instance supported_dec major minor : Decision (supported major minor).
Proof. unfold supported. apply _. Defined.

(** Consistency of a session: destruction happens only after
    initialisation, and the recorded version is either the initial 0.0 or
    one the handshake accepts. *)
Record consistent {FS} (se : Session FS) : Prop := {
  destroyed_initialized : destroyed se = true -> initialized se = true;
  version_supported :
    (proto_major se = 0 /\ proto_minor se = 0) \/
    supported (proto_major se) (proto_minor se);
  initialized_supported :
    initialized se = true -> supported (proto_major se) (proto_minor se);
}.

(** ** Sessions up to their filesystem *)

(** Two sessions are equivalent when they are in the same protocol state:
    they differ at most in their filesystem. *)
#[export] Instance Session_equiv {FS} : Equiv (Session FS) := fun se1 se2 =>
  proto_major se1 = proto_major se2 /\ proto_minor se1 = proto_minor se2 /\
  initialized se1 = initialized se2 /\ destroyed se1 = destroyed se2.

Section SessionLemmas.
Context {FS : Type}.
Implicit Types (se : Session FS) (f : FS).

#[export] Instance Session_equivalence : Equivalence (≡@{Session FS}).
Proof.
  split.
  - by intros se.
  - intros se1 se2 (? & ? & ? & ?). by repeat split.
  - intros se1 se2 se3 (? & ? & ? & ?) (? & ? & ? & ?). repeat split; congruence.
Qed.

#[export] Instance proto_major_proper : Proper ((≡) ==> (=)) (@proto_major FS).
Proof. by intros se1 se2 (? & ? & ? & ?). Qed.

#[export] Instance proto_minor_proper : Proper ((≡) ==> (=)) (@proto_minor FS).
Proof. by intros se1 se2 (? & ? & ? & ?). Qed.

#[export] Instance initialized_proper : Proper ((≡) ==> (=)) (@initialized FS).
Proof. by intros se1 se2 (? & ? & ? & ?). Qed.

#[export] Instance destroyed_proper : Proper ((≡) ==> (=)) (@destroyed FS).
Proof. by intros se1 se2 (? & ? & ? & ?). Qed.

#[export] Instance phase_proper : Proper ((≡) ==> (=)) (@phase FS).
Proof.
  intros se1 se2 Hs. unfold phase.
  by rewrite (initialized_proper _ _ Hs), (destroyed_proper _ _ Hs).
Qed.

#[export] Instance consistent_proper : Proper ((≡) ==> iff) (@consistent FS).
Proof.
  assert (forall se1 se2, se1 ≡ se2 -> consistent se1 -> consistent se2) as Himp.
  { intros se1 se2 Hs [Hd Hv Hi]. split; rewrite <- Hs; auto. }
  intros se1 se2 Hs. split; apply Himp; [done|by symmetry].
Qed.

(** A call changes the filesystem and nothing else. *)
Lemma set_filesystem_equiv se f : set_filesystem se f ≡ se.
Proof. done. Qed.

Lemma mk_equiv f1 f2 (major minor : Z) (i d : bool) :
  mk f1 major minor i d ≡ mk f2 major minor i d.
Proof. done. Qed.

Lemma new_consistent f : consistent (session.new f).
Proof. split; simpl; auto; done. Qed.

Lemma phase_new f : phase (session.new f) = Uninitialized.
Proof. done. Qed.

Lemma phase_Uninitialized se : phase se = Uninitialized <-> initialized se = false.
Proof. unfold phase. destruct (initialized se), (destroyed se); simpl; intuition congruence. Qed.

Lemma phase_Initialized se :
  phase se = Initialized <-> initialized se = true /\ destroyed se = false.
Proof. unfold phase. destruct (initialized se), (destroyed se); simpl; intuition congruence. Qed.

Lemma phase_Destroyed se :
  phase se = Destroyed <-> initialized se = true /\ destroyed se = true.
Proof. unfold phase. destruct (initialized se), (destroyed se); simpl; intuition congruence. Qed.

Lemma set_filesystem_consistent se f : consistent se -> consistent (set_filesystem se f).
Proof. by rewrite set_filesystem_equiv. Qed.

Lemma phase_set_filesystem se f : phase (set_filesystem se f) = phase se.
Proof. by rewrite set_filesystem_equiv. Qed.
End SessionLemmas.

#[export] Hint Resolve new_consistent set_filesystem_consistent : fuse.
