(* ===== verification/Dispatch.v ===== *)
(** * [Request::dispatch] ([request.rs], lines 22-31 and 59-520)

    One definition per arm of the source's [match], in the source's order,
    and [dispatch] that selects the arm.  An arm returns the session after
    it and the messages it wrote, or the panic it raised.

    The source's match tests its arms top to bottom, two of them guarded
    ([_ if !se.initialized], [_ if se.destroyed]).  [dispatch] nests the
    same tests in the same order; [dispatch_operation] holds the arms below
    the second guard. *)

From Stdlib Require Import ZArith Lia.
From stdpp Require Import base tactics numbers list option.
From S2P Require Import Prelude Abi Time LlRequest Reply Request Filesystem Session.

#[local] Open Scope Z_scope.

(** The result of handling one request. *)
Abbreviation Step FS := (outcome (Session FS * list Message)).

(** ** Items selected by [cfg(target_os)]

    The source has two versions of [INIT_FLAGS], of [get_macos_setattr] and
    of [get_position], one under [#[cfg(target_os = "macos")]] and one
    under its negation.  Each version is a definition of the Module of its
    [cfg]; the definition of the same name outside the Modules selects by
    [target_os], as the compiler does. *)

(** [let crtime] of the macOS [get_macos_setattr]: an instant out of range
    is replaced by [SystemTime::now()]. *)
Definition attr_crtime (now : Clock) (arg : fuse_setattr_in.t)
  : outcome (option SystemTime.t) :=
  match fuse_setattr_in.valid arg .&. FATTR_CRTIME with
  | 0 => Done None
  | _ =>
      d ← Duration.new (fuse_setattr_in.crtime arg) (fuse_setattr_in.crtimensec arg);
      Done (Some match SystemTime.checked_add SystemTime.UNIX_EPOCH d with
                 | Some crt => crt
                 | None => now 0%nat
                 end)
  end.

(** [let chgtime] *)
Definition attr_chgtime (now : Clock) (arg : fuse_setattr_in.t)
  : outcome (option SystemTime.t) :=
  match fuse_setattr_in.valid arg .&. FATTR_CHGTIME with
  | 0 => Done None
  | _ =>
      d ← Duration.new (fuse_setattr_in.chgtime arg) (fuse_setattr_in.chgtimensec arg);
      Done (Some match SystemTime.checked_add SystemTime.UNIX_EPOCH d with
                 | Some cht => cht
                 | None => now 1%nat
                 end)
  end.

(** [let bkuptime] *)
Definition attr_bkuptime (now : Clock) (arg : fuse_setattr_in.t)
  : outcome (option SystemTime.t) :=
  match fuse_setattr_in.valid arg .&. FATTR_BKUPTIME with
  | 0 => Done None
  | _ =>
      d ← Duration.new (fuse_setattr_in.bkuptime arg) (fuse_setattr_in.bkuptimensec arg);
      Done (Some match SystemTime.checked_add SystemTime.UNIX_EPOCH d with
                 | Some bkt => bkt
                 | None => now 2%nat
                 end)
  end.

(** [let flags] *)
Definition attr_flags (arg : fuse_setattr_in.t) : option Z :=
  match fuse_setattr_in.valid arg .&. FATTR_FLAGS with
  | 0 => None
  | _ => Some (fuse_setattr_in.flags arg)
  end.

Module cfg_not_macos.
(** [const INIT_FLAGS] (lines 22-24): asynchronous reads. *)
Definition INIT_FLAGS : Z := FUSE_ASYNC_READ.

(** [get_macos_setattr] (lines 219-230) *)
Definition get_macos_setattr (arg : fuse_setattr_in.t)
  : option SystemTime.t * option SystemTime.t * option SystemTime.t * option Z :=
  (None, None, None, None).

(** [get_position] (lines 402-406) *)
Definition get_position (arg : fuse_setxattr_in.t) : Z := 0.
End cfg_not_macos.

Module cfg_macos.
(** [const INIT_FLAGS] (lines 27-30): case insensitivity, volume renames
    and extended times as well. *)
Definition INIT_FLAGS : Z :=
  FUSE_ASYNC_READ .|. FUSE_CASE_INSENSITIVE .|. FUSE_VOL_RENAME .|. FUSE_XTIMES.

(** [get_macos_setattr] (lines 171-218) *)
Definition get_macos_setattr (now : Clock) (arg : fuse_setattr_in.t)
  : outcome (option SystemTime.t * option SystemTime.t * option SystemTime.t * option Z) :=
  crtime ← attr_crtime now arg;
  chgtime ← attr_chgtime now arg;
  bkuptime ← attr_bkuptime now arg;
  let flags := attr_flags arg in
  Done (crtime, chgtime, bkuptime, flags).

(** [get_position] (lines 397-401) *)
Definition get_position (arg : fuse_setxattr_in.t) : Z := fuse_setxattr_in.position arg.
End cfg_macos.

(** [INIT_FLAGS] of the build. *)
Definition INIT_FLAGS `{Config} : Z :=
  match target_os with
  | OtherOs => cfg_not_macos.INIT_FLAGS
  | MacOs => cfg_macos.INIT_FLAGS
  end.

Section Arms.
Context `{Config} `{fs.Filesystem FS}.
Variable now : Clock.
Implicit Types (self : Request) (se : Session FS).

(** A call [se.filesystem.m(..)]: the method's effect on the filesystem is
    stored in the session, its messages are the arm's messages. *)
Definition call se (e : Effect FS) : Step FS :=
  Done (set_filesystem se e.1, e.2).

(** The version test of the handshake (line 71). *)
Definition unsupported_abi (arg : fuse_init_in.t) : bool :=
  (fuse_init_in.major arg <? 7) ||
  ((fuse_init_in.major arg =? 7) && (fuse_init_in.minor arg <? 6)).

(** The handshake reply (lines 88-100). *)
Definition init_out (arg : fuse_init_in.t) : fuse_init_out.t :=
  {| fuse_init_out.major := FUSE_KERNEL_VERSION;
     fuse_init_out.minor := FUSE_KERNEL_MINOR_VERSION;
     fuse_init_out.max_readahead :=
       if as_u32 BUFFER_SIZE <? fuse_init_in.max_readahead arg
       then as_u32 BUFFER_SIZE
       else fuse_init_in.max_readahead arg;
     fuse_init_out.flags := fuse_init_in.flags arg .&. INIT_FLAGS;
     fuse_init_out.unused := 0;
     fuse_init_out.max_write := as_u32 MAX_WRITE_SIZE |}.

(** [Operation::Init] *)
Definition dispatch_init self se (arg : fuse_init_in.t) : Step FS :=
  let reply : ReplyRaw := Request.reply self in
  if unsupported_abi arg then
    Done (se, [Reply.error reply EPROTO])
  else
    let se := set_proto_major se (fuse_init_in.major arg) in
    let se := set_proto_minor se (fuse_init_in.minor arg) in
    let '(f, res) := fs.init (filesystem se) self in
    let se := set_filesystem se f in
    match res with
    | Err err => Done (se, [Reply.error reply err])
    | Ok _ =>
        let init := init_out arg in
        let se := set_initialized se true in
        Done (se, [Reply.ok reply (InitOut init)])
    end.

(** [_ if !se.initialized] *)
Definition reject_before_init self se : Step FS :=
  Done (se, [Reply.error (Request.reply self : ReplyEmpty) EIO]).

(** [Operation::Destroy] *)
Definition dispatch_destroy self se : Step FS :=
  let se := set_filesystem se (fs.destroy (filesystem se) self) in
  let se := set_destroyed se true in
  Done (se, [Reply.ok (Request.reply self : ReplyEmpty) NoPayload]).

(** [_ if se.destroyed] *)
Definition reject_after_destroy self se : Step FS :=
  Done (se, [Reply.error (Request.reply self : ReplyEmpty) EIO]).

(** [Operation::Interrupt] *)
Definition dispatch_interrupt self se : Step FS :=
  Done (se, [Reply.error (Request.reply self : ReplyEmpty) ENOSYS]).

(** [Operation::Lookup] *)
Definition dispatch_lookup self se (name : bytes) : Step FS :=
  call se (fs.lookup (filesystem se) self (ll_request.nodeid (request self)) name
             (Request.reply self)).

(** [Operation::Forget]: no reply. *)
Definition dispatch_forget self se (arg : fuse_forget_in.t) : Step FS :=
  Done (set_filesystem se
          (fs.forget (filesystem se) self (ll_request.nodeid (request self))
             (fuse_forget_in.nlookup arg)), []).

(** [Operation::GetAttr] *)
Definition dispatch_getattr self se : Step FS :=
  call se (fs.getattr (filesystem se) self (ll_request.nodeid (request self))
             (Request.reply self)).

(** ** [Operation::SetAttr]: one attribute per validity bit *)

(** [let mode] *)
Definition attr_mode (arg : fuse_setattr_in.t) : option Z :=
  match fuse_setattr_in.valid arg .&. FATTR_MODE with
  | 0 => None
  | _ => Some (fuse_setattr_in.mode arg)
  end.

(** [let uid] *)
Definition attr_uid (arg : fuse_setattr_in.t) : option Z :=
  match fuse_setattr_in.valid arg .&. FATTR_UID with
  | 0 => None
  | _ => Some (fuse_setattr_in.uid arg)
  end.

(** [let gid] *)
Definition attr_gid (arg : fuse_setattr_in.t) : option Z :=
  match fuse_setattr_in.valid arg .&. FATTR_GID with
  | 0 => None
  | _ => Some (fuse_setattr_in.gid arg)
  end.

(** [let size] *)
Definition attr_size (arg : fuse_setattr_in.t) : option Z :=
  match fuse_setattr_in.valid arg .&. FATTR_SIZE with
  | 0 => None
  | _ => Some (fuse_setattr_in.size arg)
  end.

(** [let atime]: [UNIX_EPOCH + Duration::new(..)] panics when either
    overflows. *)
Definition attr_atime (arg : fuse_setattr_in.t) : outcome (option SystemTime.t) :=
  match fuse_setattr_in.valid arg .&. FATTR_ATIME with
  | 0 => Done None
  | _ =>
      d ← Duration.new (fuse_setattr_in.atime arg) (fuse_setattr_in.atimensec arg);
      t ← SystemTime.add SystemTime.UNIX_EPOCH d;
      Done (Some t)
  end.

(** [let mtime] *)
Definition attr_mtime (arg : fuse_setattr_in.t) : outcome (option SystemTime.t) :=
  match fuse_setattr_in.valid arg .&. FATTR_MTIME with
  | 0 => Done None
  | _ =>
      d ← Duration.new (fuse_setattr_in.mtime arg) (fuse_setattr_in.mtimensec arg);
      t ← SystemTime.add SystemTime.UNIX_EPOCH d;
      Done (Some t)
  end.

(** [let fh] *)
Definition attr_fh (arg : fuse_setattr_in.t) : option Z :=
  match fuse_setattr_in.valid arg .&. FATTR_FH with
  | 0 => None
  | _ => Some (fuse_setattr_in.fh arg)
  end.

(** [get_macos_setattr] of the build. *)
Definition get_macos_setattr (arg : fuse_setattr_in.t)
  : outcome (option SystemTime.t * option SystemTime.t * option SystemTime.t * option Z) :=
  match target_os with
  | MacOs => cfg_macos.get_macos_setattr now arg
  | OtherOs => Done (cfg_not_macos.get_macos_setattr arg)
  end.

(** [Operation::SetAttr] *)
Definition dispatch_setattr self se (arg : fuse_setattr_in.t) : Step FS :=
  let mode := attr_mode arg in
  let uid := attr_uid arg in
  let gid := attr_gid arg in
  let size := attr_size arg in
  atime ← attr_atime arg;
  mtime ← attr_mtime arg;
  let fh := attr_fh arg in
  '(crtime, chgtime, bkuptime, flags) ← get_macos_setattr arg;
  call se (fs.setattr (filesystem se) self (ll_request.nodeid (request self))
             mode uid gid size atime mtime fh crtime chgtime bkuptime flags
             (Request.reply self)).

(** [Operation::ReadLink] *)
Definition dispatch_readlink self se : Step FS :=
  call se (fs.readlink (filesystem se) self (ll_request.nodeid (request self))
             (Request.reply self)).

(** [Operation::MkNod] *)
Definition dispatch_mknod self se (arg : fuse_mknod_in.t) (name : bytes) : Step FS :=
  call se (fs.mknod (filesystem se) self (ll_request.nodeid (request self)) name
             (fuse_mknod_in.mode arg) (fuse_mknod_in.rdev arg) (Request.reply self)).

(** [Operation::MkDir] *)
Definition dispatch_mkdir self se (arg : fuse_mkdir_in.t) (name : bytes) : Step FS :=
  call se (fs.mkdir (filesystem se) self (ll_request.nodeid (request self)) name
             (fuse_mkdir_in.mode arg) (Request.reply self)).

(** [Operation::Unlink] *)
Definition dispatch_unlink self se (name : bytes) : Step FS :=
  call se (fs.unlink (filesystem se) self (ll_request.nodeid (request self)) name
             (Request.reply self)).

(** [Operation::RmDir] *)
Definition dispatch_rmdir self se (name : bytes) : Step FS :=
  call se (fs.rmdir (filesystem se) self (ll_request.nodeid (request self)) name
             (Request.reply self)).

(** [Operation::SymLink] *)
Definition dispatch_symlink self se (name link : bytes) : Step FS :=
  call se (fs.symlink (filesystem se) self (ll_request.nodeid (request self)) name link
             (Request.reply self)).

(** [Operation::Rename] *)
Definition dispatch_rename self se (arg : fuse_rename_in.t) (name newname : bytes)
  : Step FS :=
  call se (fs.rename (filesystem se) self (ll_request.nodeid (request self)) name
             (fuse_rename_in.newdir arg) newname (Request.reply self)).

(** [Operation::Link] *)
Definition dispatch_link self se (arg : fuse_link_in.t) (name : bytes) : Step FS :=
  call se (fs.link (filesystem se) self (fuse_link_in.oldnodeid arg)
             (ll_request.nodeid (request self)) name (Request.reply self)).

(** [Operation::Open] *)
Definition dispatch_open self se (arg : fuse_open_in.t) : Step FS :=
  call se (fs.open (filesystem se) self (ll_request.nodeid (request self))
             (fuse_open_in.flags arg) (Request.reply self)).

(** [Operation::Read] *)
Definition dispatch_read self se (arg : fuse_read_in.t) : Step FS :=
  call se (fs.read (filesystem se) self (ll_request.nodeid (request self))
             (fuse_read_in.fh arg) (as_i64 (fuse_read_in.offset arg))
             (fuse_read_in.size arg) (Request.reply self)).

(** [Operation::Write] *)
Definition dispatch_write self se (arg : fuse_write_in.t) (data : bytes) : Step FS :=
  _ ← assert (bool_decide (len data = as_usize (fuse_write_in.size arg)));
  call se (fs.write (filesystem se) self (ll_request.nodeid (request self))
             (fuse_write_in.fh arg) (as_i64 (fuse_write_in.offset arg)) data
             (fuse_write_in.write_flags arg) (Request.reply self)).

(** [Operation::Flush] *)
Definition dispatch_flush self se (arg : fuse_flush_in.t) : Step FS :=
  call se (fs.flush (filesystem se) self (ll_request.nodeid (request self))
             (fuse_flush_in.fh arg) (fuse_flush_in.lock_owner arg) (Request.reply self)).

(** [let flush] of [Operation::Release] *)
Definition release_flag_flush (arg : fuse_release_in.t) : bool :=
  match fuse_release_in.release_flags arg .&. FUSE_RELEASE_FLUSH with
  | 0 => false
  | _ => true
  end.

(** [Operation::Release] *)
Definition dispatch_release self se (arg : fuse_release_in.t) : Step FS :=
  let flush := release_flag_flush arg in
  call se (fs.release (filesystem se) self (ll_request.nodeid (request self))
             (fuse_release_in.fh arg) (fuse_release_in.flags arg)
             (fuse_release_in.lock_owner arg) flush (Request.reply self)).

(** [let datasync] of [Operation::FSync] *)
Definition fsync_flag_datasync (arg : fuse_fsync_in.t) : bool :=
  match fuse_fsync_in.fsync_flags arg .&. 1 with
  | 0 => false
  | _ => true
  end.

(** [Operation::FSync] *)
Definition dispatch_fsync self se (arg : fuse_fsync_in.t) : Step FS :=
  let datasync := fsync_flag_datasync arg in
  call se (fs.fsync (filesystem se) self (ll_request.nodeid (request self))
             (fuse_fsync_in.fh arg) datasync (Request.reply self)).

(** [Operation::OpenDir] *)
Definition dispatch_opendir self se (arg : fuse_open_in.t) : Step FS :=
  call se (fs.opendir (filesystem se) self (ll_request.nodeid (request self))
             (fuse_open_in.flags arg) (Request.reply self)).

(** [Operation::ReadDir] *)
Definition dispatch_readdir self se (arg : fuse_read_in.t) : Step FS :=
  call se (fs.readdir (filesystem se) self (ll_request.nodeid (request self))
             (fuse_read_in.fh arg) (as_i64 (fuse_read_in.offset arg))
             (ReplyDirectory.new (ll_request.unique (request self)) (ch self)
                (as_usize (fuse_read_in.size arg)))).

(** [Operation::ReleaseDir] *)
Definition dispatch_releasedir self se (arg : fuse_release_in.t) : Step FS :=
  call se (fs.releasedir (filesystem se) self (ll_request.nodeid (request self))
             (fuse_release_in.fh arg) (fuse_release_in.flags arg) (Request.reply self)).

(** [let datasync] of [Operation::FSyncDir] *)
Definition fsyncdir_flag_datasync (arg : fuse_fsync_in.t) : bool :=
  match fuse_fsync_in.fsync_flags arg .&. 1 with
  | 0 => false
  | _ => true
  end.

(** [Operation::FSyncDir] *)
Definition dispatch_fsyncdir self se (arg : fuse_fsync_in.t) : Step FS :=
  let datasync := fsyncdir_flag_datasync arg in
  call se (fs.fsyncdir (filesystem se) self (ll_request.nodeid (request self))
             (fuse_fsync_in.fh arg) datasync (Request.reply self)).

(** [Operation::StatFs] *)
Definition dispatch_statfs self se : Step FS :=
  call se (fs.statfs (filesystem se) self (ll_request.nodeid (request self))
             (Request.reply self)).

(** [get_position] of the build. *)
Definition get_position (arg : fuse_setxattr_in.t) : Z :=
  match target_os with
  | MacOs => cfg_macos.get_position arg
  | OtherOs => cfg_not_macos.get_position arg
  end.

(** [Operation::SetXAttr] *)
Definition dispatch_setxattr self se (arg : fuse_setxattr_in.t) (name value : bytes)
  : Step FS :=
  _ ← assert (bool_decide (len value = as_usize (fuse_setxattr_in.size arg)));
  call se (fs.setxattr (filesystem se) self (ll_request.nodeid (request self)) name value
             (fuse_setxattr_in.flags arg) (get_position arg) (Request.reply self)).

(** [Operation::GetXAttr] *)
Definition dispatch_getxattr self se (arg : fuse_getxattr_in.t) (name : bytes) : Step FS :=
  call se (fs.getxattr (filesystem se) self (ll_request.nodeid (request self)) name
             (fuse_getxattr_in.size arg) (Request.reply self)).

(** [Operation::ListXAttr] *)
Definition dispatch_listxattr self se (arg : fuse_getxattr_in.t) : Step FS :=
  call se (fs.listxattr (filesystem se) self (ll_request.nodeid (request self))
             (fuse_getxattr_in.size arg) (Request.reply self)).

(** [Operation::RemoveXAttr] *)
Definition dispatch_removexattr self se (name : bytes) : Step FS :=
  call se (fs.removexattr (filesystem se) self (ll_request.nodeid (request self)) name
             (Request.reply self)).

(** [Operation::Access] *)
Definition dispatch_access self se (arg : fuse_access_in.t) : Step FS :=
  call se (fs.access (filesystem se) self (ll_request.nodeid (request self))
             (fuse_access_in.mask arg) (Request.reply self)).

(** [Operation::Create] *)
Definition dispatch_create self se (arg : fuse_create_in.t) (name : bytes) : Step FS :=
  call se (fs.create (filesystem se) self (ll_request.nodeid (request self)) name
             (fuse_create_in.mode arg) (fuse_create_in.flags arg) (Request.reply self)).

(** [Operation::GetLk] *)
Definition dispatch_getlk self se (arg : fuse_lk_in.t) : Step FS :=
  call se (fs.getlk (filesystem se) self (ll_request.nodeid (request self))
             (fuse_lk_in.fh arg) (fuse_lk_in.owner arg)
             (fuse_file_lock.start (fuse_lk_in.lk arg))
             (fuse_file_lock.end_ (fuse_lk_in.lk arg))
             (fuse_file_lock.typ (fuse_lk_in.lk arg))
             (fuse_file_lock.pid (fuse_lk_in.lk arg)) (Request.reply self)).

(** [Operation::SetLk] *)
Definition dispatch_setlk self se (arg : fuse_lk_in.t) : Step FS :=
  call se (fs.setlk (filesystem se) self (ll_request.nodeid (request self))
             (fuse_lk_in.fh arg) (fuse_lk_in.owner arg)
             (fuse_file_lock.start (fuse_lk_in.lk arg))
             (fuse_file_lock.end_ (fuse_lk_in.lk arg))
             (fuse_file_lock.typ (fuse_lk_in.lk arg))
             (fuse_file_lock.pid (fuse_lk_in.lk arg)) false (Request.reply self)).

(** [Operation::SetLkW] *)
Definition dispatch_setlkw self se (arg : fuse_lk_in.t) : Step FS :=
  call se (fs.setlk (filesystem se) self (ll_request.nodeid (request self))
             (fuse_lk_in.fh arg) (fuse_lk_in.owner arg)
             (fuse_file_lock.start (fuse_lk_in.lk arg))
             (fuse_file_lock.end_ (fuse_lk_in.lk arg))
             (fuse_file_lock.typ (fuse_lk_in.lk arg))
             (fuse_file_lock.pid (fuse_lk_in.lk arg)) true (Request.reply self)).

(** [Operation::BMap] *)
Definition dispatch_bmap self se (arg : fuse_bmap_in.t) : Step FS :=
  call se (fs.bmap (filesystem se) self (ll_request.nodeid (request self))
             (fuse_bmap_in.blocksize arg) (fuse_bmap_in.block arg) (Request.reply self)).

(** [Operation::SetVolName] (macOS) *)
Definition dispatch_setvolname self se (name : bytes) : Step FS :=
  call se (fs.setvolname (filesystem se) self name (Request.reply self)).

(** [Operation::GetXTimes] (macOS) *)
Definition dispatch_getxtimes self se : Step FS :=
  call se (fs.getxtimes (filesystem se) self (ll_request.nodeid (request self))
             (Request.reply self)).

(** [Operation::Exchange] (macOS) *)
Definition dispatch_exchange self se (arg : fuse_exchange_in.t) (oldname newname : bytes)
  : Step FS :=
  call se (fs.exchange (filesystem se) self (fuse_exchange_in.olddir arg) oldname
             (fuse_exchange_in.newdir arg) newname (fuse_exchange_in.options arg)
             (Request.reply self)).

(** The arms below the second guard (lines 125-519).  [Init] and [Destroy]
    are matched by the arms above the guards and never reach this match;
    they are listed so that it stays the source's match with the guards
    taken away.  The last three arms are compiled on macOS only, where
    alone their variants exist ([ll_request.on_target]); here they are
    arms on every target. *)
Definition dispatch_operation self se (op : ll_request.Operation) : Step FS :=
  match op with
  | ll_request.Init arg => dispatch_init self se arg
  | ll_request.Destroy => dispatch_destroy self se
  | ll_request.Interrupt _ => dispatch_interrupt self se
  | ll_request.Lookup name => dispatch_lookup self se name
  | ll_request.Forget arg => dispatch_forget self se arg
  | ll_request.GetAttr => dispatch_getattr self se
  | ll_request.SetAttr arg => dispatch_setattr self se arg
  | ll_request.ReadLink => dispatch_readlink self se
  | ll_request.MkNod arg name => dispatch_mknod self se arg name
  | ll_request.MkDir arg name => dispatch_mkdir self se arg name
  | ll_request.Unlink name => dispatch_unlink self se name
  | ll_request.RmDir name => dispatch_rmdir self se name
  | ll_request.SymLink name link => dispatch_symlink self se name link
  | ll_request.Rename arg name newname => dispatch_rename self se arg name newname
  | ll_request.Link arg name => dispatch_link self se arg name
  | ll_request.Open arg => dispatch_open self se arg
  | ll_request.Read arg => dispatch_read self se arg
  | ll_request.Write arg data => dispatch_write self se arg data
  | ll_request.Flush arg => dispatch_flush self se arg
  | ll_request.Release arg => dispatch_release self se arg
  | ll_request.FSync arg => dispatch_fsync self se arg
  | ll_request.OpenDir arg => dispatch_opendir self se arg
  | ll_request.ReadDir arg => dispatch_readdir self se arg
  | ll_request.ReleaseDir arg => dispatch_releasedir self se arg
  | ll_request.FSyncDir arg => dispatch_fsyncdir self se arg
  | ll_request.StatFs => dispatch_statfs self se
  | ll_request.SetXAttr arg name value => dispatch_setxattr self se arg name value
  | ll_request.GetXAttr arg name => dispatch_getxattr self se arg name
  | ll_request.ListXAttr arg => dispatch_listxattr self se arg
  | ll_request.RemoveXAttr name => dispatch_removexattr self se name
  | ll_request.Access arg => dispatch_access self se arg
  | ll_request.Create arg name => dispatch_create self se arg name
  | ll_request.GetLk arg => dispatch_getlk self se arg
  | ll_request.SetLk arg => dispatch_setlk self se arg
  | ll_request.SetLkW arg => dispatch_setlkw self se arg
  | ll_request.BMap arg => dispatch_bmap self se arg
  | ll_request.SetVolName name => dispatch_setvolname self se name
  | ll_request.GetXTimes => dispatch_getxtimes self se
  | ll_request.Exchange arg oldname newname =>
      dispatch_exchange self se arg oldname newname
  end.

(** [Request::dispatch] *)
Definition dispatch self se : Step FS :=
  match ll_request.operation (request self) with
  | ll_request.Init arg => dispatch_init self se arg
  | op =>
      if negb (initialized se) then reject_before_init self se
      else
        match op with
        | ll_request.Destroy => dispatch_destroy self se
        | op =>
            if destroyed se then reject_after_destroy self se
            else dispatch_operation self se op
        end
  end.

End Arms.
