(* ===== verification/Spec.v ===== *)
(** * What the dispatcher promises

    The specification of [Request::dispatch], independent of how the source
    arranges its match: [plan] decides from the session's phase and the
    operation what is to be done ([Action]), and [execute] does it.  The
    argument derivations are stated on bits ([present]) and on instants
    ([epoch_plus]), not on the source's masks and library calls.
    [DispatchProps] proves that [dispatch] is [execute] of [plan]. *)

From Stdlib Require Import ZArith Lia.
From stdpp Require Import base tactics numbers list option.
From S2P Require Import Prelude Abi Time LlRequest Reply Request Filesystem Session.

#[local] Open Scope Z_scope.

(** What handling a request amounts to. *)
Inductive Action : Type :=
  | Handshake (arg : fuse_init_in.t)
  | Refuse (errno : Z)
  | Teardown
  | Forward (c : FsCall)
  | Abort (p : panic).

(** Forward the call when its arguments could be derived, abort with the
    panic otherwise. *)
Definition act (m : outcome FsCall) : Action :=
  match m with
  | Done c => Forward c
  | Panicked p => Abort p
  end.

(** An optional field: present exactly when its validity bit is set. *)
Definition present {A} (valid bit : Z) (v : A) : option A :=
  if Z.testbit valid bit then Some v else None.

(** Seconds and nanoseconds after the epoch as an instant, when the seconds
    fit the signed 64-bit field of an instant. *)
Definition instant (secs nsecs : Z) : option SystemTime.t :=
  let s := secs + nsecs / NANOS_PER_SEC in
  if s <? 2 ^ 63 then Some (SystemTime.mk s (nsecs mod NANOS_PER_SEC)) else None.

(** The panic of an instant that cannot be built: the duration overflows
    when even [u64] seconds do not hold it, the instant otherwise. *)
Definition overflow (secs nsecs : Z) : panic :=
  if secs + nsecs / NANOS_PER_SEC <? 2 ^ 64 then InstantOverflow else DurationOverflow.

(** [atime], [mtime]: an unrepresentable instant is a panic. *)
Definition epoch_plus (secs nsecs : Z) : outcome SystemTime.t :=
  match instant secs nsecs with
  | Some t => Done t
  | None => Panicked (overflow secs nsecs)
  end.

(** [crtime], [chgtime], [bkuptime]: an unrepresentable instant is replaced
    by the clock's reading, unless the duration itself overflows. *)
Definition epoch_plus_clamped (fallback : SystemTime.t) (secs nsecs : Z)
  : outcome SystemTime.t :=
  match instant secs nsecs with
  | Some t => Done t
  | None =>
      match overflow secs nsecs with
      | DurationOverflow => Panicked DurationOverflow
      | _ => Done fallback
      end
  end.

(** A time field guarded by a validity bit. *)
Definition present_time (valid bit : Z) (t : outcome SystemTime.t)
  : outcome (option SystemTime.t) :=
  if Z.testbit valid bit then Some <$> t else Done None.

Section Spec.
Context `{Config} `{fs.Filesystem FS}.
Implicit Types (self : Request) (se : Session FS).

(** The capability flags this implementation supports. *)
Definition supported_flags : list Z :=
  match target_os with
  | OtherOs => [0]
  | MacOs => [0; 29; 30; 31]
  end.

(** The handshake reply for an accepted version. *)
Definition negotiated (arg : fuse_init_in.t) : fuse_init_out.t :=
  {| fuse_init_out.major := 7;
     fuse_init_out.minor := FUSE_KERNEL_MINOR_VERSION;
     fuse_init_out.max_readahead :=
       Z.min (as_u32 BUFFER_SIZE) (fuse_init_in.max_readahead arg);
     fuse_init_out.flags :=
       fuse_init_in.flags arg .&.
         foldr (fun k acc => acc .|. 2 ^ k) 0 supported_flags;
     fuse_init_out.unused := 0;
     fuse_init_out.max_write := as_u32 MAX_WRITE_SIZE |}.

(** The message a reply to [self] is: bound to its channel and [unique]. *)
Definition answer self (errno : Z) (p : Payload) : Message :=
  mkMessage (ch self) (Request.unique self) errno p.

Section Derive.
Variable now : Clock.

(** The fields of [setattr] that exist on macOS only: three times and the
    flags, absent everywhere else. *)
Definition macos_fields (arg : fuse_setattr_in.t)
  : outcome (option SystemTime.t * option SystemTime.t * option SystemTime.t * option Z) :=
  let valid := fuse_setattr_in.valid arg in
  match target_os with
  | OtherOs => Done (None, None, None, None)
  | MacOs =>
      crtime ← present_time valid 28
        (epoch_plus_clamped (now 0%nat)
           (fuse_setattr_in.crtime arg) (fuse_setattr_in.crtimensec arg));
      chgtime ← present_time valid 29
        (epoch_plus_clamped (now 1%nat)
           (fuse_setattr_in.chgtime arg) (fuse_setattr_in.chgtimensec arg));
      bkuptime ← present_time valid 30
        (epoch_plus_clamped (now 2%nat)
           (fuse_setattr_in.bkuptime arg) (fuse_setattr_in.bkuptimensec arg));
      Done (crtime, chgtime, bkuptime, present valid 31 (fuse_setattr_in.flags arg))
  end.

(** The call [setattr] receives. *)
Definition setattr_call self (arg : fuse_setattr_in.t) : outcome FsCall :=
  let valid := fuse_setattr_in.valid arg in
  atime ← present_time valid 4
    (epoch_plus (fuse_setattr_in.atime arg) (fuse_setattr_in.atimensec arg));
  mtime ← present_time valid 5
    (epoch_plus (fuse_setattr_in.mtime arg) (fuse_setattr_in.mtimensec arg));
  '(crtime, chgtime, bkuptime, flags) ← macos_fields arg;
  Done (CSetattr (ll_request.nodeid (request self))
          (present valid 0 (fuse_setattr_in.mode arg))
          (present valid 1 (fuse_setattr_in.uid arg))
          (present valid 2 (fuse_setattr_in.gid arg))
          (present valid 3 (fuse_setattr_in.size arg))
          atime mtime
          (present valid 6 (fuse_setattr_in.fh arg))
          crtime chgtime bkuptime flags
          (Request.reply self)).

(** What an operation amounts to in an initialized session. *)
Definition derive self (op : ll_request.Operation) : Action :=
  let ino := ll_request.nodeid (request self) in
  match op with
  | ll_request.Init arg => Handshake arg
  | ll_request.Destroy => Teardown
  | ll_request.Interrupt _ => Refuse ENOSYS
  | ll_request.Lookup name => Forward (CLookup ino name (Request.reply self))
  | ll_request.Forget arg => Forward (CForget ino (fuse_forget_in.nlookup arg))
  | ll_request.GetAttr => Forward (CGetattr ino (Request.reply self))
  | ll_request.SetAttr arg =>
      act (setattr_call self arg)
  | ll_request.ReadLink => Forward (CReadlink ino (Request.reply self))
  | ll_request.MkNod arg name =>
      Forward (CMknod ino name (fuse_mknod_in.mode arg) (fuse_mknod_in.rdev arg)
                 (Request.reply self))
  | ll_request.MkDir arg name =>
      Forward (CMkdir ino name (fuse_mkdir_in.mode arg) (Request.reply self))
  | ll_request.Unlink name => Forward (CUnlink ino name (Request.reply self))
  | ll_request.RmDir name => Forward (CRmdir ino name (Request.reply self))
  | ll_request.SymLink name link => Forward (CSymlink ino name link (Request.reply self))
  | ll_request.Rename arg name newname =>
      Forward (CRename ino name (fuse_rename_in.newdir arg) newname (Request.reply self))
  | ll_request.Link arg name =>
      Forward (CLink (fuse_link_in.oldnodeid arg) ino name (Request.reply self))
  | ll_request.Open arg => Forward (COpen ino (fuse_open_in.flags arg) (Request.reply self))
  | ll_request.Read arg =>
      Forward (CRead ino (fuse_read_in.fh arg) (as_i64 (fuse_read_in.offset arg))
                 (fuse_read_in.size arg) (Request.reply self))
  | ll_request.Write arg data =>
      if decide (len data = fuse_write_in.size arg)
      then Forward (CWrite ino (fuse_write_in.fh arg) (as_i64 (fuse_write_in.offset arg))
                      data (fuse_write_in.write_flags arg) (Request.reply self))
      else Abort AssertionFailed
  | ll_request.Flush arg =>
      Forward (CFlush ino (fuse_flush_in.fh arg) (fuse_flush_in.lock_owner arg)
                 (Request.reply self))
  | ll_request.Release arg =>
      Forward (CRelease ino (fuse_release_in.fh arg) (fuse_release_in.flags arg)
                 (fuse_release_in.lock_owner arg)
                 (Z.testbit (fuse_release_in.release_flags arg) 0) (Request.reply self))
  | ll_request.FSync arg =>
      Forward (CFsync ino (fuse_fsync_in.fh arg)
                 (Z.testbit (fuse_fsync_in.fsync_flags arg) 0) (Request.reply self))
  | ll_request.OpenDir arg =>
      Forward (COpendir ino (fuse_open_in.flags arg) (Request.reply self))
  | ll_request.ReadDir arg =>
      Forward (CReaddir ino (fuse_read_in.fh arg) (as_i64 (fuse_read_in.offset arg))
                 (ReplyDirectory.new (Request.unique self) (ch self)
                    (fuse_read_in.size arg)))
  | ll_request.ReleaseDir arg =>
      Forward (CReleasedir ino (fuse_release_in.fh arg) (fuse_release_in.flags arg)
                 (Request.reply self))
  | ll_request.FSyncDir arg =>
      Forward (CFsyncdir ino (fuse_fsync_in.fh arg)
                 (Z.testbit (fuse_fsync_in.fsync_flags arg) 0) (Request.reply self))
  | ll_request.StatFs => Forward (CStatfs ino (Request.reply self))
  | ll_request.SetXAttr arg name value =>
      if decide (len value = fuse_setxattr_in.size arg)
      then Forward (CSetxattr ino name value (fuse_setxattr_in.flags arg)
                      (if decide (target_os = MacOs)
                       then fuse_setxattr_in.position arg else 0)
                      (Request.reply self))
      else Abort AssertionFailed
  | ll_request.GetXAttr arg name =>
      Forward (CGetxattr ino name (fuse_getxattr_in.size arg) (Request.reply self))
  | ll_request.ListXAttr arg =>
      Forward (CListxattr ino (fuse_getxattr_in.size arg) (Request.reply self))
  | ll_request.RemoveXAttr name => Forward (CRemovexattr ino name (Request.reply self))
  | ll_request.Access arg =>
      Forward (CAccess ino (fuse_access_in.mask arg) (Request.reply self))
  | ll_request.Create arg name =>
      Forward (CCreate ino name (fuse_create_in.mode arg) (fuse_create_in.flags arg)
                 (Request.reply self))
  | ll_request.GetLk arg =>
      let lk := fuse_lk_in.lk arg in
      Forward (CGetlk ino (fuse_lk_in.fh arg) (fuse_lk_in.owner arg)
                 (fuse_file_lock.start lk) (fuse_file_lock.end_ lk)
                 (fuse_file_lock.typ lk) (fuse_file_lock.pid lk) (Request.reply self))
  | ll_request.SetLk arg =>
      let lk := fuse_lk_in.lk arg in
      Forward (CSetlk ino (fuse_lk_in.fh arg) (fuse_lk_in.owner arg)
                 (fuse_file_lock.start lk) (fuse_file_lock.end_ lk)
                 (fuse_file_lock.typ lk) (fuse_file_lock.pid lk) false
                 (Request.reply self))
  | ll_request.SetLkW arg =>
      let lk := fuse_lk_in.lk arg in
      Forward (CSetlk ino (fuse_lk_in.fh arg) (fuse_lk_in.owner arg)
                 (fuse_file_lock.start lk) (fuse_file_lock.end_ lk)
                 (fuse_file_lock.typ lk) (fuse_file_lock.pid lk) true
                 (Request.reply self))
  | ll_request.BMap arg =>
      Forward (CBmap ino (fuse_bmap_in.blocksize arg) (fuse_bmap_in.block arg)
                 (Request.reply self))
  | ll_request.SetVolName name => Forward (CSetvolname name (Request.reply self))
  | ll_request.GetXTimes => Forward (CGetxtimes ino (Request.reply self))
  | ll_request.Exchange arg oldname newname =>
      Forward (CExchange (fuse_exchange_in.olddir arg) oldname
                 (fuse_exchange_in.newdir arg) newname (fuse_exchange_in.options arg)
                 (Request.reply self))
  end.

(** The decision table of the handshake state machine. *)
Definition plan self se : Action :=
  let op := ll_request.operation (request self) in
  match op, phase se with
  | ll_request.Init arg, _ => Handshake arg
  | _, Uninitialized => Refuse EIO
  | ll_request.Destroy, _ => Teardown
  | _, Destroyed => Refuse EIO
  | _, Initialized => derive self op
  end.
End Derive.

(** The handshake: version check, the filesystem's [init] hook, the
    negotiated reply. *)
Definition handshake self se (arg : fuse_init_in.t) : outcome (Session FS * list Message) :=
  let major := fuse_init_in.major arg in
  let minor := fuse_init_in.minor arg in
  if decide (supported major minor) then
    let '(f, res) := fs.init (filesystem se) self in
    match res with
    | Ok _ =>
        Done (Session.mk f major minor true (destroyed se),
              [answer self 0 (InitOut (negotiated arg))])
    | Err e =>
        Done (Session.mk f major minor (initialized se) (destroyed se),
              [answer self e NoPayload])
    end
  else Done (se, [answer self EPROTO NoPayload]).

(** Carrying out an action. *)
Definition execute self se (a : Action) : outcome (Session FS * list Message) :=
  match a with
  | Handshake arg => handshake self se arg
  | Refuse e => Done (se, [answer self e NoPayload])
  | Teardown =>
      Done (Session.mk (fs.destroy (filesystem se) self) (proto_major se) (proto_minor se)
              (initialized se) true,
            [answer self 0 NoPayload])
  | Forward c =>
      let e := invoke (filesystem se) self c in
      Done (set_filesystem se e.1, e.2)
  | Abort p => Panicked p
  end.
End Spec.
