(* ===== verification/DispatchProps.v ===== *)
(** * The dispatcher implements its specification

    [dispatch] ([Dispatch]) against [plan] and [execute] ([Spec]): the
    library of lemmas that relate the source's forms (matches on masked
    values, [Duration::new] followed by an addition, nested guards) to the
    specification's (bits, instants, the phase table), and the refinement
    theorem built from them. *)

From Stdlib Require Import ZArith Lia.
From stdpp Require Import base tactics numbers list option.
From S2P Require Import Prelude Abi Time LlRequest Reply Request Filesystem Session.
From S2P Require Import Dispatch Spec.

#[local] Open Scope Z_scope.

(** ** Instants *)

Section Instants.
Implicit Types (s n : Z) (fb : SystemTime.t).

Lemma overflow_cases s n :
  overflow s n = DurationOverflow <-> 2 ^ 64 <= s + n / NANOS_PER_SEC.
Proof. unfold overflow. case_match eqn:E; [apply Z.ltb_lt in E|apply Z.ltb_ge in E]; split; (done || lia). Qed.

(** The epoch plus a normalised duration is the instant of the same
    seconds, when they fit. *)
Lemma checked_add_instant s n :
  s + n / NANOS_PER_SEC < 2 ^ 64 ->
  SystemTime.checked_add SystemTime.UNIX_EPOCH
    (Duration.mk (s + n / NANOS_PER_SEC) (n mod NANOS_PER_SEC)) = instant s n.
Proof.
  intros Hs. unfold SystemTime.checked_add, instant, SystemTime.UNIX_EPOCH. simpl.
  rewrite Z.add_0_l, Z.add_0_r.
  pose proof (Z.mod_pos_bound n NANOS_PER_SEC ltac:(done)).
  destruct (Z.ltb_spec (s + n / NANOS_PER_SEC) (2 ^ 63)); [|done].
  destruct (Z.leb_spec NANOS_PER_SEC (n mod NANOS_PER_SEC)); [lia|done].
Qed.

(** The source's [UNIX_EPOCH + Duration::new(s, n)]. *)
Lemma epoch_add s n :
  (d ← Duration.new s n; SystemTime.add SystemTime.UNIX_EPOCH d) = epoch_plus s n.
Proof.
  unfold Duration.new, epoch_plus, overflow.
  destruct (Z.ltb_spec (s + n / NANOS_PER_SEC) (2 ^ 64)) as [Hs|Hs]; simpl.
  - unfold SystemTime.add. rewrite checked_add_instant by done.
    by destruct (instant s n).
  - unfold instant. destruct (Z.ltb_spec (s + n / NANOS_PER_SEC) (2 ^ 63)); [lia|done].
Qed.

Lemma epoch_add_some s n :
  (d ← Duration.new s n; t ← SystemTime.add SystemTime.UNIX_EPOCH d; Done (Some t)) =
  Some <$> epoch_plus s n.
Proof.
  rewrite <- epoch_add. destruct (Duration.new s n) as [d|]; [simpl|done].
  by destruct (SystemTime.add SystemTime.UNIX_EPOCH d).
Qed.

(** The source's [UNIX_EPOCH.checked_add(Duration::new(s, n))] with its
    fallback to [SystemTime::now()]. *)
Lemma epoch_checked_add_clamped s n fb :
  (d ← Duration.new s n;
   Done (Some match SystemTime.checked_add SystemTime.UNIX_EPOCH d with
              | Some t => t
              | None => fb
              end)) = Some <$> epoch_plus_clamped fb s n.
Proof.
  unfold Duration.new, epoch_plus_clamped, overflow.
  destruct (Z.ltb_spec (s + n / NANOS_PER_SEC) (2 ^ 64)) as [Hs|Hs]; simpl.
  - rewrite checked_add_instant by done. by destruct (instant s n).
  - unfold instant. destruct (Z.ltb_spec (s + n / NANOS_PER_SEC) (2 ^ 63)); [lia|done].
Qed.
End Instants.

(** ** The handshake *)

Section Handshake.
Context `{Config}.
Implicit Types (arg : fuse_init_in.t).

Lemma unsupported_abi_spec arg :
  unsupported_abi arg =
  negb (bool_decide (supported (fuse_init_in.major arg) (fuse_init_in.minor arg))).
Proof.
  unfold unsupported_abi, supported.
  destruct (Z.ltb_spec (fuse_init_in.major arg) 7),
    (Z.eqb_spec (fuse_init_in.major arg) 7),
    (Z.ltb_spec (fuse_init_in.minor arg) 6); simpl;
    case_bool_decide; (done || lia).
Qed.

Lemma INIT_FLAGS_supported :
  INIT_FLAGS = foldr (fun k acc => acc .|. 2 ^ k) 0 supported_flags.
Proof. unfold INIT_FLAGS, supported_flags. by destruct target_os. Qed.

Lemma init_out_negotiated arg : init_out arg = negotiated arg.
Proof.
  unfold init_out, negotiated. rewrite INIT_FLAGS_supported. f_equal.
  unfold Z.min.
  destruct (Z.ltb_spec (as_u32 BUFFER_SIZE) (fuse_init_in.max_readahead arg)) as [Hlt|Hge].
  - by rewrite (proj2 (Z.compare_lt_iff _ _) Hlt).
  - destruct (Z.compare_spec (as_u32 BUFFER_SIZE) (fuse_init_in.max_readahead arg));
      (done || lia).
Qed.
End Handshake.

(** ** The arms against the specification *)

Section Arms.
Context `{Config} `{fs.Filesystem FS}.
Variable now : Clock.
Implicit Types (self : Request) (se : Session FS).

Lemma call_invoke self se (c : FsCall) :
  call se (invoke (filesystem se) self c) = execute self se (Forward c).
Proof. done. Qed.

Lemma dispatch_init_handshake self se arg :
  dispatch_init self se arg = handshake self se arg.
Proof.
  unfold dispatch_init, handshake. rewrite unsupported_abi_spec.
  case_bool_decide as Hs; rewrite decide_bool_decide; case_bool_decide;
    try done; simpl.
  destruct (fs.init (filesystem se) self) as [f [[]|e]]; [|done].
  by rewrite init_out_negotiated.
Qed.

(** A bind on the source's side is a bind on the specification's side. *)
Lemma execute_act_bind {A} self se (m : outcome A)
    (k1 : A -> Step FS) (k2 : A -> outcome FsCall) :
  (forall a, k1 a = execute self se (act (k2 a))) ->
  m ≫= k1 = execute self se (act (m ≫= k2)).
Proof. intros Hk. destruct m; [apply Hk|done]. Qed.

Lemma get_macos_setattr_spec (arg : fuse_setattr_in.t) :
  get_macos_setattr now arg = macos_fields now arg.
Proof.
  unfold get_macos_setattr, macos_fields. destruct target_os; [|done].
  unfold cfg_macos.get_macos_setattr, attr_crtime, attr_chgtime, attr_bkuptime, attr_flags.
  unfold FATTR_CRTIME, FATTR_CHGTIME, FATTR_BKUPTIME, FATTR_FLAGS, present_time, present.
  rewrite !match_land_shiftl by done.
  by rewrite !epoch_checked_add_clamped.
Qed.

Lemma dispatch_setattr_derive self se arg :
  dispatch_setattr now self se arg =
  execute self se (derive now self (ll_request.SetAttr arg)).
Proof.
  unfold dispatch_setattr. simpl. unfold setattr_call.
  unfold attr_mode, attr_uid, attr_gid, attr_size, attr_atime, attr_mtime, attr_fh.
  rewrite get_macos_setattr_spec.
  unfold FATTR_MODE, FATTR_UID, FATTR_GID, FATTR_SIZE, FATTR_ATIME, FATTR_MTIME, FATTR_FH.
  rewrite !match_land_shiftl by done. rewrite !epoch_add_some.
  do 2 (apply execute_act_bind; intros ?).
  apply execute_act_bind. by intros [[[crtime chgtime] bkuptime] flags].
Qed.

Lemma dispatch_destroy_teardown self se :
  dispatch_destroy self se = execute self se Teardown.
Proof. done. Qed.

(** A [u32] field cast to [usize] keeps its value. *)
Lemma as_usize_u32 (z : Z) : in_bits 32 z -> as_usize z = z.
Proof. intros Hz. apply as_unsigned_id. by apply (in_bits_mono 32). Qed.

(** [assert_eq!(data.len(), size as usize)] against the length test of the
    specification. *)
Lemma assert_len {A} (l : list A) (size : Z) (k : Step FS) (c : FsCall) self se :
  in_bits 32 size ->
  k = execute self se (Forward c) ->
  (_ ← assert (bool_decide (len l = as_usize size)); k) =
  execute self se (if decide (len l = size) then Forward c else Abort AssertionFailed).
Proof.
  intros Hs ->. rewrite as_usize_u32 by done.
  rewrite decide_bool_decide. by case_bool_decide.
Qed.

Lemma dispatch_write_derive self se arg data :
  fuse_write_in.ok arg ->
  dispatch_write self se arg data =
  execute self se (derive now self (ll_request.Write arg data)).
Proof. intros (_ & _ & Hs & _). by apply assert_len. Qed.

Lemma dispatch_setxattr_derive self se arg name value :
  fuse_setxattr_in.ok arg ->
  dispatch_setxattr self se arg name value =
  execute self se (derive now self (ll_request.SetXAttr arg name value)).
Proof.
  intros (Hs & _ & _). apply assert_len; [done|].
  unfold get_position. by destruct target_os.
Qed.

Lemma dispatch_readdir_derive self se arg :
  fuse_read_in.ok arg ->
  dispatch_readdir self se arg =
  execute self se (derive now self (ll_request.ReadDir arg)).
Proof.
  intros (_ & _ & Hs). unfold dispatch_readdir. by rewrite as_usize_u32.
Qed.

Lemma dispatch_release_derive self se arg :
  dispatch_release self se arg =
  execute self se (derive now self (ll_request.Release arg)).
Proof.
  unfold dispatch_release, release_flag_flush, FUSE_RELEASE_FLUSH. rewrite match_land_shiftl by done.
  unfold derive. by destruct (Z.testbit (fuse_release_in.release_flags arg) 0).
Qed.

Lemma dispatch_fsync_derive self se arg :
  dispatch_fsync self se arg =
  execute self se (derive now self (ll_request.FSync arg)).
Proof.
  unfold dispatch_fsync, fsync_flag_datasync. rewrite match_land_1. unfold derive.
  by destruct (Z.testbit (fuse_fsync_in.fsync_flags arg) 0).
Qed.

Lemma dispatch_fsyncdir_derive self se arg :
  dispatch_fsyncdir self se arg =
  execute self se (derive now self (ll_request.FSyncDir arg)).
Proof.
  unfold dispatch_fsyncdir, fsyncdir_flag_datasync. rewrite match_land_1. unfold derive.
  by destruct (Z.testbit (fuse_fsync_in.fsync_flags arg) 0).
Qed.

(** Every arm below the guards does what [derive] says. *)
Lemma dispatch_operation_derive self se op :
  ll_request.ok op ->
  dispatch_operation now self se op = execute self se (derive now self op).
Proof.
  intros Hok. destruct op; try done; simpl.
  - apply dispatch_setattr_derive.
  - by apply dispatch_write_derive.
  - apply dispatch_release_derive.
  - apply dispatch_fsync_derive.
  - by apply dispatch_setxattr_derive.
  - apply dispatch_init_handshake.
  - by apply dispatch_readdir_derive.
  - apply dispatch_fsyncdir_derive.
Qed.

(** *** Which arm [dispatch] selects *)

Lemma dispatch_Init self se arg :
  ll_request.operation (request self) = ll_request.Init arg ->
  dispatch now self se = dispatch_init self se arg.
Proof. unfold dispatch. by intros ->. Qed.

Lemma dispatch_uninitialized self se :
  initialized se = false ->
  ll_request.is_init (ll_request.operation (request self)) = false ->
  dispatch now self se = reject_before_init self se.
Proof.
  intros Hi Hop. unfold dispatch. rewrite Hi.
  by destruct (ll_request.operation (request self)).
Qed.

Lemma dispatch_Destroy self se :
  initialized se = true ->
  ll_request.operation (request self) = ll_request.Destroy ->
  dispatch now self se = dispatch_destroy self se.
Proof. unfold dispatch. by intros -> ->. Qed.

Lemma dispatch_destroyed self se :
  initialized se = true -> destroyed se = true ->
  ll_request.is_init (ll_request.operation (request self)) = false ->
  ll_request.is_destroy (ll_request.operation (request self)) = false ->
  dispatch now self se = reject_after_destroy self se.
Proof.
  intros Hi Hd Hop1 Hop2. unfold dispatch. rewrite Hi, Hd.
  by destruct (ll_request.operation (request self)).
Qed.

Lemma dispatch_live self se :
  initialized se = true -> destroyed se = false ->
  dispatch now self se =
  dispatch_operation now self se (ll_request.operation (request self)).
Proof.
  intros Hi Hd. unfold dispatch. rewrite Hi, Hd.
  by destruct (ll_request.operation (request self)).
Qed.

(** The selection as a case analysis: a property of what [dispatch]
    returns follows from the property of each arm, under the conditions
    under which the arm runs. *)
Lemma dispatch_cases (P : Step FS -> Prop) self se :
  (forall arg, ll_request.operation (request self) = ll_request.Init arg ->
     P (dispatch_init self se arg)) ->
  (ll_request.is_init (ll_request.operation (request self)) = false ->
   initialized se = false -> P (reject_before_init self se)) ->
  (ll_request.operation (request self) = ll_request.Destroy ->
   initialized se = true -> P (dispatch_destroy self se)) ->
  (ll_request.is_init (ll_request.operation (request self)) = false ->
   ll_request.is_destroy (ll_request.operation (request self)) = false ->
   initialized se = true -> destroyed se = true -> P (reject_after_destroy self se)) ->
  (ll_request.is_init (ll_request.operation (request self)) = false ->
   ll_request.is_destroy (ll_request.operation (request self)) = false ->
   initialized se = true -> destroyed se = false ->
   P (dispatch_operation now self se (ll_request.operation (request self)))) ->
  P (dispatch now self se).
Proof.
  intros HInit Hpre HDes Hpost Hlive.
  destruct (ll_request.is_init (ll_request.operation (request self))) eqn:Hi.
  { destruct (ll_request.operation (request self)) eqn:Hop; try done.
    rewrite (dispatch_Init _ _ _ Hop). by apply HInit. }
  destruct (initialized se) eqn:Hini;
    [|rewrite dispatch_uninitialized by done; by apply Hpre].
  destruct (ll_request.is_destroy (ll_request.operation (request self))) eqn:Hd.
  { destruct (ll_request.operation (request self)) eqn:Hop; try done.
    rewrite dispatch_Destroy by done. by apply HDes. }
  destruct (destroyed se) eqn:Hdes.
  - rewrite dispatch_destroyed by done. by apply Hpost.
  - rewrite dispatch_live by done. by apply Hlive.
Qed.

(** The same selection, read off the specification's table. *)
Lemma plan_Init self se arg :
  ll_request.operation (request self) = ll_request.Init arg ->
  plan now self se = Handshake arg.
Proof. unfold plan. by intros ->. Qed.

Lemma plan_uninitialized self se :
  initialized se = false ->
  ll_request.is_init (ll_request.operation (request self)) = false ->
  plan now self se = Refuse EIO.
Proof.
  intros Hi Hop. unfold plan, phase. rewrite Hi.
  by destruct (ll_request.operation (request self)).
Qed.

Lemma plan_Destroy self se :
  initialized se = true ->
  ll_request.operation (request self) = ll_request.Destroy ->
  plan now self se = Teardown.
Proof. unfold plan, phase. intros -> ->. by destruct (destroyed se). Qed.

Lemma plan_destroyed self se :
  initialized se = true -> destroyed se = true ->
  ll_request.is_init (ll_request.operation (request self)) = false ->
  ll_request.is_destroy (ll_request.operation (request self)) = false ->
  plan now self se = Refuse EIO.
Proof.
  intros Hi Hd Hop1 Hop2. unfold plan, phase. rewrite Hi, Hd.
  by destruct (ll_request.operation (request self)).
Qed.

Lemma plan_live self se :
  initialized se = true -> destroyed se = false ->
  plan now self se = derive now self (ll_request.operation (request self)).
Proof.
  intros Hi Hd. unfold plan, phase. rewrite Hi, Hd.
  by destruct (ll_request.operation (request self)).
Qed.

(** C1: [Request::dispatch] implements the specification: for every
    request whose integer fields are values of their types, in every
    session state, it returns what carrying out the planned action returns
    (the same session, the same messages in the same order, or the same
    panic). *)
Theorem dispatch_refines_spec self se :
  ll_request.ok (ll_request.operation (request self)) ->
  dispatch now self se = execute self se (plan now self se).
Proof.
  intros Hok.
  destruct (ll_request.operation (request self)) eqn:Hop;
    try (rewrite (dispatch_Init _ _ _ Hop), (plan_Init _ _ _ Hop);
         apply dispatch_init_handshake);
    destruct (initialized se) eqn:Hi;
    try (rewrite dispatch_uninitialized, plan_uninitialized by (done || by rewrite Hop); done);
    destruct (destroyed se) eqn:Hd;
    try (rewrite dispatch_live, plan_live by done;
         rewrite Hop in *; by apply dispatch_operation_derive);
    try (rewrite dispatch_Destroy, plan_Destroy by done; done);
    rewrite dispatch_destroyed, plan_destroyed by (done || by rewrite Hop); done.
Qed.
End Arms.

(** ** Concrete configurations and requests for the examples *)

Definition linux : Config :=
  {| target_os := OtherOs; FUSE_KERNEL_MINOR_VERSION := 8;
     BUFFER_SIZE := 65536; MAX_WRITE_SIZE := 16777216 |}.

Definition macos : Config :=
  {| target_os := MacOs; FUSE_KERNEL_MINOR_VERSION := 8;
     BUFFER_SIZE := 16781312; MAX_WRITE_SIZE := 16777216 |}.

Definition sample_header : fuse_in_header.t :=
  fuse_in_header.mk 64 0 77 1 1000 1000 4242 0.

Definition sample (op : ll_request.Operation) : Request :=
  Request.mk 3 [] (ll_request.mk sample_header op).

Definition sample_clock : Clock := fun _ => SystemTime.mk 1700000000 0.

(** A session before the handshake, and one after it, over the recording
    filesystem. *)
Definition fresh : Session Recorder.t := session.new (Recorder.empty (Ok tt)).

Definition live : Session Recorder.t :=
  Session.mk (Recorder.empty (Ok tt)) 7 31 true false.

Definition sample_write : ll_request.Operation :=
  ll_request.Write (fuse_write_in.mk 5 0 3 0) [104; 105; 33].

Lemma dispatch_refines_spec_witness :
  dispatch (H := linux) sample_clock (sample sample_write) live =
  execute (H := linux) (sample sample_write) live
    (plan (H := linux) sample_clock (sample sample_write) live).
Proof. apply (dispatch_refines_spec (H := linux)). vm_compute. intuition discriminate. Defined.
