(* ===== verification/SessionProps.v ===== *)
(** * The handshake and the sequencing rules, one request at a time

    What [dispatch] does to the session and to the channel for [Init], for
    [Destroy], and for every operation that arrives in the wrong phase. *)

From Stdlib Require Import ZArith Lia.
From stdpp Require Import base tactics numbers list option.
From S2P Require Import Prelude Abi Time LlRequest Reply Request Filesystem Session.
From S2P Require Import Dispatch Spec DispatchProps.

#[local] Open Scope Z_scope.

Section Handshake.
Context `{Config} `{fs.Filesystem FS}.
Variable now : Clock.
Implicit Types (self : Request) (se : Session FS) (arg : fuse_init_in.t).

(** C11: a handshake that announces a protocol version below 7.6 is
    answered with [EPROTO]; the filesystem's [init] hook is not called and
    the session, its recorded version included, is unchanged. *)
Theorem init_rejects_old_abi self se arg :
  ll_request.operation (request self) = ll_request.Init arg ->
  fuse_init_in.major arg < 7 \/
    (fuse_init_in.major arg = 7 /\ fuse_init_in.minor arg < 6) ->
  dispatch now self se = Done (se, [answer self EPROTO NoPayload]).
Proof.
  intros Hop Hold. rewrite (dispatch_Init _ _ _ _ Hop), dispatch_init_handshake.
  unfold handshake. case_decide as Hs; [|done].
  unfold supported in Hs. lia.
Qed.

(** C10: a handshake that announces version 7.6 or later, with an [init]
    hook that succeeds, records the announced version, sets [initialized],
    leaves [destroyed] as it was, and answers with the negotiated reply:
    this implementation's version, the smaller of the announced readahead
    and the receive buffer, the announced flags that are supported, and the
    maximal write size. *)
Theorem init_accepts self se arg f :
  ll_request.operation (request self) = ll_request.Init arg ->
  supported (fuse_init_in.major arg) (fuse_init_in.minor arg) ->
  fs.init (filesystem se) self = (f, Ok tt) ->
  dispatch now self se =
    Done (Session.mk f (fuse_init_in.major arg) (fuse_init_in.minor arg) true (destroyed se),
          [answer self 0 (InitOut
             {| fuse_init_out.major := 7;
                fuse_init_out.minor := FUSE_KERNEL_MINOR_VERSION;
                fuse_init_out.max_readahead :=
                  Z.min (as_u32 BUFFER_SIZE) (fuse_init_in.max_readahead arg);
                fuse_init_out.flags := fuse_init_in.flags arg .&. INIT_FLAGS;
                fuse_init_out.unused := 0;
                fuse_init_out.max_write := as_u32 MAX_WRITE_SIZE |})]).
Proof.
  intros Hop Hs Hinit. rewrite (dispatch_Init _ _ _ _ Hop), dispatch_init_handshake.
  unfold handshake. rewrite decide_True, Hinit by done.
  unfold negotiated. by rewrite <- INIT_FLAGS_supported.
Qed.

(** C26: when the filesystem's [init] hook fails, its error code is the
    reply and [initialized] keeps its value; the announced version has
    already been recorded in the session. *)
Theorem init_hook_failure self se arg f e :
  ll_request.operation (request self) = ll_request.Init arg ->
  supported (fuse_init_in.major arg) (fuse_init_in.minor arg) ->
  fs.init (filesystem se) self = (f, Err e) ->
  dispatch now self se =
    Done (Session.mk f (fuse_init_in.major arg) (fuse_init_in.minor arg)
            (initialized se) (destroyed se),
          [answer self e NoPayload]).
Proof.
  intros Hop Hs Hinit. rewrite (dispatch_Init _ _ _ _ Hop), dispatch_init_handshake.
  unfold handshake. by rewrite decide_True, Hinit.
Qed.
End Handshake.

Section Negotiation.
Context `{Config}.
Implicit Types (arg : fuse_init_in.t).

Lemma INIT_FLAGS_u32 : in_bits 32 INIT_FLAGS.
Proof. unfold INIT_FLAGS. destruct target_os; done. Qed.

Lemma INIT_FLAGS_testbit (k : Z) :
  Z.testbit INIT_FLAGS k = bool_decide (k ∈ supported_flags).
Proof.
  unfold INIT_FLAGS, cfg_macos.INIT_FLAGS, cfg_not_macos.INIT_FLAGS, supported_flags,
    FUSE_ASYNC_READ, FUSE_CASE_INSENSITIVE,
    FUSE_VOL_RENAME, FUSE_XTIMES.
  destruct (Z.ltb_spec k 0) as [Hk|Hk].
  { rewrite Z.testbit_neg_r by done. symmetry. apply bool_decide_eq_false.
    destruct target_os; rewrite !elem_of_cons, elem_of_nil; lia. }
  rewrite !shiftl_1_pow2 by done.
  destruct target_os.
  - rewrite !Z.lor_spec, !Z.pow2_bits_eqb by done.
    case_bool_decide as Hin; rewrite !elem_of_cons, elem_of_nil in Hin.
    + destruct Hin as [->|[->|[->|[->|[]]]]]; done.
    + repeat (destruct (Z.eqb_spec _ k)); try done; lia.
  - rewrite Z.pow2_bits_eqb by done.
    case_bool_decide as Hin; rewrite !elem_of_cons, elem_of_nil in Hin.
    + destruct Hin as [->|[]]; done.
    + destruct (Z.eqb_spec 0 k); try done; lia.
Qed.

(** The readahead of the reply: the smaller of the announced one and the
    receive buffer as a [u32]. *)
Lemma readahead_bounds arg :
  in_bits 32 (fuse_init_in.max_readahead arg) ->
  in_bits 32 (fuse_init_out.max_readahead (init_out arg)) /\
  fuse_init_out.max_readahead (init_out arg) <= fuse_init_in.max_readahead arg /\
  fuse_init_out.max_readahead (init_out arg) <= as_u32 BUFFER_SIZE.
Proof.
  intros Hra. pose proof (as_unsigned_range 32 BUFFER_SIZE ltac:(done)) as Hb. simpl.
  destruct (Z.ltb_spec (as_u32 BUFFER_SIZE) (fuse_init_in.max_readahead arg));
    unfold in_bits in *; lia.
Qed.

(** The handshake reply is a value of [fuse_init_out]. *)
Lemma init_out_ok arg :
  ConfigOk _ -> fuse_init_in.ok arg -> fuse_init_out.ok (init_out arg).
Proof.
  intros [Hminor Hbuf Hmax] (Hmaj & Hmin & Hra & Hfl).
  destruct (readahead_bounds arg Hra) as (Hr & _ & _).
  split; [by vm_compute|]. split; [done|]. split; [done|].
  split; [by apply land_in_bits|]. split; [by vm_compute|].
  by apply as_unsigned_range.
Qed.

(** C16: the negotiated values are within bounds: every field of the
    handshake reply is a [u32], the readahead exceeds neither the announced
    one nor the receive buffer, and a capability flag is granted exactly
    when the kernel announced it and this implementation supports it
    (asynchronous reads everywhere; case insensitivity, volume rename and
    extended times on macOS). *)
Theorem negotiation_bounds arg :
  ConfigOk _ -> fuse_init_in.ok arg ->
  fuse_init_out.ok (init_out arg) /\
  fuse_init_out.max_readahead (init_out arg) <= fuse_init_in.max_readahead arg /\
  fuse_init_out.max_readahead (init_out arg) <= as_u32 BUFFER_SIZE /\
  forall k, Z.testbit (fuse_init_out.flags (init_out arg)) k =
            Z.testbit (fuse_init_in.flags arg) k && bool_decide (k ∈ supported_flags).
Proof.
  intros Hc Hok. destruct (readahead_bounds arg) as (_ & Hr1 & Hr2); [apply Hok|].
  split; [by apply init_out_ok|]. split; [done|]. split; [done|].
  intros k. simpl. by rewrite Z.land_spec, INIT_FLAGS_testbit.
Qed.
End Negotiation.

Section Sequencing.
Context `{Config} `{fs.Filesystem FS}.
Variable now : Clock.
Implicit Types (self : Request) (se : Session FS).

(** C8: before the handshake has succeeded, every operation other than
    [Init] is answered with one [EIO] error bound to the request, and the
    session, its filesystem included, is left as it was. *)
Theorem before_init_rejected self se :
  initialized se = false ->
  ll_request.is_init (ll_request.operation (request self)) = false ->
  dispatch now self se = Done (se, [answer self EIO NoPayload]).
Proof. intros Hi Hop. by rewrite dispatch_uninitialized. Qed.

(** C9: after teardown, every operation other than [Init] and [Destroy] is
    answered with one [EIO] error and the session, its filesystem
    included, is left as it was. *)
Theorem after_destroy_rejected self se :
  initialized se = true -> destroyed se = true ->
  ll_request.is_init (ll_request.operation (request self)) = false ->
  ll_request.is_destroy (ll_request.operation (request self)) = false ->
  dispatch now self se = Done (se, [answer self EIO NoPayload]).
Proof. intros Hi Hd Hop1 Hop2. by rewrite dispatch_destroyed. Qed.

(** C25: [Destroy] in an initialized session calls the filesystem's
    [destroy] hook, sets [destroyed], changes nothing else, and answers
    with an empty success.  This holds whether or not the session was
    destroyed before: a repeated teardown runs the hook again. *)
Theorem destroy_tears_down self se :
  initialized se = true ->
  ll_request.operation (request self) = ll_request.Destroy ->
  dispatch now self se =
    Done (Session.mk (fs.destroy (filesystem se) self) (proto_major se) (proto_minor se)
            true true,
          [answer self 0 NoPayload]).
Proof.
  intros Hi Hop. rewrite dispatch_Destroy by done.
  unfold dispatch_destroy, set_destroyed, set_filesystem. simpl. by rewrite Hi.
Qed.

(** [Interrupt] in a live session is answered with [ENOSYS]; the
    filesystem is not called and the session is unchanged. *)
Theorem interrupt_not_implemented self se arg :
  initialized se = true -> destroyed se = false ->
  ll_request.operation (request self) = ll_request.Interrupt arg ->
  dispatch now self se = Done (se, [answer self ENOSYS NoPayload]).
Proof. intros Hi Hd Hop. rewrite dispatch_live by done. by rewrite Hop. Qed.

(** [Forget] in a live session calls the filesystem's [forget] with
    the node id and the lookup count and writes nothing to the channel. *)
Theorem forget_writes_nothing self se arg :
  initialized se = true -> destroyed se = false ->
  ll_request.operation (request self) = ll_request.Forget arg ->
  dispatch now self se =
    Done (set_filesystem se
            (fs.forget (filesystem se) self (ll_request.nodeid (request self))
               (fuse_forget_in.nlookup arg)), []).
Proof. intros Hi Hd Hop. rewrite dispatch_live by done. by rewrite Hop. Qed.
End Sequencing.

(** ** Concrete runs *)

Definition init_7_31 : ll_request.Operation :=
  ll_request.Init (fuse_init_in.mk 7 31 131072 3).

Definition init_7_5 : ll_request.Operation :=
  ll_request.Init (fuse_init_in.mk 7 5 131072 3).

Definition failing : Session Recorder.t := session.new (Recorder.empty (Err 13)).

Definition torn_down : Session Recorder.t :=
  Session.mk (Recorder.empty (Ok tt)) 7 31 true true.

Lemma init_rejects_old_abi_witness :
  dispatch (H := linux) sample_clock (sample init_7_5) fresh =
    Done (fresh, [mkMessage 3 77 71 NoPayload]).
Proof.
  apply (init_rejects_old_abi (H := linux) sample_clock (sample init_7_5) fresh
           (fuse_init_in.mk 7 5 131072 3)); [reflexivity|right; simpl; lia].
Defined.

(** Version 7.31 with a readahead of 131072 against a receive buffer of
    65536: the reply grants 65536 and the session is initialized. *)
Lemma init_accepts_witness :
  dispatch (H := linux) sample_clock (sample init_7_31) fresh =
    Done (Session.mk (Recorder.mk [EInit (sample init_7_31)] (Ok tt)) 7 31 true false,
          [mkMessage 3 77 0 (InitOut (fuse_init_out.mk 7 8 65536 1 0 16777216))]).
Proof.
  apply (init_accepts (H := linux) sample_clock (sample init_7_31) fresh
           (fuse_init_in.mk 7 31 131072 3));
    [reflexivity|right; simpl; lia|reflexivity].
Defined.

Lemma init_hook_failure_witness :
  dispatch (H := linux) sample_clock (sample init_7_31) failing =
    Done (Session.mk (Recorder.mk [EInit (sample init_7_31)] (Err 13)) 7 31 false false,
          [mkMessage 3 77 13 NoPayload]).
Proof.
  apply (init_hook_failure (H := linux) sample_clock (sample init_7_31) failing
           (fuse_init_in.mk 7 31 131072 3));
    [reflexivity|right; simpl; lia|reflexivity].
Defined.

Lemma linux_ok : ConfigOk linux.
Proof. split; vm_compute; intuition discriminate. Qed.

Lemma macos_ok : ConfigOk macos.
Proof. split; vm_compute; intuition discriminate. Qed.

Lemma negotiation_bounds_witness :
  fuse_init_out.max_readahead (init_out (H := macos) (fuse_init_in.mk 7 31 131072 3))
    <= 131072.
Proof.
  refine (proj1 (proj2 (negotiation_bounds (H := macos) (fuse_init_in.mk 7 31 131072 3)
                          macos_ok _))).
  vm_compute. intuition discriminate.
Defined.

Lemma before_init_rejected_witness :
  dispatch (H := linux) sample_clock (sample ll_request.GetAttr) fresh =
    Done (fresh, [mkMessage 3 77 5 NoPayload]).
Proof. apply (before_init_rejected (H := linux)); reflexivity. Defined.

Lemma after_destroy_rejected_witness :
  dispatch (H := linux) sample_clock (sample ll_request.GetAttr) torn_down =
    Done (torn_down, [mkMessage 3 77 5 NoPayload]).
Proof. apply (after_destroy_rejected (H := linux)); reflexivity. Defined.

Lemma destroy_tears_down_witness :
  dispatch (H := linux) sample_clock (sample ll_request.Destroy) live =
    Done (Session.mk (Recorder.mk [EDestroy (sample ll_request.Destroy)] (Ok tt))
            7 31 true true,
          [mkMessage 3 77 0 NoPayload]).
Proof.
  exact (destroy_tears_down (H := linux) sample_clock (sample ll_request.Destroy) live
           eq_refl eq_refl).
Defined.

Lemma interrupt_not_implemented_witness :
  dispatch (H := linux) sample_clock
    (sample (ll_request.Interrupt (fuse_interrupt_in.mk 76))) live =
    Done (live, [mkMessage 3 77 38 NoPayload]).
Proof.
  exact (interrupt_not_implemented (H := linux) sample_clock
           (sample (ll_request.Interrupt (fuse_interrupt_in.mk 76))) live
           (fuse_interrupt_in.mk 76) eq_refl eq_refl eq_refl).
Defined.

Lemma forget_writes_nothing_witness :
  dispatch (H := linux) sample_clock
    (sample (ll_request.Forget (fuse_forget_in.mk 2))) live =
    Done (Session.mk
            (Recorder.mk [ECall (sample (ll_request.Forget (fuse_forget_in.mk 2)))
                            (CForget 1 2)] (Ok tt)) 7 31 true false, []).
Proof.
  exact (forget_writes_nothing (H := linux) sample_clock
           (sample (ll_request.Forget (fuse_forget_in.mk 2))) live (fuse_forget_in.mk 2)
           eq_refl eq_refl eq_refl).
Defined.
