(* ===== verification/Logging.v ===== *)
(** * What the dispatcher logs ([request.rs], the calls of [log])

    [request.rs] logs through the macros [error!], [warn!] and [debug!]: a
    parse error in [Request::new]; in [Request::dispatch] the request, the
    arguments of a handshake, a protocol version it does not support, its
    handshake reply, and every operation it ignores before initialisation
    or after destruction.  A log record is a level and what is formatted;
    [dispatch_log] is the records of one call of [dispatch], in order.  The
    records do not depend on what the filesystem does for a call, and they
    are written before any panic of an arm, so the log of a call is a
    function of the request and the session.  The theorems relate the log
    to the replies: what is logged above the debug level is a refusal. *)

From Stdlib Require Import ZArith Lia.
From stdpp Require Import base tactics numbers list option.
From S2P Require Import Prelude Abi Time LlRequest Reply Request Filesystem Session.
From S2P Require Import Dispatch Spec DispatchProps SessionProps.

#[local] Open Scope Z_scope.

(** ** Records *)

(** The macros in use ([use log::{debug, error, warn}]). *)
Inductive Level : Type := LError | LWarn | LDebug.

(** The format string of a call and its arguments. *)
Inductive Text : Type :=
  | ParseError (err : RequestError)
  | Received (r : ll_request.Request)
  | InitArgs (arg : fuse_init_in.t)
  | UnsupportedAbi (major minor : Z)
  | InitResponse (major minor flags max_readahead max_write : Z)
  | BeforeInit (r : ll_request.Request)
  | AfterDestroy (r : ll_request.Request).

Record LogRecord : Type := mkLog { level : Level; text : Text }.

#[export] Instance Level_eq_dec : EqDecision Level.
Proof. solve_decision. Defined.

(** A record above the debug level. *)
Definition alarming (r : LogRecord) : bool :=
  match level r with LDebug => false | _ => true end.

(** ** The calls, by line *)

(** [error!("{}", err)] (line 51) *)
Definition log_parse_error (err : RequestError) : LogRecord :=
  mkLog LError (ParseError err).

(** [debug!("{}", self.request)] (line 63) *)
Definition log_request (self : Request) : LogRecord :=
  mkLog LDebug (Received (request self)).

(** [debug!("Init args: {:?}", arg)] (line 68) *)
Definition log_init_args (arg : fuse_init_in.t) : LogRecord :=
  mkLog LDebug (InitArgs arg).

(** [error!("Unsupported FUSE ABI version {}.{}", ..)] (line 72) *)
Definition log_unsupported_abi (arg : fuse_init_in.t) : LogRecord :=
  mkLog LError (UnsupportedAbi (fuse_init_in.major arg) (fuse_init_in.minor arg)).

(** [debug!("INIT response: ..", ..)] (lines 101-104) *)
Definition log_init_response (init : fuse_init_out.t) : LogRecord :=
  mkLog LDebug
    (InitResponse (fuse_init_out.major init) (fuse_init_out.minor init)
       (fuse_init_out.flags init) (fuse_init_out.max_readahead init)
       (fuse_init_out.max_write init)).

(** [warn!("Ignoring FUSE operation before init: {}", ..)] (line 110) *)
Definition log_before_init (self : Request) : LogRecord :=
  mkLog LWarn (BeforeInit (request self)).

(** [warn!("Ignoring FUSE operation after destroy: {}", ..)] (line 121) *)
Definition log_after_destroy (self : Request) : LogRecord :=
  mkLog LWarn (AfterDestroy (request self)).

(** ** The log of a call *)

(** What [Request::new] logs: the error of a buffer it rejects. *)
Definition new_log `{Parser} (data : bytes) : list LogRecord :=
  match try_from data with
  | Ok _ => []
  | Err err => [log_parse_error err]
  end.

Section Log.
Context `{Config} `{fs.Filesystem FS}.
Implicit Types (self : Request) (se : Session FS).

(** What the [Init] arm logs after the request: the arguments, then the
    unsupported version, or the reply when the [init] hook succeeded. *)
Definition dispatch_init_log self se (arg : fuse_init_in.t) : list LogRecord :=
  log_init_args arg ::
  if unsupported_abi arg then [log_unsupported_abi arg]
  else
    match (fs.init (filesystem se) self).2 with
    | Err _ => []
    | Ok _ => [log_init_response (init_out arg)]
    end.

(** What [Request::dispatch] logs. *)
Definition dispatch_log self se : list LogRecord :=
  log_request self ::
  match ll_request.operation (request self) with
  | ll_request.Init arg => dispatch_init_log self se arg
  | op =>
      if negb (initialized se) then [log_before_init self]
      else
        match op with
        | ll_request.Destroy => []
        | _ => if destroyed se then [log_after_destroy self] else []
        end
  end.

(** The requests that pass the version test and the sequencing guards. *)
Definition admitted self se : bool :=
  match ll_request.operation (request self) with
  | ll_request.Init arg => negb (unsupported_abi arg)
  | ll_request.Destroy => initialized se
  | _ => initialized se && negb (destroyed se)
  end.

(** ** The log against the guards *)

Lemma dispatch_init_log_alarming self se arg :
  existsb alarming (dispatch_init_log self se arg) = unsupported_abi arg.
Proof.
  unfold dispatch_init_log. simpl. destruct (unsupported_abi arg); [done|].
  by destruct (fs.init (filesystem se) self).2.
Qed.

(** Something is logged above the debug level exactly for the requests
    that are not admitted. *)
Lemma alarming_admitted self se :
  existsb alarming (dispatch_log self se) = negb (admitted self se).
Proof.
  unfold dispatch_log, admitted.
  destruct (ll_request.operation (request self));
    try (by destruct (initialized se), (destroyed se)).
  cbn [existsb alarming log_request level orb].
  by rewrite dispatch_init_log_alarming, negb_involutive.
Qed.

(** A request that is not admitted is refused: the session is left as it
    is and one error is sent, [EPROTO] for a handshake and [EIO] for
    everything else. *)
Lemma not_admitted_refused (now : Clock) self se :
  admitted self se = false ->
  dispatch now self se =
  Done (se, [answer self (if ll_request.is_init (ll_request.operation (request self))
                          then EPROTO else EIO) NoPayload]).
Proof.
  unfold admitted, dispatch.
  destruct (ll_request.operation (request self)) eqn:Hop;
    try (destruct (initialized se), (destroyed se); by try done).
  intros Hv%negb_false_iff. unfold dispatch_init. by rewrite Hv.
Qed.

(** A request the guards let through: the version of a handshake is
    supported; any other request is planned as its operation demands, the
    teardown or the derived call. *)
Definition handled (now : Clock) self se : Prop :=
  match ll_request.operation (request self) with
  | ll_request.Init arg => supported (fuse_init_in.major arg) (fuse_init_in.minor arg)
  | _ => plan now self se = derive now self (ll_request.operation (request self))
  end.

Lemma admitted_handled (now : Clock) self se :
  admitted self se = true -> handled now self se.
Proof.
  unfold admitted, handled, plan, phase.
  destruct (ll_request.operation (request self)) eqn:Hop;
    try (by destruct (initialized se), (destroyed se)).
  rewrite unsupported_abi_spec, negb_involutive. by intros ?%bool_decide_eq_true.
Qed.

(** C39: what is logged above the debug level is a refusal, and every
    refusal of the guards is logged.  When a call of [dispatch] logs a
    warning or an error, the session and the filesystem are left as they
    were and the request is answered with one error, [EPROTO] for a
    handshake and [EIO] otherwise.  When it logs nothing above the debug
    level, the version of a handshake is supported, and any other request
    is handled as its operation demands: teardown or the derived call. *)
Theorem alarms_are_refusals (now : Clock) self se :
  if existsb alarming (dispatch_log self se)
  then dispatch now self se =
       Done (se, [answer self (if ll_request.is_init (ll_request.operation (request self))
                               then EPROTO else EIO) NoPayload])
  else handled now self se.
Proof.
  rewrite alarming_admitted. destruct (admitted self se) eqn:Ha; simpl.
  - by apply admitted_handled.
  - by apply not_admitted_refused.
Qed.
End Log.

(** A buffer is rejected by [Request::new] exactly when it logs an error. *)
Lemma new_log_rejected `{Parser} (c : ChannelSender) (data : bytes) :
  Request.new c data = None <-> exists err, new_log data = [log_parse_error err].
Proof.
  unfold Request.new, new_log. destruct (try_from data) as [r|e]; split;
    try done; [by intros [? ?]|by eauto].
Qed.

(** ** Concrete logs *)

Example early_getattr_log :
  dispatch_log (H := linux) (sample ll_request.GetAttr) fresh =
  [log_request (sample ll_request.GetAttr); log_before_init (sample ll_request.GetAttr)].
Proof. reflexivity. Qed.

Example handshake_log :
  level <$> dispatch_log (H := linux) (sample init_7_31) fresh = [LDebug; LDebug; LDebug].
Proof. reflexivity. Qed.

Example old_handshake_log :
  level <$> dispatch_log (H := linux) (sample init_7_5) fresh = [LDebug; LDebug; LError].
Proof. reflexivity. Qed.

Lemma alarms_are_refusals_witness :
  dispatch (H := linux) sample_clock (sample ll_request.GetAttr) fresh =
  Done (fresh, [answer (sample ll_request.GetAttr) EIO NoPayload]).
Proof.
  exact (alarms_are_refusals (H := linux) sample_clock (sample ll_request.GetAttr) fresh).
Defined.
