(* ===== verification/DeriveProps.v ===== *)
(** * The argument derivations

    What the filesystem receives from a live session: optional fields read
    off validity bits, flags decomposed into booleans, casts, the integrity
    assertions of [write] and [setxattr], and the instants built from wire
    seconds and nanoseconds, overflow included. *)

From Stdlib Require Import ZArith Lia.
From stdpp Require Import base tactics numbers list option.
From S2P Require Import Prelude Abi Time LlRequest Reply Request Filesystem Session.
From S2P Require Import Dispatch Spec DispatchProps.

#[local] Open Scope Z_scope.

(** ** Shared lemmas on the specification's derivations *)

Section DeriveLemmas.
Implicit Types (valid bit s n : Z) (t : outcome SystemTime.t).

Lemma present_Some {A} valid bit (v : A) :
  is_Some (present valid bit v) <-> Z.testbit valid bit = true.
Proof.
  unfold present. destruct (Z.testbit valid bit); split;
    first [done | eauto | by intros [? ?]].
Qed.

Lemma present_time_Done valid bit t (o : option SystemTime.t) :
  present_time valid bit t = Done o -> (is_Some o <-> Z.testbit valid bit = true).
Proof.
  unfold present_time. destruct (Z.testbit valid bit).
  - destruct t; intros [= <-]. split; eauto.
  - intros [= <-]. split; [by intros [? ?]|done].
Qed.

Lemma present_time_clear valid bit t :
  Z.testbit valid bit = false -> present_time valid bit t = Done None.
Proof. unfold present_time. by intros ->. Qed.

Lemma present_time_set valid bit t :
  Z.testbit valid bit = true -> present_time valid bit t = Some <$> t.
Proof. unfold present_time. by intros ->. Qed.

Lemma present_clear {A} valid bit (v : A) :
  Z.testbit valid bit = false -> present valid bit v = None.
Proof. unfold present. by intros ->. Qed.

Lemma instant_None s n : instant s n = None <-> 2 ^ 63 <= s + n / NANOS_PER_SEC.
Proof.
  unfold instant. destruct (Z.ltb_spec (s + n / NANOS_PER_SEC) (2 ^ 63)); split;
    (done || lia).
Qed.

(** A time that fits an instant is that instant. *)
Lemma epoch_plus_fits s n :
  s + n / NANOS_PER_SEC < 2 ^ 63 ->
  epoch_plus s n = Done (SystemTime.mk (s + n / NANOS_PER_SEC) (n mod NANOS_PER_SEC)).
Proof.
  intros Hs. unfold epoch_plus, instant.
  by destruct (Z.ltb_spec (s + n / NANOS_PER_SEC) (2 ^ 63)); [|lia].
Qed.

(** A time field under its validity bit, where it fits an instant if it
    is present. *)
Lemma present_instant valid bit s n :
  (Z.testbit valid bit = true -> s + n / NANOS_PER_SEC < 2 ^ 63) ->
  (if Z.testbit valid bit then Some <$> epoch_plus s n else Done None) =
  Done (if Z.testbit valid bit
        then Some (SystemTime.mk (s + n / NANOS_PER_SEC) (n mod NANOS_PER_SEC))
        else None).
Proof.
  destruct (Z.testbit valid bit); [|done]. intros Hs. by rewrite epoch_plus_fits by auto.
Qed.

Lemma epoch_plus_overflow s n :
  2 ^ 63 <= s + n / NANOS_PER_SEC -> epoch_plus s n = Panicked (overflow s n).
Proof. intros Hs. unfold epoch_plus. by rewrite (proj2 (instant_None s n) Hs). Qed.

Lemma epoch_plus_clamped_fallback (fb : SystemTime.t) s n :
  2 ^ 63 <= s + n / NANOS_PER_SEC < 2 ^ 64 -> epoch_plus_clamped fb s n = Done fb.
Proof.
  intros [Hlo Hhi]. unfold epoch_plus_clamped, overflow.
  rewrite (proj2 (instant_None s n) Hlo).
  by destruct (Z.ltb_spec (s + n / NANOS_PER_SEC) (2 ^ 64)); [|lia].
Qed.

Lemma epoch_plus_clamped_overflow (fb : SystemTime.t) s n :
  2 ^ 64 <= s + n / NANOS_PER_SEC ->
  epoch_plus_clamped fb s n = Panicked DurationOverflow.
Proof.
  intros Hs. unfold epoch_plus_clamped, overflow.
  rewrite (proj2 (instant_None s n)) by lia.
  by destruct (Z.ltb_spec (s + n / NANOS_PER_SEC) (2 ^ 64)); [lia|].
Qed.
End DeriveLemmas.

(** The low bits of the validity mask with only the size bit set. *)
Lemma testbit_8 (k : Z) : Z.testbit 8 k = (3 =? k).
Proof. change 8 with (2 ^ 3). by apply Z.pow2_bits_eqb. Qed.

Section Derive.
Context `{Config} `{fs.Filesystem FS}.
Variable now : Clock.
Implicit Types (self : Request) (se : Session FS).

(** The [SetAttr] arm of a live session, on the specification's side. *)
Lemma dispatch_live_setattr self se arg :
  initialized se = true -> destroyed se = false ->
  ll_request.operation (request self) = ll_request.SetAttr arg ->
  dispatch now self se = execute self se (act (setattr_call now self arg)).
Proof.
  intros Hi Hd Hop. rewrite dispatch_live, Hop by done. apply dispatch_setattr_derive.
Qed.

(** C22: [setattr] passes each attribute as present exactly when its
    validity bit is set: mode, uid, gid, size and file handle are
    [Some] of the wire field under bits 0, 1, 2, 3 and 6 and [None]
    otherwise, and the times under bits 4 and 5 likewise, whenever the
    arm returns. *)
Theorem setattr_presence self se arg se' msgs :
  initialized se = true -> destroyed se = false ->
  ll_request.operation (request self) = ll_request.SetAttr arg ->
  dispatch now self se = Done (se', msgs) ->
  let valid := fuse_setattr_in.valid arg in
  exists atime mtime crtime chgtime bkuptime flags,
    (se', msgs) =
      (let e := fs.setattr (filesystem se) self (ll_request.nodeid (request self))
                  (if Z.testbit valid 0 then Some (fuse_setattr_in.mode arg) else None)
                  (if Z.testbit valid 1 then Some (fuse_setattr_in.uid arg) else None)
                  (if Z.testbit valid 2 then Some (fuse_setattr_in.gid arg) else None)
                  (if Z.testbit valid 3 then Some (fuse_setattr_in.size arg) else None)
                  atime mtime
                  (if Z.testbit valid 6 then Some (fuse_setattr_in.fh arg) else None)
                  crtime chgtime bkuptime flags (Request.reply self)
       in (set_filesystem se e.1, e.2)) /\
    (is_Some atime <-> Z.testbit valid 4 = true) /\
    (is_Some mtime <-> Z.testbit valid 5 = true).
Proof.
  intros Hi Hd Hop. rewrite (dispatch_live_setattr _ _ _ Hi Hd Hop).
  unfold setattr_call.
  destruct (present_time _ 4 _) as [atime|] eqn:Ea; [|done].
  destruct (present_time _ 5 _) as [mtime|] eqn:Em; [|done].
  destruct (macos_fields now arg) as [[[[crtime chgtime] bkuptime] flags]|]; [|done].
  simpl. intros [= <- <-]. exists atime, mtime, crtime, chgtime, bkuptime, flags.
  split; [done|]. split; by eapply present_time_Done.
Qed.

(** With only the size bit set in the validity mask, [setattr]
    receives the size and nothing else: every other attribute is [None],
    on every platform. *)
Theorem setattr_size_only self se arg :
  initialized se = true -> destroyed se = false ->
  ll_request.operation (request self) = ll_request.SetAttr arg ->
  fuse_setattr_in.valid arg = FATTR_SIZE ->
  dispatch now self se =
    call se (fs.setattr (filesystem se) self (ll_request.nodeid (request self))
               None None None (Some (fuse_setattr_in.size arg)) None None None
               None None None None (Request.reply self)).
Proof.
  intros Hi Hd Hop Hv. rewrite (dispatch_live_setattr _ _ _ Hi Hd Hop).
  unfold setattr_call, macos_fields, present_time, present. rewrite Hv.
  change FATTR_SIZE with 8. rewrite !testbit_8.
  by destruct target_os.
Qed.

(** C23: the whole of [setattr] off macOS.  Where the times that are
    present fit an instant, [setattr] is called, once, with the node id of
    the header; with mode, uid, gid, size and file handle each present
    exactly under its validity bit (0, 1, 2, 3, 6); with the access and
    modification times, under bits 4 and 5, as the instants [atime] and
    [mtime] seconds after the epoch, the whole seconds of the nanosecond
    field carried into the seconds; and with no macOS attribute, whatever
    the mask says. *)
Theorem setattr_times self se arg :
  target_os = OtherOs ->
  initialized se = true -> destroyed se = false ->
  ll_request.operation (request self) = ll_request.SetAttr arg ->
  let valid := fuse_setattr_in.valid arg in
  let after_epoch s n := SystemTime.mk (s + n / NANOS_PER_SEC) (n mod NANOS_PER_SEC) in
  (Z.testbit valid 4 = true ->
   fuse_setattr_in.atime arg + fuse_setattr_in.atimensec arg / NANOS_PER_SEC < 2 ^ 63) ->
  (Z.testbit valid 5 = true ->
   fuse_setattr_in.mtime arg + fuse_setattr_in.mtimensec arg / NANOS_PER_SEC < 2 ^ 63) ->
  dispatch now self se =
    call se (fs.setattr (filesystem se) self (ll_request.nodeid (request self))
               (if Z.testbit valid 0 then Some (fuse_setattr_in.mode arg) else None)
               (if Z.testbit valid 1 then Some (fuse_setattr_in.uid arg) else None)
               (if Z.testbit valid 2 then Some (fuse_setattr_in.gid arg) else None)
               (if Z.testbit valid 3 then Some (fuse_setattr_in.size arg) else None)
               (if Z.testbit valid 4
                then Some (after_epoch (fuse_setattr_in.atime arg)
                             (fuse_setattr_in.atimensec arg))
                else None)
               (if Z.testbit valid 5
                then Some (after_epoch (fuse_setattr_in.mtime arg)
                             (fuse_setattr_in.mtimensec arg))
                else None)
               (if Z.testbit valid 6 then Some (fuse_setattr_in.fh arg) else None)
               None None None None (Request.reply self)).
Proof.
  intros Hos Hi Hd Hop valid after_epoch Ha Hm.
  rewrite (dispatch_live_setattr _ _ _ Hi Hd Hop).
  unfold setattr_call, macos_fields, present_time, present. rewrite Hos. fold valid.
  rewrite (present_instant valid 4), (present_instant valid 5) by done.
  by destruct (Z.testbit valid 4), (Z.testbit valid 5).
Qed.

(** C27: an access time whose seconds, after carrying the nanoseconds, do
    not fit the signed 64-bit seconds of an instant makes [setattr] panic
    before the filesystem is called: the time is not clamped. *)
Theorem setattr_atime_overflow_panics self se arg :
  initialized se = true -> destroyed se = false ->
  ll_request.operation (request self) = ll_request.SetAttr arg ->
  Z.testbit (fuse_setattr_in.valid arg) 4 = true ->
  2 ^ 63 <= fuse_setattr_in.atime arg + fuse_setattr_in.atimensec arg / NANOS_PER_SEC ->
  dispatch now self se =
    Panicked (overflow (fuse_setattr_in.atime arg) (fuse_setattr_in.atimensec arg)).
Proof.
  intros Hi Hd Hop Hbit Hov. rewrite (dispatch_live_setattr _ _ _ Hi Hd Hop).
  unfold setattr_call. by rewrite (present_time_set _ 4 _ Hbit), (epoch_plus_overflow _ _ Hov).
Qed.

(** C28: on macOS a creation time that does not fit an instant but whose
    duration fits [u64] seconds is replaced by the clock's reading; one
    whose duration overflows [u64] seconds panics. *)
Theorem crtime_clamped_or_panics arg :
  target_os = MacOs ->
  Z.testbit (fuse_setattr_in.valid arg) 28 = true ->
  let s := fuse_setattr_in.crtime arg + fuse_setattr_in.crtimensec arg / NANOS_PER_SEC in
  (2 ^ 64 <= s -> get_macos_setattr now arg = Panicked DurationOverflow) /\
  (2 ^ 63 <= s < 2 ^ 64 ->
   forall r, get_macos_setattr now arg = Done r -> r.1.1.1 = Some (now 0%nat)).
Proof.
  intros Hos Hbit s. rewrite get_macos_setattr_spec. unfold macos_fields.
  rewrite Hos, (present_time_set _ 28 _ Hbit). split.
  - intros Hs. by rewrite (epoch_plus_clamped_overflow _ _ _ Hs).
  - intros Hs r. rewrite (epoch_plus_clamped_fallback _ _ _ Hs). simpl.
    destruct (present_time _ 29 _) as [chgtime|]; [simpl|done].
    destruct (present_time _ 30 _) as [bkuptime|]; [simpl|done].
    by intros [= <-].
Qed.

(** Off macOS the four extended attributes of [setattr] are absent whatever
    the validity mask says, and their derivation cannot panic. *)
Lemma get_macos_setattr_elsewhere arg :
  target_os = OtherOs ->
  get_macos_setattr now arg = Done (None, None, None, None).
Proof. intros Hos. unfold get_macos_setattr. by rewrite Hos. Qed.

(** C21: [write] is forwarded, with the offset read as signed, exactly when
    the payload is as long as the declared size; otherwise the arm panics
    on its assertion and the filesystem is not called. *)
Theorem write_checks_length self se arg data :
  initialized se = true -> destroyed se = false ->
  ll_request.operation (request self) = ll_request.Write arg data ->
  fuse_write_in.ok arg ->
  dispatch now self se =
    if decide (len data = fuse_write_in.size arg)
    then call se (fs.write (filesystem se) self (ll_request.nodeid (request self))
                    (fuse_write_in.fh arg) (as_i64 (fuse_write_in.offset arg)) data
                    (fuse_write_in.write_flags arg) (Request.reply self))
    else Panicked AssertionFailed.
Proof.
  intros Hi Hd Hop Hok. rewrite dispatch_live, Hop by done. simpl.
  rewrite (dispatch_write_derive now) by done. simpl. by case_decide.
Qed.

(** C34: [setxattr] is forwarded exactly when the value is as long as the
    declared size, with the position of the wire on macOS and zero
    elsewhere; otherwise the arm panics on its assertion. *)
Theorem setxattr_checks_length self se arg name value :
  initialized se = true -> destroyed se = false ->
  ll_request.operation (request self) = ll_request.SetXAttr arg name value ->
  fuse_setxattr_in.ok arg ->
  dispatch now self se =
    if decide (len value = fuse_setxattr_in.size arg)
    then call se (fs.setxattr (filesystem se) self (ll_request.nodeid (request self))
                    name value (fuse_setxattr_in.flags arg)
                    (match target_os with
                     | MacOs => fuse_setxattr_in.position arg
                     | OtherOs => 0
                     end) (Request.reply self))
    else Panicked AssertionFailed.
Proof.
  intros Hi Hd Hop Hok. rewrite dispatch_live, Hop by done. simpl.
  rewrite (dispatch_setxattr_derive now) by done. simpl.
  case_decide; [|done]. by destruct target_os.
Qed.

(** C36: [fsync] and [fsyncdir] receive [datasync] as bit 0 of the wire
    flags, true for odd flags and false for even ones, with the node id of
    the header and the file handle of the argument. *)
Theorem fsync_datasync self se arg :
  initialized se = true -> destroyed se = false ->
  (ll_request.operation (request self) = ll_request.FSync arg ->
   dispatch now self se =
     call se (fs.fsync (filesystem se) self (ll_request.nodeid (request self))
                (fuse_fsync_in.fh arg) (Z.odd (fuse_fsync_in.fsync_flags arg))
                (Request.reply self))) /\
  (ll_request.operation (request self) = ll_request.FSyncDir arg ->
   dispatch now self se =
     call se (fs.fsyncdir (filesystem se) self (ll_request.nodeid (request self))
                (fuse_fsync_in.fh arg) (Z.odd (fuse_fsync_in.fsync_flags arg))
                (Request.reply self))).
Proof.
  intros Hi Hd. rewrite dispatch_live by done.
  split; intros ->; simpl; [rewrite (dispatch_fsync_derive now)|rewrite (dispatch_fsyncdir_derive now)];
    by rewrite <- Z.bit0_odd.
Qed.

(** C37: [release] receives [flush] as the [FUSE_RELEASE_FLUSH] bit of
    the release flags, and the open flags, handle and lock owner
    unchanged. *)
Theorem release_flush self se arg :
  initialized se = true -> destroyed se = false ->
  ll_request.operation (request self) = ll_request.Release arg ->
  dispatch now self se =
    call se (fs.release (filesystem se) self (ll_request.nodeid (request self))
               (fuse_release_in.fh arg) (fuse_release_in.flags arg)
               (fuse_release_in.lock_owner arg)
               (Z.odd (fuse_release_in.release_flags arg)) (Request.reply self)).
Proof.
  intros Hi Hd Hop. rewrite dispatch_live, Hop by done. simpl.
  rewrite (dispatch_release_derive now). by rewrite <- Z.bit0_odd.
Qed.

(** C35: [read] receives the wire offset read as a signed 64-bit integer:
    the value itself below 2^63, and the value minus 2^64 from there on. *)
Theorem read_offset_signed self se arg :
  initialized se = true -> destroyed se = false ->
  ll_request.operation (request self) = ll_request.Read arg ->
  fuse_read_in.ok arg ->
  let offset := fuse_read_in.offset arg in
  dispatch now self se =
    call se (fs.read (filesystem se) self (ll_request.nodeid (request self))
               (fuse_read_in.fh arg)
               (if decide (offset < 2 ^ 63) then offset else offset - 2 ^ 64)
               (fuse_read_in.size arg) (Request.reply self)).
Proof.
  intros Hi Hd Hop (_ & [Ho0 Ho1] & _) offset. rewrite dispatch_live, Hop by done.
  simpl. unfold dispatch_read. case_decide.
  - by rewrite as_signed_small.
  - rewrite as_signed_large; [done..|]. fold offset. simpl. lia.
Qed.

(** C38: [readdir] receives a directory reply bound to the request, empty,
    whose capacity is the size the kernel asked for; whatever entries the
    filesystem appends to it, the reply stays bound to the request and its
    data never exceeds that size. *)
Theorem readdir_budget self se arg :
  initialized se = true -> destroyed se = false ->
  ll_request.operation (request self) = ll_request.ReadDir arg ->
  fuse_read_in.ok arg ->
  let r := ReplyDirectory.mk (Reply.mk (Request.unique self) (ch self))
             (fuse_read_in.size arg) [] in
  dispatch now self se =
    call se (fs.readdir (filesystem se) self (ll_request.nodeid (request self))
               (fuse_read_in.fh arg) (as_i64 (fuse_read_in.offset arg)) r) /\
  forall entries : list bytes,
    dir_binding (fill r entries) = request_binding self /\
    len (ReplyDirectory.data (fill r entries)) <= fuse_read_in.size arg.
Proof.
  intros Hi Hd Hop Hok r. split.
  - rewrite dispatch_live, Hop by done. simpl. by rewrite (dispatch_readdir_derive now).
  - intros entries. destruct (fill_spec r entries) as (Hr & Hc & Hw).
    unfold dir_binding. rewrite Hr. split; [done|].
    unfold within in Hw. rewrite Hc in Hw. apply Hw. by destruct Hok as (_ & _ & [? _]).
Qed.
End Derive.

(** ** Concrete runs *)

Definition setattr_arg (valid size atime atimensec crtime : Z) : fuse_setattr_in.t :=
  fuse_setattr_in.mk valid 0 9 size 0 atime 0 0 atimensec 0 0 420 0 1000 1000 0
    0 0 crtime 0 0 0 0.

Definition result_of (s : Step Recorder.t) : Session Recorder.t * list Message :=
  match s with Done r => r | Panicked _ => (live, []) end.

Definition setattr_17 : Request := sample (ll_request.SetAttr (setattr_arg 17 0 1000 5 0)).

Lemma setattr_presence_witness :
  exists atime mtime : option SystemTime.t,
    (is_Some atime <-> Z.testbit 17 4 = true) /\ (is_Some mtime <-> Z.testbit 17 5 = true).
Proof.
  destruct (setattr_presence (H := linux) sample_clock setattr_17 live
              (setattr_arg 17 0 1000 5 0)
              (result_of (dispatch (H := linux) sample_clock setattr_17 live)).1
              (result_of (dispatch (H := linux) sample_clock setattr_17 live)).2
              eq_refl eq_refl eq_refl eq_refl)
    as (atime & mtime & _ & _ & _ & _ & _ & Ha & Hm).
  exists atime, mtime. exact (conj Ha Hm).
Defined.

Definition setattr_size : Request := sample (ll_request.SetAttr (setattr_arg 8 4096 0 0 0)).

Lemma setattr_size_only_witness :
  dispatch (H := macos) sample_clock setattr_size live =
    Done (Session.mk
            (Recorder.mk
               [ECall setattr_size
                  (CSetattr 1 None None None (Some 4096) None None None None None None None
                     (Reply.mk 77 3))] (Ok tt)) 7 31 true false,
          [mkMessage 3 77 0 NoPayload]).
Proof.
  exact (setattr_size_only (H := macos) sample_clock setattr_size live
           (setattr_arg 8 4096 0 0 0) eq_refl eq_refl eq_refl eq_refl).
Defined.

(** Size and access time, one and a half seconds' worth of nanoseconds:
    the whole second is carried. *)
Definition setattr_carry : Request :=
  sample (ll_request.SetAttr (setattr_arg 24 4096 100 1500000000 0)).

Lemma setattr_times_witness :
  dispatch (H := linux) sample_clock setattr_carry live =
    Done (Session.mk
            (Recorder.mk
               [ECall setattr_carry
                  (CSetattr 1 None None None (Some 4096)
                     (Some (SystemTime.mk 101 500000000)) None None None None None None
                     (Reply.mk 77 3))] (Ok tt)) 7 31 true false,
          [mkMessage 3 77 0 NoPayload]).
Proof.
  exact (setattr_times (H := linux) sample_clock setattr_carry live
           (setattr_arg 24 4096 100 1500000000 0) eq_refl eq_refl eq_refl eq_refl
           (fun _ => eq_refl) (fun _ => eq_refl)).
Defined.

Definition setattr_far : Request :=
  sample (ll_request.SetAttr (setattr_arg 16 0 (2 ^ 63) 0 0)).

Lemma setattr_atime_overflow_panics_witness :
  dispatch (H := linux) sample_clock setattr_far live = Panicked InstantOverflow.
Proof.
  refine (setattr_atime_overflow_panics (H := linux) sample_clock setattr_far live
            (setattr_arg 16 0 (2 ^ 63) 0 0) eq_refl eq_refl eq_refl eq_refl _).
  vm_compute. discriminate.
Defined.

Lemma crtime_clamped_or_panics_witness :
  get_macos_setattr (H := macos) sample_clock (setattr_arg (2 ^ 28) 0 0 0 (2 ^ 64)) =
    Panicked DurationOverflow.
Proof.
  refine (proj1 (crtime_clamped_or_panics (H := macos) sample_clock
                   (setattr_arg (2 ^ 28) 0 0 0 (2 ^ 64)) eq_refl eq_refl) _).
  vm_compute. discriminate.
Defined.

Definition short_write : Request :=
  sample (ll_request.Write (fuse_write_in.mk 5 0 3 0) [104; 105]).

Lemma write_checks_length_witness :
  dispatch (H := linux) sample_clock short_write live = Panicked AssertionFailed.
Proof.
  refine (write_checks_length (H := linux) sample_clock short_write live
            (fuse_write_in.mk 5 0 3 0) [104; 105] eq_refl eq_refl eq_refl _).
  vm_compute. intuition discriminate.
Defined.

Definition sample_setxattr : Request :=
  sample (ll_request.SetXAttr (fuse_setxattr_in.mk 2 0 7 0) [117] [1; 2]).

Lemma setxattr_checks_length_witness :
  dispatch (H := linux) sample_clock sample_setxattr live =
    Done (Session.mk
            (Recorder.mk
               [ECall sample_setxattr (CSetxattr 1 [117] [1; 2] 0 0 (Reply.mk 77 3))]
               (Ok tt)) 7 31 true false,
          [mkMessage 3 77 0 NoPayload]).
Proof.
  refine (setxattr_checks_length (H := linux) sample_clock sample_setxattr live
            (fuse_setxattr_in.mk 2 0 7 0) [117] [1; 2] eq_refl eq_refl eq_refl _).
  vm_compute. intuition discriminate.
Defined.

Definition sample_fsync : Request := sample (ll_request.FSync (fuse_fsync_in.mk 5 1 0)).

Lemma fsync_datasync_witness :
  dispatch (H := linux) sample_clock sample_fsync live =
    Done (Session.mk
            (Recorder.mk [ECall sample_fsync (CFsync 1 5 true (Reply.mk 77 3))] (Ok tt))
            7 31 true false,
          [mkMessage 3 77 0 NoPayload]).
Proof.
  exact (proj1 (fsync_datasync (H := linux) sample_clock sample_fsync live
                  (fuse_fsync_in.mk 5 1 0) eq_refl eq_refl) eq_refl).
Defined.

Definition sample_release : Request :=
  sample (ll_request.Release (fuse_release_in.mk 5 2 1 9)).

Lemma release_flush_witness :
  dispatch (H := linux) sample_clock sample_release live =
    Done (Session.mk
            (Recorder.mk [ECall sample_release (CRelease 1 5 2 9 true (Reply.mk 77 3))]
               (Ok tt)) 7 31 true false,
          [mkMessage 3 77 0 NoPayload]).
Proof.
  exact (release_flush (H := linux) sample_clock sample_release live
           (fuse_release_in.mk 5 2 1 9) eq_refl eq_refl eq_refl).
Defined.

Definition sample_read : Request :=
  sample (ll_request.Read (fuse_read_in.mk 5 (2 ^ 64 - 1) 4096 0)).

Lemma read_offset_signed_witness :
  dispatch (H := linux) sample_clock sample_read live =
    Done (Session.mk
            (Recorder.mk [ECall sample_read (CRead 1 5 (-1) 4096 (Reply.mk 77 3))]
               (Ok tt)) 7 31 true false,
          [mkMessage 3 77 0 NoPayload]).
Proof.
  refine (read_offset_signed (H := linux) sample_clock sample_read live
            (fuse_read_in.mk 5 (2 ^ 64 - 1) 4096 0) eq_refl eq_refl eq_refl _).
  vm_compute. intuition discriminate.
Defined.

Definition sample_readdir : Request :=
  sample (ll_request.ReadDir (fuse_read_in.mk 5 0 4096 0)).

Definition sample_entry : bytes := [1; 0; 0; 0; 0; 0; 0; 0; 46; 0; 0; 0; 0; 0; 0; 0].

Lemma readdir_budget_witness :
  dispatch (H := linux) sample_clock sample_readdir live =
    Done (Session.mk
            (Recorder.mk
               [ECall sample_readdir
                  (CReaddir 1 5 0 (ReplyDirectory.mk (Reply.mk 77 3) 4096 []))]
               (Ok tt)) 7 31 true false,
          [mkMessage 3 77 0 NoPayload]) /\
  len (ReplyDirectory.data
         (fill (ReplyDirectory.mk (Reply.mk 77 3) 4096 []) (replicate 300 sample_entry)))
    <= 4096.
Proof.
  destruct (readdir_budget (H := linux) sample_clock sample_readdir live
              (fuse_read_in.mk 5 0 4096 0) eq_refl eq_refl eq_refl) as [Hd Hfill].
  - vm_compute. intuition discriminate.
  - split; [exact Hd|]. exact (proj2 (Hfill (replicate 300 sample_entry))).
Defined.
