(* ===== verification/ReplyProps.v ===== *)
(** * The reply discipline

    A request is answered at most once, and with its own correlation id.
    The dispatcher's own replies (handshake, teardown, sequencing errors,
    interrupt) are exactly one message; a forwarded operation is answered by
    the filesystem, through the reply object the dispatcher built for it.
    The first part needs nothing of the filesystem; the second holds for
    every filesystem that satisfies [FilesystemLaws]. *)

From Stdlib Require Import ZArith Lia.
From stdpp Require Import base tactics numbers list option.
From S2P Require Import Prelude Abi Time LlRequest Reply Request Filesystem Session.
From S2P Require Import Dispatch Spec DispatchProps.

#[local] Open Scope Z_scope.

(** An action is bound to a request when the call it forwards, if any,
    carries no reply object or one bound to that request. *)
Definition bound (self : Request) (a : Action) : Prop :=
  match a with
  | Forward c => call_binding c = None \/ call_binding c = Some (request_binding self)
  | _ => True
  end.

Definition is_handshake (a : Action) : Prop :=
  match a with Handshake _ => True | _ => False end.

Section Discipline.
Context `{Config} `{fs.Filesystem FS}.
Variable now : Clock.
Implicit Types (self : Request) (se : Session FS) (a : Action).

Lemma setattr_call_bound self arg :
  bound self (act (setattr_call now self arg)).
Proof.
  unfold setattr_call.
  destruct (present_time _ 4 _); [simpl|done].
  destruct (present_time _ 5 _); [simpl|done].
  destruct (macos_fields now arg) as [[[[? ?] ?] ?]|]; [simpl|done].
  by right.
Qed.

Lemma setattr_call_plain self arg : ~ is_handshake (act (setattr_call now self arg)).
Proof. destruct (setattr_call now self arg); simpl; auto. Qed.

Lemma derive_bound self op : bound self (derive now self op).
Proof.
  destruct op; simpl; try done; try (by right); try (by left);
    try (case_decide; [by right|done]).
  apply setattr_call_bound.
Qed.

Lemma derive_not_handshake self op :
  ll_request.is_init op = false -> ~ is_handshake (derive now self op).
Proof.
  destruct op; try done; intros _; simpl; try case_decide; auto.
  apply setattr_call_plain.
Qed.

(** What an arm carries out: the same action in every session, bound to
    the request, and no handshake. *)
Definition carries_out self (arm : Session FS -> Step FS) : Prop :=
  exists a, (forall se, arm se = execute self se a) /\ bound self a /\ ~ is_handshake a.

Lemma derive_carried_out self op (arm : Session FS -> Step FS) :
  ll_request.is_init op = false ->
  (forall se, arm se = execute self se (derive now self op)) -> carries_out self arm.
Proof.
  intros Hop Harm. exists (derive now self op).
  split; [done|]. split; [apply derive_bound|by apply derive_not_handshake].
Qed.

(** The arms that assert: the call when the assertion holds, the panic
    otherwise, whatever the declared size is. *)
Lemma asserting_carried_out self (b : bool) (c : FsCall) :
  call_binding c = Some (request_binding self) ->
  carries_out self (fun se => _ ← assert b; call se (invoke (filesystem se) self c)).
Proof.
  intros Hc. destruct b.
  - exists (Forward c). split; [done|]. split; [by right|by intros []].
  - exists (Abort AssertionFailed). split; [done|]. split; [done|by intros []].
Qed.

(** Every arm below the guards carries out an action bound to the
    request, whatever the integer fields are, and the same action in every
    session. *)
Lemma dispatch_operation_action self op :
  exists a, (forall se, dispatch_operation now self se op = execute self se a) /\
            bound self a /\ (ll_request.is_init op = false -> ~ is_handshake a).
Proof.
  destruct (ll_request.is_init op) eqn:Hinit.
  { destruct op; try done. exists (Handshake arg).
    split; [intros se; apply dispatch_init_handshake|done]. }
  assert (carries_out self (fun se => dispatch_operation now self se op))
    as (a & Ha & Hb & Hh); [|by exists a].
  destruct op; try done;
    try (by apply (derive_carried_out self _ _ Hinit); intros se);
    [apply (derive_carried_out self _ _ Hinit); intros se;
       apply dispatch_setattr_derive
    |by apply (asserting_carried_out self _ (CWrite _ _ _ _ _ _))
    |apply (derive_carried_out self _ _ Hinit); intros se;
       apply (dispatch_release_derive now)
    |apply (derive_carried_out self _ _ Hinit); intros se;
       apply (dispatch_fsync_derive now)
    |by apply (asserting_carried_out self _ (CSetxattr _ _ _ _ _ _))
    |exists (Forward (CReaddir (ll_request.nodeid (request self)) (fuse_read_in.fh arg)
                        (as_i64 (fuse_read_in.offset arg))
                        (ReplyDirectory.new (ll_request.unique (request self)) (ch self)
                           (as_usize (fuse_read_in.size arg)))));
       split; [done|split; [by right|by intros []]]
    |apply (derive_carried_out self _ _ Hinit); intros se;
       apply (dispatch_fsyncdir_derive now)].
Qed.

(** The action of a step is chosen from the protocol state and the request:
    two sessions in the same protocol state carry out the same action,
    whatever their filesystems are. *)
Lemma dispatch_action_uniform self se1 se2 :
  se1 ≡ se2 ->
  exists a, dispatch now self se1 = execute self se1 a /\
            dispatch now self se2 = execute self se2 a /\ bound self a /\
            (ll_request.is_init (ll_request.operation (request self)) = false ->
             ~ is_handshake a).
Proof.
  intros Hs.
  pose proof (initialized_proper _ _ (symmetry Hs)) as Hi.
  pose proof (destroyed_proper _ _ (symmetry Hs)) as Hd.
  destruct (ll_request.is_init (ll_request.operation (request self))) eqn:Hinit.
  { destruct (ll_request.operation (request self)) eqn:Hop; try done.
    exists (Handshake arg). rewrite !(dispatch_Init _ _ _ _ Hop), !dispatch_init_handshake.
    done. }
  destruct (initialized se1) eqn:Hi1.
  2: { exists (Refuse EIO). rewrite !dispatch_uninitialized by done.
       repeat split. by intros _ []. }
  destruct (destroyed se1) eqn:Hd1.
  2: { rewrite !dispatch_live by done.
       destruct (dispatch_operation_action self (ll_request.operation (request self)))
         as (a & Ha & Hb & Hh).
       exists a. rewrite !Ha. auto. }
  destruct (ll_request.is_destroy (ll_request.operation (request self))) eqn:Hdes.
  - destruct (ll_request.operation (request self)) eqn:Hop; try done.
    exists Teardown. rewrite !dispatch_Destroy by done. repeat split. by intros _ [].
  - exists (Refuse EIO). rewrite !dispatch_destroyed by done.
    repeat split. by intros _ [].
Qed.

Lemma dispatch_action self se :
  exists a, dispatch now self se = execute self se a /\ bound self a.
Proof. destruct (dispatch_action_uniform self se se) as (a & Ha & _ & Hb & _); eauto. Qed.

Lemma answer_binding self (e : Z) (p : Payload) :
  msg_binding (answer self e p) = request_binding self.
Proof. done. Qed.

Lemma handshake_uses self se arg se' msgs :
  handshake self se arg = Done (se', msgs) -> uses (request_binding self) msgs.
Proof.
  unfold handshake. case_decide.
  - destruct (fs.init (filesystem se) self) as [f [[]|e]]; intros [= <- <-];
      by apply uses_one.
  - intros [= <- <-]. by apply uses_one.
Qed.

Context `{!FilesystemLaws FS}.

Lemma execute_uses self se a se' msgs :
  bound self a ->
  execute self se a = Done (se', msgs) -> uses (request_binding self) msgs.
Proof.
  destruct a as [arg|e| |c|p]; simpl; intros Hb.
  - apply handshake_uses.
  - intros [= <- <-]. by apply uses_one.
  - intros [= <- <-]. by apply uses_one.
  - intros [= <- <-]. pose proof (invoke_answers (filesystem se) self c) as Ha.
    unfold answers in Ha. destruct Hb as [Hb|Hb]; rewrite Hb in Ha; [|done].
    rewrite Ha. apply uses_nil.
  - done.
Qed.

Lemma dispatch_uses self se se' msgs :
  dispatch now self se = Done (se', msgs) -> uses (request_binding self) msgs.
Proof.
  destruct (dispatch_action self se) as (a & -> & Hb). by apply execute_uses.
Qed.

(** C2: a request is answered at most once: for a filesystem that keeps
    the contract of the reply object, one call of [dispatch] writes at most
    one message to the channel, whatever the operation and the session
    state. *)
Theorem dispatch_replies_at_most_once self se se' msgs :
  dispatch now self se = Done (se', msgs) -> (length msgs <= 1)%nat.
Proof. intros Hd. by destruct (dispatch_uses _ _ _ _ Hd). Qed.

(** C4: every message [dispatch] writes carries the request's correlation
    id, unchanged, and goes to the request's channel. *)
Theorem dispatch_echoes_unique self se se' msgs m :
  dispatch now self se = Done (se', msgs) -> m ∈ msgs ->
  msg_unique m = Request.unique self /\ msg_sender m = ch self.
Proof.
  intros Hd Hm. destruct (dispatch_uses _ _ _ _ Hd) as [_ HF].
  pose proof (proj1 (list.Forall_forall _ _) HF m Hm) as Hb.
  by injection Hb.
Qed.
End Discipline.

Section Protocol.
Context `{Config} `{fs.Filesystem FS}.
Variable now : Clock.
Implicit Types (self : Request) (se : Session FS).

Definition is_interrupt (op : ll_request.Operation) : bool :=
  match op with ll_request.Interrupt _ => true | _ => false end.

(** The requests the dispatcher answers itself. *)
Definition protocol_level self se : Prop :=
  let op := ll_request.operation (request self) in
  ll_request.is_init op = true \/ initialized se = false \/
  ll_request.is_destroy op = true \/ destroyed se = true \/ is_interrupt op = true.

(** The handshake always returns, with one message. *)
Lemma handshake_done self se arg :
  exists se' m, handshake self se arg = Done (se', [m]) /\
                msg_binding m = request_binding self.
Proof.
  unfold handshake. case_decide; [|by eauto].
  destruct (fs.init (filesystem se) self) as [f [[]|e]]; by eauto.
Qed.

(** Either the request is answered by the dispatcher itself, with one
    message, or the session is live and the arm of the operation runs. *)
Lemma dispatch_guards self se :
  (protocol_level self se /\
   exists se' m, dispatch now self se = Done (se', [m]) /\
                 msg_binding m = request_binding self) \/
  (initialized se = true /\ destroyed se = false /\
   dispatch now self se =
     dispatch_operation now self se (ll_request.operation (request self))).
Proof.
  unfold protocol_level.
  destruct (ll_request.is_init (ll_request.operation (request self))) eqn:Hinit.
  { left. split; [by left|].
    destruct (ll_request.operation (request self)) eqn:Hop; try done.
    rewrite (dispatch_Init _ _ _ _ Hop), dispatch_init_handshake.
    apply handshake_done. }
  destruct (initialized se) eqn:Hi.
  2: { left. split; [by right; left|]. rewrite dispatch_uninitialized by done. by eauto. }
  destruct (destroyed se) eqn:Hd.
  2: { right. by rewrite dispatch_live. }
  left. split; [by right; right; right; left|].
  destruct (ll_request.is_destroy (ll_request.operation (request self))) eqn:Hdes.
  - destruct (ll_request.operation (request self)) eqn:Hop; try done.
    rewrite dispatch_Destroy by done. by eauto.
  - rewrite dispatch_destroyed by done. by eauto.
Qed.

(** The dispatcher's own replies are exactly one message: a
    handshake, a teardown, an interrupt, and any operation that arrives
    before initialisation or after destruction is answered with one
    message bound to the request, never with none and never with a panic,
    for every filesystem. *)
Theorem protocol_replies_exactly_once self se :
  protocol_level self se ->
  exists se' m, dispatch now self se = Done (se', [m]) /\
                msg_binding m = request_binding self.
Proof.
  intros Hp. destruct (dispatch_guards self se) as [[_ Hd]|(Hi & Hd & Heq)]; [done|].
  rewrite Heq. unfold protocol_level in Hp. rewrite Hi, Hd in Hp.
  destruct (ll_request.operation (request self)); simpl in Hp;
    try (exfalso; intuition congruence).
  - simpl. rewrite dispatch_init_handshake. apply handshake_done.
  - by do 2 eexists.
  - by do 2 eexists.
Qed.

(** The panics of the time derivations are overflows. *)
Lemma present_time_panic (valid bit : Z) (t : outcome SystemTime.t) (p : panic) :
  present_time valid bit t = Panicked p -> t = Panicked p.
Proof. unfold present_time. destruct (Z.testbit valid bit), t; naive_solver. Qed.

Lemma epoch_plus_panic (s n : Z) (p : panic) :
  epoch_plus s n = Panicked p -> p <> AssertionFailed.
Proof.
  unfold epoch_plus, overflow. destruct (instant s n); [done|].
  intros [= <-]. by case_match.
Qed.

Lemma epoch_plus_clamped_panic (fb : SystemTime.t) (s n : Z) (p : panic) :
  epoch_plus_clamped fb s n = Panicked p -> p <> AssertionFailed.
Proof.
  unfold epoch_plus_clamped, overflow. destruct (instant s n); [done|].
  destruct (s + n / NANOS_PER_SEC <? 2 ^ 64); [done|]. by intros [= <-].
Qed.

Lemma macos_fields_panic (arg : fuse_setattr_in.t) (p : panic) :
  macos_fields now arg = Panicked p -> p <> AssertionFailed.
Proof.
  unfold macos_fields. destruct target_os; [|done].
  destruct (present_time _ 28 _) eqn:E1; simpl;
    [|intros [= <-]; by eapply epoch_plus_clamped_panic, present_time_panic].
  destruct (present_time _ 29 _) eqn:E2; simpl;
    [|intros [= <-]; by eapply epoch_plus_clamped_panic, present_time_panic].
  destruct (present_time _ 30 _) eqn:E3; simpl;
    [done|intros [= <-]; by eapply epoch_plus_clamped_panic, present_time_panic].
Qed.

Lemma setattr_call_panic self (arg : fuse_setattr_in.t) (p : panic) :
  setattr_call now self arg = Panicked p -> p <> AssertionFailed.
Proof.
  unfold setattr_call.
  destruct (present_time _ 4 _) eqn:E1; simpl;
    [|intros [= <-]; by eapply epoch_plus_panic, present_time_panic].
  destruct (present_time _ 5 _) eqn:E2; simpl;
    [|intros [= <-]; by eapply epoch_plus_panic, present_time_panic].
  destruct (macos_fields now arg) as [[[[? ?] ?] ?]|] eqn:E3; simpl; [done|].
  intros [= <-]. by eapply macos_fields_panic.
Qed.

(** C24: [dispatch] panics only in a live session, and only in the arms
    that assert or add times: [SetAttr] with an overflowing time, or
    [Write] and [SetXAttr] with a payload whose length differs from the
    declared size.  Every other request returns. *)
Theorem dispatch_panics_only_on_integrity self se p :
  dispatch now self se = Panicked p ->
  initialized se = true /\ destroyed se = false /\
  match ll_request.operation (request self) with
  | ll_request.SetAttr _ => p <> AssertionFailed
  | ll_request.Write arg data =>
      len data <> as_usize (fuse_write_in.size arg) /\ p = AssertionFailed
  | ll_request.SetXAttr arg _ value =>
      len value <> as_usize (fuse_setxattr_in.size arg) /\ p = AssertionFailed
  | _ => False
  end.
Proof.
  destruct (dispatch_guards self se) as [(_ & se' & m & -> & _)|(Hi & Hd & ->)]; [done|].
  intros Hp. split; [done|]. split; [done|].
  destruct (ll_request.operation (request self)); try done.
  - change (dispatch_setattr now self se arg = Panicked p) in Hp.
    rewrite dispatch_setattr_derive in Hp. simpl in Hp.
    destruct (setattr_call now self arg) eqn:E; [done|].
    injection Hp as <-. by eapply setattr_call_panic.
  - unfold dispatch_operation, dispatch_write in Hp.
    case_bool_decide; [done|]. by injection Hp as <-.
  - unfold dispatch_operation, dispatch_setxattr in Hp.
    case_bool_decide; [done|]. by injection Hp as <-.
  - simpl in Hp. rewrite dispatch_init_handshake in Hp.
    destruct (handshake_done self se arg) as (? & ? & Hh & _). by rewrite Hh in Hp.
Qed.
End Protocol.

(** ** Concrete runs *)

Definition sample_getattr : Request := sample ll_request.GetAttr.

Definition getattr_reply : Message := mkMessage 3 77 0 NoPayload.

Definition after_getattr : Session Recorder.t :=
  Session.mk (Recorder.mk [ECall sample_getattr (CGetattr 1 (Reply.mk 77 3))] (Ok tt))
    7 31 true false.

Lemma dispatch_replies_at_most_once_witness : (length [getattr_reply] <= 1)%nat.
Proof.
  exact (dispatch_replies_at_most_once (H := linux) sample_clock sample_getattr live
           after_getattr [getattr_reply] eq_refl).
Defined.

Lemma dispatch_echoes_unique_witness :
  msg_unique getattr_reply = 77 /\ msg_sender getattr_reply = 3.
Proof.
  exact (dispatch_echoes_unique (H := linux) sample_clock sample_getattr live
           after_getattr [getattr_reply] getattr_reply eq_refl
           (list_elem_of_here getattr_reply [])).
Defined.

Lemma protocol_replies_exactly_once_witness :
  exists se' m, dispatch (H := linux) sample_clock sample_getattr fresh = Done (se', [m]) /\
                msg_binding m = (77, 3).
Proof.
  exact (protocol_replies_exactly_once (H := linux) sample_clock sample_getattr fresh
           (or_intror (or_introl eq_refl))).
Defined.

Definition truncated_write : Request :=
  sample (ll_request.Write (fuse_write_in.mk 5 0 3 0) [104; 105]).

Lemma dispatch_panics_only_on_integrity_witness :
  initialized live = true /\ destroyed live = false /\
  (len [104; 105] <> as_usize 3 /\ AssertionFailed = AssertionFailed).
Proof.
  exact (dispatch_panics_only_on_integrity (H := linux) sample_clock truncated_write live
           AssertionFailed eq_refl).
Defined.
