(* ===== verification/Machine.v ===== *)
(** * The session as a transition system

    One step is one call of [dispatch]; [run] is the dispatch loop over a
    sequence of requests, each with the readings of the clock during its
    dispatch.  The abstract machine has the three phases of the handshake
    protocol.  The theorems are invariants of reachable sessions, the
    simulation of the abstract machine, and properties of whole runs: what
    is written to the channel, and in which order. *)

From Stdlib Require Import ZArith Lia.
From stdpp Require Import base tactics numbers list option.
From S2P Require Import Prelude Abi Time LlRequest Reply Request Filesystem Session.
From S2P Require Import Dispatch Spec DispatchProps SessionProps ReplyProps.

#[local] Open Scope Z_scope.

(** One input of the loop: the clock during the dispatch, and the request. *)
Abbreviation Input := (Clock * Request)%type.

(** The abstract handshake machine: which phase follows which, on which
    operation. *)
Inductive phase_step : Phase -> ll_request.Operation -> Phase -> Prop :=
  | handshake_succeeds arg :
      supported (fuse_init_in.major arg) (fuse_init_in.minor arg) ->
      phase_step Uninitialized (ll_request.Init arg) Initialized
  | handshake_keeps ph arg :
      phase_step ph (ll_request.Init arg) ph
  | teardown ph :
      ph <> Uninitialized ->
      phase_step ph ll_request.Destroy Destroyed
  | operation_keeps ph op :
      ll_request.is_init op = false ->
      ph = Uninitialized \/ ll_request.is_destroy op = false ->
      phase_step ph op ph.

(** Where an action may be carried out: a call of the filesystem in a live
    session, the teardown in an initialized one. *)
Definition guarded {FS} (se : Session FS) (a : Action) : Prop :=
  match a with
  | Forward _ => initialized se = true /\ destroyed se = false
  | Teardown => initialized se = true
  | _ => True
  end.

Section Machine.
Context `{Config} `{fs.Filesystem FS}.
Implicit Types (self : Request) (se : Session FS) (now : Clock).

(** The dispatch loop: requests are handled one after the other, the
    messages accumulate in order, a panic ends the loop. *)
Fixpoint run (inputs : list Input) se : Step FS :=
  match inputs with
  | [] => Done (se, [])
  | (now, self) :: rest =>
      '(se1, msgs1) ← dispatch now self se;
      '(se2, msgs2) ← run rest se1;
      Done (se2, msgs1 ++ msgs2)
  end.

(** One step of the session. *)
Inductive step : Session FS -> Input -> list Message -> Session FS -> Prop :=
  | step_dispatch now self se se' msgs :
      dispatch now self se = Done (se', msgs) ->
      step se (now, self) msgs se'.

(** The sessions a mount can be in: [Session::new] and what [dispatch]
    makes of it. *)
Inductive reachable : Session FS -> Prop :=
  | reachable_new f : reachable (session.new f)
  | reachable_step se i msgs se' :
      reachable se -> step se i msgs se' -> reachable se'.

(** ** One step *)

(** What a step does to the session, by the arm that ran. *)
Inductive effect self se se' : Prop :=
  | effect_rejected :
      ll_request.is_init (ll_request.operation (request self)) = true ->
      se' = se -> effect self se se'
  | effect_negotiated arg f b :
      ll_request.operation (request self) = ll_request.Init arg ->
      supported (fuse_init_in.major arg) (fuse_init_in.minor arg) ->
      (b = true \/ b = initialized se) ->
      se' = Session.mk f (fuse_init_in.major arg) (fuse_init_in.minor arg) b
              (destroyed se) ->
      effect self se se'
  | effect_torn_down f :
      ll_request.operation (request self) = ll_request.Destroy ->
      initialized se = true ->
      se' = Session.mk f (proto_major se) (proto_minor se) true true ->
      effect self se se'
  | effect_forwarded f :
      ll_request.is_init (ll_request.operation (request self)) = false ->
      (initialized se = false \/
       ll_request.is_destroy (ll_request.operation (request self)) = false) ->
      se' = set_filesystem se f ->
      effect self se se'.

Lemma handshake_effect self se arg se' msgs :
  ll_request.operation (request self) = ll_request.Init arg ->
  handshake self se arg = Done (se', msgs) -> effect self se se'.
Proof.
  intros Hop. unfold handshake. case_decide as Hs.
  - destruct (fs.init (filesystem se) self) as [f [[]|e]]; intros [= <- <-].
    + by eapply (effect_negotiated _ _ _ arg f true); eauto.
    + by eapply (effect_negotiated _ _ _ arg f (initialized se)); eauto.
  - intros [= <- <-]. apply effect_rejected; [by rewrite Hop|done].
Qed.

Lemma set_filesystem_id se : set_filesystem se (filesystem se) = se.
Proof. by destruct se. Qed.

Lemma execute_forwarded self se a se' msgs :
  match a with Handshake _ | Teardown => False | _ => True end ->
  execute self se a = Done (se', msgs) -> exists f, se' = set_filesystem se f.
Proof.
  destruct a; try done; simpl; intros _ [= <- <-]; eauto.
  exists (filesystem se). by rewrite set_filesystem_id.
Qed.

Lemma derive_plain now self op :
  ll_request.is_init op = false -> ll_request.is_destroy op = false ->
  match derive now self op with Handshake _ | Teardown => False | _ => True end.
Proof.
  destruct op; try done; intros _ _; simpl; try by case_decide.
  by destruct (setattr_call now self arg).
Qed.

Lemma dispatch_operation_forwarded now self se op se' msgs :
  ll_request.is_init op = false -> ll_request.is_destroy op = false ->
  dispatch_operation now self se op = Done (se', msgs) ->
  exists f, se' = set_filesystem se f.
Proof.
  intros Hi Hd.
  destruct op; try done;
    lazymatch goal with
    | |- dispatch_operation _ _ _ ?op = _ -> _ =>
        try exact (execute_forwarded self se (derive now self op) se' msgs
                     (derive_plain now self op Hi Hd))
    end; cbn [dispatch_operation].
  - rewrite dispatch_setattr_derive. apply execute_forwarded.
    by apply (derive_plain now self (ll_request.SetAttr arg)).
  - unfold dispatch_write. destruct (assert _); [|done]. intros [= <- <-]. eauto.
  - rewrite (dispatch_release_derive now). by apply execute_forwarded.
  - rewrite (dispatch_fsync_derive now). by apply execute_forwarded.
  - unfold dispatch_setxattr. destruct (assert _); [|done]. intros [= <- <-]. eauto.
  - intros [= <- <-]. eauto.
  - rewrite (dispatch_fsyncdir_derive now). by apply execute_forwarded.
Qed.

Lemma dispatch_effect now self se se' msgs :
  dispatch now self se = Done (se', msgs) -> effect self se se'.
Proof.
  destruct (ll_request.is_init (ll_request.operation (request self))) eqn:Hinit.
  { destruct (ll_request.operation (request self)) eqn:Hop; try done.
    rewrite (dispatch_Init _ _ _ _ Hop), dispatch_init_handshake.
    by apply handshake_effect. }
  destruct (initialized se) eqn:Hi.
  2: { rewrite dispatch_uninitialized by done. intros [= <- <-].
       apply (effect_forwarded _ _ _ (filesystem se)); [done|by left|].
       by rewrite set_filesystem_id. }
  destruct (ll_request.is_destroy (ll_request.operation (request self))) eqn:Hdes.
  { destruct (ll_request.operation (request self)) eqn:Hop; try done.
    rewrite dispatch_Destroy by done. intros [= <- <-].
    eapply effect_torn_down; [done..|].
    unfold set_destroyed, set_filesystem. simpl. by rewrite Hi. }
  destruct (destroyed se) eqn:Hd.
  - rewrite dispatch_destroyed by done. intros [= <- <-].
    apply (effect_forwarded _ _ _ (filesystem se)); [done|by right|].
    by rewrite set_filesystem_id.
  - rewrite dispatch_live by done. intros Hop.
    destruct (dispatch_operation_forwarded _ _ _ _ _ _ Hinit Hdes Hop) as [f ->].
    apply (effect_forwarded _ _ _ f); [done|by right|done].
Qed.

Lemma effect_consistent self se se' : effect self se se' -> consistent se -> consistent se'.
Proof.
  intros [Hop ->|arg f b Hop Hs Hb ->|f Hop Hi ->|f Hop Hg ->] [Hd Hv Hiv]; [done|..].
  - split; simpl; [|by right|done].
    intros Hdes. destruct Hb as [->| ->]; [done|by apply Hd].
  - split; simpl; [done|done|]. intros _. by apply Hiv.
  - by split.
Qed.

Lemma effect_monotone self se se' :
  effect self se se' ->
  (initialized se = true -> initialized se' = true) /\
  (destroyed se = true -> destroyed se' = true).
Proof.
  intros [Hop ->|arg f b Hop Hs [->| ->] ->|f Hop Hi ->|f Hop Hg ->]; by simpl.
Qed.

Lemma effect_phase self se se' :
  consistent se -> effect self se se' ->
  phase_step (phase se) (ll_request.operation (request self)) (phase se').
Proof.
  intros [Hdi _ _] [Hop ->|arg f b Hop Hs Hb ->|f Hop Hi ->|f Hop Hg ->].
  - destruct (ll_request.operation (request self)); try done. apply handshake_keeps.
  - rewrite Hop. unfold phase. simpl.
    destruct Hb as [->| ->]; simpl; [|apply handshake_keeps].
    destruct (initialized se); simpl; [apply handshake_keeps|].
    destruct (destroyed se); [by specialize (Hdi eq_refl)|by apply handshake_succeeds].
  - rewrite Hop. unfold phase. rewrite Hi. simpl.
    apply teardown. by destruct (destroyed se).
  - rewrite phase_set_filesystem. apply operation_keeps; [done|].
    destruct Hg as [Hg|Hg]; [left|by right]. by apply phase_Uninitialized.
Qed.
End Machine.

Section Runs.
Context `{Config} `{fs.Filesystem FS}.
Implicit Types (self : Request) (se : Session FS) (now : Clock) (inputs : list Input).

Lemma run_cons_Done now self inputs se se' msgs :
  run ((now, self) :: inputs) se = Done (se', msgs) ->
  exists se1 msgs1 msgs2,
    dispatch now self se = Done (se1, msgs1) /\
    run inputs se1 = Done (se', msgs2) /\ msgs = msgs1 ++ msgs2.
Proof.
  simpl. destruct (dispatch now self se) as [[se1 msgs1]|]; [simpl|done].
  destruct (run inputs se1) as [[se2 msgs2]|] eqn:Hr; [simpl|done].
  intros [= <- <-]. by exists se1, msgs1, msgs2.
Qed.

(** A property of sessions that every step keeps is kept by every run. *)
Lemma run_invariant (P : Session FS -> Prop) :
  (forall now self se se' msgs,
     P se -> dispatch now self se = Done (se', msgs) -> P se') ->
  forall inputs se se' msgs, P se -> run inputs se = Done (se', msgs) -> P se'.
Proof.
  intros Hstep inputs. induction inputs as [|[now self] inputs IH]; intros se se' msgs HP.
  - by intros [= <- <-].
  - intros (se1 & msgs1 & msgs2 & Hd & Hr & _)%run_cons_Done. eauto.
Qed.

(** The same with a condition on the requests and a property of the
    messages: what every step on a request that meets the condition keeps
    of the session and ensures of its messages, every run over such
    requests keeps and ensures. *)
Lemma run_ensures (R : Input -> Prop) (P : Session FS -> Prop) (Q : Message -> Prop) :
  (forall now self se se' msgs,
     R (now, self) -> P se -> dispatch now self se = Done (se', msgs) ->
     P se' /\ Forall Q msgs) ->
  forall inputs se se' msgs,
    Forall R inputs -> P se -> run inputs se = Done (se', msgs) -> P se' /\ Forall Q msgs.
Proof.
  intros Hstep inputs. induction inputs as [|[now self] inputs IH]; intros se se' msgs HR HP.
  - intros [= <- <-]. by split; [|apply Forall_nil].
  - apply Forall_cons_1 in HR as [HR HRs].
    intros (se1 & msgs1 & msgs2 & Hd & Hr & ->)%run_cons_Done.
    destruct (Hstep _ _ _ _ _ HR HP Hd) as [HP1 HQ1].
    destruct (IH _ _ _ HRs HP1 Hr) as [HP' HQ2]. split; [done|by apply Forall_app_2].
Qed.

Lemma run_reachable inputs se se' msgs :
  reachable se -> run inputs se = Done (se', msgs) -> reachable se'.
Proof.
  apply (run_invariant reachable). intros now self se1 se2 msgs' Hr Hd.
  by eapply reachable_step; [|apply step_dispatch].
Qed.

(** The action a step carries out reaches the filesystem only where the
    guards let it: a call in a live session, the teardown in an initialized
    one. *)
Lemma dispatch_action_guarded now self se :
  exists a, dispatch now self se = execute self se a /\ guarded se a.
Proof.
  destruct (ll_request.is_init (ll_request.operation (request self))) eqn:Hinit.
  { destruct (ll_request.operation (request self)) eqn:Hop; try done.
    exists (Handshake arg). split; [|done].
    rewrite (dispatch_Init _ _ _ _ Hop). apply dispatch_init_handshake. }
  destruct (initialized se) eqn:Hi.
  2: { exists (Refuse EIO). by rewrite dispatch_uninitialized. }
  destruct (destroyed se) eqn:Hd.
  2: { rewrite dispatch_live by done.
       destruct (dispatch_operation_action now self (ll_request.operation (request self)))
         as (a & Ha & _).
       exists a. split; [apply Ha|by destruct a]. }
  destruct (ll_request.is_destroy (ll_request.operation (request self))) eqn:Hdes.
  - destruct (ll_request.operation (request self)) eqn:Hop; try done.
    exists Teardown. rewrite dispatch_Destroy by done.
    split; [apply dispatch_destroy_teardown|done].
  - exists (Refuse EIO). by rewrite dispatch_destroyed.
Qed.

(** C5: every session a mount can reach from [Session::new] by
    dispatching requests is consistent: it is marked destroyed only if it
    is initialized, and the protocol version it records is 0.0 or one the
    handshake accepts (7.6 or later), the latter whenever it is
    initialized. *)
Theorem reachable_consistent se : reachable se -> consistent se.
Proof.
  induction 1 as [f|se i msgs se' _ IH Hstep]; [apply new_consistent|].
  destruct Hstep as [now self se se' msgs Hd].
  by eapply effect_consistent; [eapply dispatch_effect|].
Qed.

(** C33: the two flags of the session only ever go up: along any run of
    the dispatch loop that returns, an initialized session stays
    initialized and a destroyed one stays destroyed. *)
Theorem run_flags_monotone inputs se se' msgs :
  run inputs se = Done (se', msgs) ->
  (initialized se = true -> initialized se' = true) /\
  (destroyed se = true -> destroyed se' = true).
Proof.
  revert se msgs. induction inputs as [|[now self] inputs IH]; intros se msgs.
  - by intros [= <- <-].
  - intros (se1 & msgs1 & msgs2 & Hd & Hr & _)%run_cons_Done.
    destruct (effect_monotone _ _ _ (dispatch_effect _ _ _ _ _ Hd)) as [Hi1 Hd1].
    destruct (IH _ _ Hr) as [Hi2 Hd2]. auto.
Qed.

(** C6: the session implements the three-phase machine of the protocol:
    every step of a consistent session is a transition of the abstract
    machine on the request's operation, from the phase before to the phase
    after. *)
Theorem phase_simulation se i msgs se' :
  consistent se -> step se i msgs se' ->
  phase_step (phase se) (ll_request.operation (request i.2)) (phase se').
Proof.
  intros Hc Hs. destruct Hs as [now self se se' msgs Hd]. simpl.
  eapply effect_phase; [done|by eapply dispatch_effect].
Qed.

(** A step changes the recorded protocol version and the
    [initialized] flag only for [Init]: any other operation leaves both as
    they were. *)
Theorem version_changes_only_on_init now self se se' msgs :
  dispatch now self se = Done (se', msgs) ->
  ll_request.is_init (ll_request.operation (request self)) = false ->
  proto_major se' = proto_major se /\ proto_minor se' = proto_minor se /\
  (initialized se = true -> initialized se' = true) /\
  (initialized se' = true -> initialized se = true).
Proof.
  intros Hd Hop.
  destruct (dispatch_effect _ _ _ _ _ Hd) as [Hop' _|arg f b Hop' _ _ _|f _ Hi ->|f _ _ ->];
    try congruence; try done.
  by rewrite Hop' in Hop.
Qed.

(** The answers of a run in which every request is rejected. *)
Definition rejections inputs : list Message :=
  (fun i : Input => answer i.2 EIO NoPayload) <$> inputs.

(** Before the handshake, a whole sequence of requests without [Init]
    is rejected: the loop returns, the session and its filesystem are
    untouched, and the channel carries one [EIO] per request, in the order
    of the requests. *)
Theorem uninitialized_run_rejects inputs se :
  initialized se = false ->
  Forall (fun i : Input =>
            ll_request.is_init (ll_request.operation (request i.2)) = false) inputs ->
  run inputs se = Done (se, rejections inputs).
Proof.
  intros Hi. induction 1 as [|[now self] inputs Hop _ IH]; [done|].
  simpl in *. rewrite dispatch_uninitialized by done. simpl. by rewrite IH.
Qed.

(** After teardown, a whole sequence of requests without [Init] and
    [Destroy] is rejected in the same way: one [EIO] per request, in
    order, and nothing else changes. *)
Theorem destroyed_run_rejects inputs se :
  initialized se = true -> destroyed se = true ->
  Forall (fun i : Input =>
            ll_request.is_init (ll_request.operation (request i.2)) = false /\
            ll_request.is_destroy (ll_request.operation (request i.2)) = false) inputs ->
  run inputs se = Done (se, rejections inputs).
Proof.
  intros Hi Hd. induction 1 as [|[now self] inputs [Hop1 Hop2] _ IH]; [done|].
  simpl in *. rewrite dispatch_destroyed by done. simpl. by rewrite IH.
Qed.

Context `{!FilesystemLaws FS}.

(** C30: over a whole run the replies follow the requests.  The messages
    on the channel, read as correlation id and sender, are a selection of
    the requests of the run in the order of the requests: at most one
    message per request, none for a request that was not made, and no
    reply overtakes the reply to an earlier request. *)
Theorem run_replies_bounded inputs se se' msgs :
  run inputs se = Done (se', msgs) ->
  msg_binding <$> msgs `sublist_of` (request_binding ∘ snd) <$> inputs.
Proof.
  revert se msgs. induction inputs as [|[now self] inputs IH]; intros se msgs.
  - by intros [= <- <-].
  - intros (se1 & msgs1 & msgs2 & Hd & Hr & ->)%run_cons_Done.
    rewrite fmap_app. apply (sublist_app _ [_]); [|by eapply IH].
    by eapply uses_sublist, dispatch_uses.
Qed.
End Runs.

(** ** From the buffer to the reply *)

Section Receive.
Context `{Config} `{fs.Filesystem FS} `{!FilesystemLaws FS} `{Parser}.
Implicit Types (se : Session FS) (now : Clock) (c : ChannelSender) (d : bytes).

(** The body of the session's loop ([session.rs]): the buffer read from the
    channel is parsed by [Request::new]; a buffer the parser rejects is
    dropped, any other is dispatched. *)
Definition receive now c d se : Step FS :=
  match Request.new c d with
  | Some req => dispatch now req se
  | None => Done (se, [])
  end.

(** From the buffer to the reply.  A buffer the parser rejects is
    dropped: nothing is written and the session is unchanged.  A buffer it
    accepts is answered at most once, on the channel the buffer came from,
    with the correlation id of the parsed header. *)
Theorem receive_replies_bound now c d se se' msgs :
  receive now c d se = Done (se', msgs) ->
  (length msgs <= 1)%nat /\
  match try_from d with
  | Ok r => Forall (fun m => msg_unique m = ll_request.unique r /\ msg_sender m = c) msgs
  | Err _ => msgs = [] /\ se' = se
  end.
Proof.
  unfold receive, Request.new. destruct (try_from d) as [r|e].
  - intros Hd. destruct (dispatch_uses _ _ _ _ _ Hd) as [Hlen Hall]. split; [done|].
    eapply Forall_impl; [|exact Hall]. by intros m [= -> ->].
  - intros [= <- <-]. by split; [simpl; lia|].
Qed.
End Receive.

(** ** Concrete runs *)

(** A mount's life: handshake, an attribute query, teardown, and a query
    that arrives too late. *)
Definition session_life : list Input :=
  [ (sample_clock, sample init_7_31); (sample_clock, sample ll_request.GetAttr);
    (sample_clock, sample ll_request.Destroy); (sample_clock, sample ll_request.GetAttr) ].

Definition early : list Input :=
  [ (sample_clock, sample ll_request.GetAttr); (sample_clock, sample ll_request.Destroy) ].

Definition final (s : Step Recorder.t) : Session Recorder.t :=
  match s with Done (se, _) => se | Panicked _ => fresh end.

Definition written (s : Step Recorder.t) : list Message :=
  match s with Done (_, msgs) => msgs | Panicked _ => [] end.

Lemma session_life_runs :
  run (H := linux) session_life fresh =
  Done (final (run (H := linux) session_life fresh),
        written (run (H := linux) session_life fresh)).
Proof. reflexivity. Qed.

Lemma session_life_reachable :
  reachable (H := linux) (final (run (H := linux) session_life fresh)).
Proof. eapply run_reachable; [apply reachable_new|apply session_life_runs]. Qed.

Lemma reachable_consistent_witness :
  consistent (final (run (H := linux) session_life fresh)).
Proof. apply (reachable_consistent (H := linux)), session_life_reachable. Defined.

Lemma run_flags_monotone_witness :
  (initialized live = true ->
   initialized (final (run (H := linux) (skipn 1 session_life) live)) = true) /\
  (destroyed live = true ->
   destroyed (final (run (H := linux) (skipn 1 session_life) live)) = true).
Proof.
  apply (run_flags_monotone (H := linux) (skipn 1 session_life) live _
           (written (run (H := linux) (skipn 1 session_life) live))).
  reflexivity.
Defined.

Lemma phase_simulation_witness :
  phase_step (phase fresh) init_7_31
    (phase (final (dispatch (H := linux) sample_clock (sample init_7_31) fresh))).
Proof.
  apply (phase_simulation (H := linux) fresh (sample_clock, sample init_7_31)
           (written (dispatch (H := linux) sample_clock (sample init_7_31) fresh))).
  - apply new_consistent.
  - by apply step_dispatch.
Defined.

Lemma version_changes_only_on_init_witness :
  proto_major after_getattr = 7 /\ proto_minor after_getattr = 31 /\
  (initialized live = true -> initialized after_getattr = true) /\
  (initialized after_getattr = true -> initialized live = true).
Proof.
  apply (version_changes_only_on_init (H := linux) sample_clock sample_getattr live
           after_getattr [getattr_reply]); reflexivity.
Defined.

Lemma uninitialized_run_rejects_witness :
  run (H := linux) early fresh =
  Done (fresh, [mkMessage 3 77 5 NoPayload; mkMessage 3 77 5 NoPayload]).
Proof.
  apply (uninitialized_run_rejects (H := linux) early fresh); [reflexivity|].
  by repeat constructor.
Defined.

Lemma destroyed_run_rejects_witness :
  run (H := linux) [(sample_clock, sample_getattr)] torn_down =
  Done (torn_down, [mkMessage 3 77 5 NoPayload]).
Proof.
  apply (destroyed_run_rejects (H := linux) [(sample_clock, sample_getattr)] torn_down);
    [reflexivity..|by repeat constructor].
Defined.

Lemma run_replies_bounded_witness :
  msg_binding <$> written (run (H := linux) session_life fresh)
    `sublist_of` (request_binding ∘ snd) <$> session_life.
Proof.
  apply (run_replies_bounded (H := linux) session_life fresh
           (final (run (H := linux) session_life fresh))).
  apply session_life_runs.
Defined.

(** A parser for the concrete runs: the empty buffer is too short for a
    header, any other buffer is an attribute query. *)
Definition sample_parser : Parser :=
  fun d =>
    match d with
    | [] => Err (ShortReadHeader 0)
    | _ => Ok (ll_request.mk sample_header ll_request.GetAttr)
    end.

Definition received : Step Recorder.t :=
  receive (H := linux) (H1 := sample_parser) sample_clock 3 [40] live.

Lemma receive_replies_bound_witness :
  (length (written received) <= 1)%nat /\
  Forall (fun m => msg_unique m = 77 /\ msg_sender m = 3) (written received).
Proof.
  apply (receive_replies_bound (H := linux) (H1 := sample_parser) sample_clock 3 [40] live
           (final received) (written received)).
  reflexivity.
Defined.
