(* ===== verification/Observer.v ===== *)
(** * Observing a filesystem

    What the dispatcher does to a filesystem is the sequence of hooks and
    methods it calls on it.  [Observer] is the interface of a filesystem
    that keeps that sequence: [seen] is the log, and the laws say that
    every hook and every method appends its own event.  The recording
    filesystem of [Filesystem] is one instance.  [Logged] is the other: any
    filesystem, paired with a log, each method of the pair running the
    method of the filesystem and appending the event.  Logging does not
    disturb: a dispatch, or a run, on the logged filesystem is the one on
    the filesystem itself, with the log beside it.  A property of the log
    proved against the interface is therefore a property of the calls the
    dispatcher makes to every filesystem. *)

From Stdlib Require Import ZArith Lia.
From stdpp Require Import base tactics numbers list option.
From S2P Require Import Prelude Abi Time LlRequest Reply Request Filesystem Session.
From S2P Require Import Dispatch Spec DispatchProps SessionProps ReplyProps Machine.

#[local] Open Scope Z_scope.

(** ** The interface *)

Class Observer (FS : Type) : Type := seen : FS -> list Event.

Class ObserverLaws (FS : Type) `{fs.Filesystem FS} `{Observer FS} : Prop := {
  seen_init : forall (f : FS) (req : Request),
    seen (fs.init f req).1 = seen f ++ [EInit req];
  seen_destroy : forall (f : FS) (req : Request),
    seen (fs.destroy f req) = seen f ++ [EDestroy req];
  seen_invoke : forall (f : FS) (req : Request) (c : FsCall),
    seen (invoke f req c).1 = seen f ++ [ECall req c];
}.

#[export] Instance Recorder_observer : Observer Recorder.t := Recorder.log.

#[export] Instance Recorder_observes : ObserverLaws Recorder.t.
Proof. split; [done|done|]. intros f req c. by rewrite Recorder_invoke. Qed.

(** ** What an action shows to the filesystem *)

(** The event of an action: the [init] hook of a handshake whose version
    is supported, the [destroy] hook of a teardown, the method of a call;
    a refusal and an abort show nothing. *)
Definition event_of (self : Request) (a : Action) : list Event :=
  match a with
  | Handshake arg =>
      if decide (supported (fuse_init_in.major arg) (fuse_init_in.minor arg))
      then [EInit self] else []
  | Teardown => [EDestroy self]
  | Forward c => [ECall self c]
  | Refuse _ | Abort _ => []
  end.

Definition is_teardown (a : Action) : bool :=
  match a with Teardown => true | _ => false end.

Section Observed.
Context `{Config} `{fs.Filesystem FS} `{Observer FS} `{!ObserverLaws FS}.
Implicit Types (self : Request) (se : Session FS) (a : Action).

(** Carrying out an action appends its event to the log; only the
    teardown sets [destroyed], and an action without event leaves
    [initialized] as it was. *)
Lemma execute_observed self se a se' msgs :
  execute self se a = Done (se', msgs) ->
  seen (filesystem se') = seen (filesystem se) ++ event_of self a /\
  destroyed se' = destroyed se || is_teardown a /\
  (event_of self a = [] -> initialized se' = initialized se).
Proof.
  destruct a as [arg|e| |c|p]; simpl; [| | | |done].
  - unfold handshake. case_decide; [|intros [= <- <-]; by rewrite app_nil_r, orb_false_r].
    pose proof (seen_init (filesystem se) self) as Hs.
    destruct (fs.init (filesystem se) self) as [f [[]|e]]; intros [= <- <-];
      by rewrite orb_false_r.
  - intros [= <- <-]. by rewrite app_nil_r, orb_false_r.
  - intros [= <- <-]. simpl. by rewrite seen_destroy, orb_true_r.
  - intros [= <- <-]. simpl. by rewrite seen_invoke, orb_false_r.
Qed.

(** What one dispatch shows to the filesystem: the event of an action the
    guards allow. *)
Lemma dispatch_observed (now : Clock) self se se' msgs :
  dispatch now self se = Done (se', msgs) ->
  exists a, guarded se a /\
    seen (filesystem se') = seen (filesystem se) ++ event_of self a /\
    destroyed se' = destroyed se || is_teardown a /\
    (event_of self a = [] -> initialized se' = initialized se).
Proof.
  destruct (dispatch_action_guarded now self se) as (a & -> & Ha).
  intros He. exists a. split; [done|]. by eapply execute_observed.
Qed.
End Observed.

(** ** Any filesystem, with a log *)

Definition Logged (FS : Type) : Type := FS * list Event.

(** A method of the logged filesystem: the method of the filesystem, and
    the event. *)
Definition logged_call `{fs.Filesystem FS} (req : Request) (c : FsCall) (fl : Logged FS)
  : Effect (Logged FS) :=
  let e := invoke fl.1 req c in ((e.1, fl.2 ++ [ECall req c]), e.2).

Definition Logged_fs `{fs.Filesystem FS} : fs.Filesystem (Logged FS) := {|
  fs.init fl req := let r := fs.init fl.1 req in ((r.1, fl.2 ++ [EInit req]), r.2);
  fs.destroy fl req := (fs.destroy fl.1 req, fl.2 ++ [EDestroy req]);
  fs.lookup fl req parent name r := logged_call req (CLookup parent name r) fl;
  fs.forget fl req ino n := (logged_call req (CForget ino n) fl).1;
  fs.getattr fl req ino r := logged_call req (CGetattr ino r) fl;
  fs.setattr fl req ino mode uid gid size atime mtime fh crtime chgtime bkuptime flags r :=
    logged_call req
      (CSetattr ino mode uid gid size atime mtime fh crtime chgtime bkuptime flags r) fl;
  fs.readlink fl req ino r := logged_call req (CReadlink ino r) fl;
  fs.mknod fl req parent name mode rdev r :=
    logged_call req (CMknod parent name mode rdev r) fl;
  fs.mkdir fl req parent name mode r := logged_call req (CMkdir parent name mode r) fl;
  fs.unlink fl req parent name r := logged_call req (CUnlink parent name r) fl;
  fs.rmdir fl req parent name r := logged_call req (CRmdir parent name r) fl;
  fs.symlink fl req parent name link r := logged_call req (CSymlink parent name link r) fl;
  fs.rename fl req parent name newparent newname r :=
    logged_call req (CRename parent name newparent newname r) fl;
  fs.link fl req ino newparent newname r :=
    logged_call req (CLink ino newparent newname r) fl;
  fs.open fl req ino flags r := logged_call req (COpen ino flags r) fl;
  fs.read fl req ino fh offset size r := logged_call req (CRead ino fh offset size r) fl;
  fs.write fl req ino fh offset data flags r :=
    logged_call req (CWrite ino fh offset data flags r) fl;
  fs.flush fl req ino fh owner r := logged_call req (CFlush ino fh owner r) fl;
  fs.release fl req ino fh flags owner flush r :=
    logged_call req (CRelease ino fh flags owner flush r) fl;
  fs.fsync fl req ino fh datasync r := logged_call req (CFsync ino fh datasync r) fl;
  fs.opendir fl req ino flags r := logged_call req (COpendir ino flags r) fl;
  fs.readdir fl req ino fh offset r := logged_call req (CReaddir ino fh offset r) fl;
  fs.releasedir fl req ino fh flags r := logged_call req (CReleasedir ino fh flags r) fl;
  fs.fsyncdir fl req ino fh datasync r := logged_call req (CFsyncdir ino fh datasync r) fl;
  fs.statfs fl req ino r := logged_call req (CStatfs ino r) fl;
  fs.setxattr fl req ino name value flags position r :=
    logged_call req (CSetxattr ino name value flags position r) fl;
  fs.getxattr fl req ino name size r := logged_call req (CGetxattr ino name size r) fl;
  fs.listxattr fl req ino size r := logged_call req (CListxattr ino size r) fl;
  fs.removexattr fl req ino name r := logged_call req (CRemovexattr ino name r) fl;
  fs.access fl req ino mask r := logged_call req (CAccess ino mask r) fl;
  fs.create fl req parent name mode flags r :=
    logged_call req (CCreate parent name mode flags r) fl;
  fs.getlk fl req ino fh owner start end_ typ pid r :=
    logged_call req (CGetlk ino fh owner start end_ typ pid r) fl;
  fs.setlk fl req ino fh owner start end_ typ pid sleep r :=
    logged_call req (CSetlk ino fh owner start end_ typ pid sleep r) fl;
  fs.bmap fl req ino blocksize idx r := logged_call req (CBmap ino blocksize idx r) fl;
  fs.setvolname fl req name r := logged_call req (CSetvolname name r) fl;
  fs.exchange fl req parent name newparent newname options r :=
    logged_call req (CExchange parent name newparent newname options r) fl;
  fs.getxtimes fl req ino r := logged_call req (CGetxtimes ino r) fl;
|}.

Definition Logged_observer {FS} : Observer (Logged FS) := snd.

(** The session of the filesystem itself, under the session of the logged
    one. *)
Definition unlogged {FS} (se : Session (Logged FS)) : Session FS :=
  Session.mk (filesystem se).1 (proto_major se) (proto_minor se) (initialized se)
    (destroyed se).

Definition unlogged_step {FS} (s : outcome (Session (Logged FS) * list Message))
  : outcome (Session FS * list Message) :=
  '(se, msgs) ← s; Done (unlogged se, msgs).

Section Logged.
Context `{Config} `{fs.Filesystem FS}.
#[local] Existing Instances Logged_fs Logged_observer.
Implicit Types (self : Request) (se : Session (Logged FS)) (fl : Logged FS).

Lemma Logged_invoke fl (req : Request) (c : FsCall) :
  invoke fl req c = logged_call req c fl.
Proof. by destruct c. Qed.

Lemma Logged_observes : ObserverLaws (Logged FS).
Proof. split; [done|done|]. intros fl req c. by rewrite Logged_invoke. Qed.

(** The logged filesystem writes what the filesystem writes. *)
Lemma Logged_laws `{!FilesystemLaws FS} : FilesystemLaws (Logged FS).
Proof. split. intros fl req c. rewrite Logged_invoke. apply invoke_answers. Qed.

(** ** Logging does not disturb *)

Lemma call_unlogged se (e : Effect (Logged FS)) :
  unlogged_step (call se e) = call (unlogged se) (e.1.1, e.2).
Proof. done. Qed.

Lemma dispatch_init_unlogged self se (arg : fuse_init_in.t) :
  dispatch_init self (unlogged se) arg = unlogged_step (dispatch_init self se arg).
Proof.
  unfold dispatch_init. destruct (unsupported_abi arg); [done|]. cbn [fs.init Logged_fs].
  unfold set_proto_major, set_proto_minor. cbn [filesystem unlogged fst].
  by destruct (fs.init (filesystem se).1 self) as [f [[]|e]].
Qed.

Lemma dispatch_operation_unlogged (now : Clock) self se (op : ll_request.Operation) :
  dispatch_operation now self (unlogged se) op =
  unlogged_step (dispatch_operation now self se op).
Proof.
  destruct op; cbn [dispatch_operation]; try done; try apply dispatch_init_unlogged.
  - unfold dispatch_setattr. destruct (attr_atime arg); [simpl|done].
    destruct (attr_mtime arg); [simpl|done].
    by destruct (get_macos_setattr now arg) as [[[[? ?] ?] ?]|].
  - unfold dispatch_write. by destruct (assert _).
  - unfold dispatch_setxattr. by destruct (assert _).
Qed.

(** One dispatch on the logged filesystem is, the log apart, the dispatch
    on the filesystem. *)
Lemma dispatch_unlogged (now : Clock) self se :
  dispatch now self (unlogged se) = unlogged_step (dispatch now self se).
Proof.
  apply (dispatch_cases now (fun r => dispatch now self (unlogged se) = unlogged_step r)).
  - intros arg Hop. rewrite (dispatch_Init _ _ _ _ Hop). apply dispatch_init_unlogged.
  - intros Hi Hn. by rewrite dispatch_uninitialized.
  - intros Hop Hi. by rewrite dispatch_Destroy.
  - intros Hi Hd Hini Hdes. by rewrite dispatch_destroyed.
  - intros Hi Hd Hini Hdes. rewrite dispatch_live by done. apply dispatch_operation_unlogged.
Qed.

Lemma run_unlogged (inputs : list Input) se :
  run inputs (unlogged se) = unlogged_step (run inputs se).
Proof.
  revert se. induction inputs as [|[now self] inputs IH]; intros se; [done|]. simpl.
  rewrite dispatch_unlogged. destruct (dispatch now self se) as [[se1 msgs1]|]; [simpl|done].
  rewrite IH. by destruct (run inputs se1) as [[se2 msgs2]|].
Qed.

(** A run on the filesystem is the shadow of a run on the logged one. *)
Lemma run_unlogged_Done (inputs : list Input) se (se' : Session FS) msgs :
  run inputs (unlogged se) = Done (se', msgs) ->
  exists sel, run inputs se = Done (sel, msgs) /\ unlogged sel = se'.
Proof.
  rewrite run_unlogged. destruct (run inputs se) as [[sel msgs']|]; [simpl|done].
  intros [= <- <-]. by exists sel.
Qed.
End Logged.
