(* ===== verification/Lifecycle.v ===== *)
(** * What the filesystem sees

    The filesystem is mounted by the handshake and retired by the teardown:
    its [init] hook runs before any of its methods, and after its [destroy]
    hook no method runs any more.  Both are properties of the order of the
    guards in [Request::dispatch]; they are stated on the log of an
    observed filesystem ([Observer]), proved as invariants of the runs of
    the dispatch loop, and hold of the calls made to any filesystem, since
    any filesystem can be observed. *)

From Stdlib Require Import ZArith Lia Bool.
From stdpp Require Import base tactics numbers list option.
From S2P Require Import Prelude Abi Time LlRequest Reply Request Filesystem Session.
From S2P Require Import Dispatch Spec DispatchProps SessionProps ReplyProps Machine Observer.

#[local] Open Scope Z_scope.

(** ** The events *)

Definition is_init_event (e : Event) : bool :=
  match e with EInit _ => true | _ => false end.

Definition is_call_event (e : Event) : bool :=
  match e with ECall _ _ => true | _ => false end.

Definition is_destroy_event (e : Event) : bool :=
  match e with EDestroy _ => true | _ => false end.

(** The log starts with the [init] hook, if it starts at all. *)
Definition init_first (log : list Event) : bool :=
  match log with
  | [] => true
  | e :: _ => is_init_event e
  end.

(** The log has no [destroy] hook. *)
Definition in_service (log : list Event) : bool :=
  forallb (fun e => negb (is_destroy_event e)) log.

(** After the first [destroy] hook of the log, if there is one, no method
    of the filesystem is called; the hooks may run again. *)
Fixpoint quiet_after_destroy (log : list Event) : bool :=
  match log with
  | [] => true
  | e :: rest =>
      if is_destroy_event e then forallb (fun e => negb (is_call_event e)) rest
      else quiet_after_destroy rest
  end.

Lemma in_service_app (log1 log2 : list Event) :
  in_service (log1 ++ log2) = in_service log1 && in_service log2.
Proof. apply forallb_app. Qed.

(** One more event keeps the log quiet if it is a hook or if the filesystem
    is in service. *)
Lemma quiet_after_destroy_snoc (log : list Event) (e : Event) :
  quiet_after_destroy (log ++ [e]) =
  quiet_after_destroy log && (negb (is_call_event e) || in_service log).
Proof.
  induction log as [|e0 log IH]; simpl; [by rewrite orb_true_r; destruct e|].
  destruct (is_destroy_event e0); simpl.
  - by rewrite forallb_app, orb_false_r; simpl; rewrite andb_true_r.
  - exact IH.
Qed.

(** ** The invariants *)

(** The log of the filesystem is well ordered when it starts with the
    [init] hook, and is empty only in a session that is not initialized. *)
Definition well_ordered `{Observer FS} (se : Session FS) : Prop :=
  init_first (seen (filesystem se)) = true /\
  (seen (filesystem se) = [] -> initialized se = false).

(** The filesystem is retired properly when its log is quiet after the
    first [destroy], and has none while the session is not destroyed. *)
Definition retired_properly `{Observer FS} (se : Session FS) : Prop :=
  quiet_after_destroy (seen (filesystem se)) = true /\
  (destroyed se = false -> in_service (seen (filesystem se)) = true).

#[export] Instance well_ordered_dec `{Observer FS} (se : Session FS) :
  Decision (well_ordered se).
Proof. unfold well_ordered. apply _. Defined.

#[export] Instance retired_properly_dec `{Observer FS} (se : Session FS) :
  Decision (retired_properly se).
Proof. unfold retired_properly. apply _. Defined.

Section Lifecycle.
Context `{Config} `{fs.Filesystem FS} `{Observer FS} `{!ObserverLaws FS}.
Implicit Types (self : Request) (se : Session FS) (now : Clock) (inputs : list Input).

Lemma dispatch_well_ordered now self se se' msgs :
  well_ordered se -> dispatch now self se = Done (se', msgs) -> well_ordered se'.
Proof.
  intros [Hf Hi] (a & Hg & Hs & _ & Hn)%dispatch_observed. unfold well_ordered.
  rewrite Hs. destruct (seen (filesystem se)) as [|e0 log]; [|done].
  destruct a as [arg| | |c|]; simpl in *; try by split; [|intros _; rewrite Hn; auto].
  - case_decide; [done|]. by split; [|intros _; rewrite Hn; auto].
  - by rewrite Hi in Hg.
  - destruct Hg as [Hg _]. by rewrite Hi in Hg.
Qed.

Lemma dispatch_retired_properly now self se se' msgs :
  retired_properly se -> dispatch now self se = Done (se', msgs) -> retired_properly se'.
Proof.
  unfold retired_properly. intros [Hq Hs] (a & Hg & -> & -> & _)%dispatch_observed.
  destruct a as [arg| | |c|]; simpl in *; rewrite ?app_nil_r, ?orb_false_r; try done.
  - case_decide; rewrite ?app_nil_r; [|done].
    rewrite quiet_after_destroy_snoc, in_service_app, Hq. simpl.
    split; [done|]. intros Hd. by rewrite Hs.
  - rewrite quiet_after_destroy_snoc, Hq, orb_true_r. by split.
  - destruct Hg as [_ Hd]. rewrite quiet_after_destroy_snoc, in_service_app, Hq, Hs by done.
    by split.
Qed.

(** The filesystem sees [init] first.  Whatever requests arrive and
    in whatever order on a new session of a filesystem that nothing has
    called yet, the first thing the filesystem sees is its [init] hook,
    and while it has seen nothing the session is not initialized: no
    method and no [destroy] reaches the filesystem before the handshake. *)
Theorem filesystem_sees_init_first inputs (f : FS) se' msgs :
  seen f = [] ->
  run inputs (session.new f) = Done (se', msgs) -> well_ordered se'.
Proof.
  intros Hf. apply (run_invariant well_ordered); [apply dispatch_well_ordered|].
  unfold well_ordered. simpl. by rewrite Hf.
Qed.

(** No method after the [destroy] hook.  Whatever requests arrive and
    in whatever order on a new session, once the filesystem's [destroy]
    hook has run no method of the filesystem is called any more: every
    later operation is turned away by the guard on [se.destroyed], which
    nothing resets; only the hooks [init] and [destroy] can run again. *)
Theorem no_call_after_destroy inputs (f : FS) se' msgs :
  seen f = [] ->
  run inputs (session.new f) = Done (se', msgs) ->
  quiet_after_destroy (seen (filesystem se')) = true.
Proof.
  intros Hf Hrun.
  apply (run_invariant retired_properly) in Hrun as [Hq _];
    [done|apply dispatch_retired_properly|].
  unfold retired_properly. simpl. by rewrite Hf.
Qed.
End Lifecycle.

(** ** Every filesystem *)

Section EveryFilesystem.
Context `{Config} `{fs.Filesystem FS}.
#[local] Existing Instances Logged_fs Logged_observer Logged_observes.
Implicit Types (f : FS) (inputs : list Input).

(** C29: the life of every filesystem.  Take any filesystem and any run
    of the dispatch loop on a new session of it.  The same run on the
    filesystem with a log beside it returns the same session and the same
    messages, and the log, which is the sequence of the hooks and methods
    the dispatcher has called, starts with the [init] hook, is empty only
    if the session is not initialized, and has no method after the first
    [destroy] hook. *)
Theorem every_filesystem_lifecycle inputs f se' msgs :
  run inputs (session.new f) = Done (se', msgs) ->
  exists sel : Session (Logged FS),
    run inputs (session.new (f, [])) = Done (sel, msgs) /\ unlogged sel = se' /\
    well_ordered sel /\ quiet_after_destroy (seen (filesystem sel)) = true.
Proof.
  intros (sel & Hl & Hu)%(run_unlogged_Done inputs (session.new (f, []))).
  exists sel. split_and!; [done|done|..].
  - by eapply filesystem_sees_init_first, Hl.
  - by eapply no_call_after_destroy, Hl.
Qed.
End EveryFilesystem.

(** ** Concrete runs *)

Lemma filesystem_sees_init_first_witness :
  well_ordered (final (run (H := linux) (early ++ session_life) fresh)).
Proof.
  apply (filesystem_sees_init_first (H := linux) (early ++ session_life)
           (Recorder.empty (Ok tt)) _
           (written (run (H := linux) (early ++ session_life) fresh))); reflexivity.
Defined.

(** A session that lives twice: after the teardown the handshake and the
    teardown run their hooks again, the attribute queries are turned
    away. *)
Lemma no_call_after_destroy_witness :
  quiet_after_destroy
    (seen (filesystem (final (run (H := linux) (session_life ++ session_life) fresh))))
  = true.
Proof.
  apply (no_call_after_destroy (H := linux) (session_life ++ session_life)
           (Recorder.empty (Ok tt)) _
           (written (run (H := linux) (session_life ++ session_life) fresh))); reflexivity.
Defined.

#[local] Existing Instances Logged_fs Logged_observer.

(** The same life, of the recording filesystem with a log beside it. *)
Lemma every_filesystem_lifecycle_witness :
  exists sel : Session (Logged Recorder.t),
    run (H := linux) (session_life ++ session_life) (session.new (Recorder.empty (Ok tt), []))
      = Done (sel, written (run (H := linux) (session_life ++ session_life) fresh)) /\
    unlogged sel = final (run (H := linux) (session_life ++ session_life) fresh) /\
    well_ordered sel /\ quiet_after_destroy (seen (filesystem sel)) = true.
Proof.
  apply (every_filesystem_lifecycle (H := linux) (session_life ++ session_life)
           (Recorder.empty (Ok tt))).
  reflexivity.
Defined.

Example second_life_log :
  Recorder.log (filesystem (final (run (H := linux) (session_life ++ session_life) fresh))) =
  [ EInit (sample init_7_31); ECall sample_getattr (CGetattr 1 (Request.reply sample_getattr));
    EDestroy (sample ll_request.Destroy); EInit (sample init_7_31);
    EDestroy (sample ll_request.Destroy) ].
Proof. reflexivity. Qed.

(** The guard is what retires the filesystem, not the arms: the arm of an
    operation run on a destroyed session calls the method.  The test of
    [se.destroyed] and the arm must therefore be one step on the session,
    which the exclusive borrow [&mut Session] of [dispatch] ensures. *)
Example arm_without_guard :
  quiet_after_destroy
    (Recorder.log (filesystem (final
       (dispatch_operation (H := linux) sample_clock sample_getattr
          (final (run (H := linux) session_life fresh)) ll_request.GetAttr)))) = false.
Proof. reflexivity. Qed.
