(* ===== verification/ExactlyOnce.v ===== *)
(** * Every request is answered exactly once

    The kernel tolerates neither a missing nor a duplicate reply.  The
    dispatcher answers by itself or hands the reply object to a method of
    the filesystem; whether the request is answered is then up to the
    method.  [FilesystemReplies] is the contract of a filesystem that
    answers: a method that is given a reply object writes exactly one
    message through it, and [forget], which is given none, writes nothing.
    For such a filesystem every request is answered exactly once, bound to
    the request, except a [Forget] in a live session, which is not
    answered.  Over a run of the loop the replies then contain, in the
    order of the requests, one for every request other than [Forget]. *)

From Stdlib Require Import ZArith Lia.
From stdpp Require Import base tactics numbers list option.
From S2P Require Import Prelude Abi Time LlRequest Reply Request Filesystem Session.
From S2P Require Import Dispatch Spec DispatchProps SessionProps DeriveProps ReplyProps.
From S2P Require Import Machine.

#[local] Open Scope Z_scope.

(** What a call that answers writes: one message through the reply object
    of the call, or nothing when the call has none. *)
Definition replies (c : FsCall) (msgs : list Message) : Prop :=
  match call_binding c with
  | Some b => exists m, msgs = [m] /\ msg_binding m = b
  | None => msgs = []
  end.

Class FilesystemReplies (FS : Type) `{fs.Filesystem FS} : Prop := {
  invoke_replies : forall (f : FS) (req : Request) (c : FsCall),
    replies c (invoke f req c).2;
}.

(** A filesystem that answers keeps the contract of the reply object. *)
Lemma replies_answers (c : FsCall) (msgs : list Message) : replies c msgs -> answers c msgs.
Proof.
  unfold replies, answers. destruct (call_binding c); [|done].
  intros (m & -> & Hm). by apply uses_one.
Qed.

#[export] Instance Recorder_replies : FilesystemReplies Recorder.t.
Proof.
  split. intros f req c. rewrite Recorder_invoke.
  unfold replies, Recorder.record, Recorder.reply_of. cbn [snd].
  destruct (call_binding c) as [[u s]|]; [by eexists|done].
Qed.

(** The requests that are not answered: [Forget], when it reaches the
    filesystem. *)
Definition unanswered `{fs.Filesystem FS} (self : Request) (se : Session FS) : bool :=
  ll_request.is_forget (ll_request.operation (request self)) &&
  initialized se && negb (destroyed se).

(** What one dispatch writes. *)
Definition answered_once `{fs.Filesystem FS} (self : Request) (se : Session FS)
    (msgs : list Message) : Prop :=
  if unanswered self se then msgs = []
  else exists m, msgs = [m] /\ msg_binding m = request_binding self.

Section ExactlyOnce.
Context `{Config} `{fs.Filesystem FS} `{!FilesystemReplies FS}.
Variable now : Clock.
Implicit Types (self : Request) (se : Session FS) (op : ll_request.Operation).

(** The call an operation derives carries the reply object of the
    request, except the call of [forget], which carries none. *)
Lemma derive_binding self op c :
  derive now self op = Forward c ->
  call_binding c =
  if ll_request.is_forget op then None else Some (request_binding self).
Proof.
  destruct op; simpl; try done; try (by intros [= <-]);
    try (case_decide; [by intros [= <-]|done]).
  unfold setattr_call.
  destruct (present_time _ 4 _); [simpl|done].
  destruct (present_time _ 5 _); [simpl|done].
  destruct (macos_fields now arg) as [[[[? ?] ?] ?]|]; [simpl|done].
  by intros [= <-].
Qed.

Lemma execute_derive_once self se op se' msgs :
  execute self se (derive now self op) = Done (se', msgs) ->
  if ll_request.is_forget op then msgs = []
  else exists m, msgs = [m] /\ msg_binding m = request_binding self.
Proof.
  destruct (derive now self op) as [arg|e| |c|p] eqn:Hd; simpl.
  - destruct op; try done; simpl in Hd; try (by case_decide);
      try (by destruct (setattr_call now self arg0)).
    destruct (handshake_done self se arg) as (se0 & m & -> & Hm).
    intros [= <- <-]. by eexists.
  - destruct op; try done; simpl in Hd; try (by case_decide);
      try (by destruct (setattr_call now self arg)).
    intros [= <- <-]. by eexists.
  - destruct op; try done; simpl in Hd; try (by case_decide);
      try (by destruct (setattr_call now self arg)).
    intros [= <- <-]. by eexists.
  - intros [= <- <-]. pose proof (invoke_replies (filesystem se) self c) as Hr.
    unfold replies in Hr. rewrite (derive_binding _ _ _ Hd) in Hr.
    by destruct (ll_request.is_forget op).
  - done.
Qed.

(** What one dispatch writes for a filesystem that answers. *)
Lemma dispatch_answered_once self se se' msgs :
  ll_request.ok (ll_request.operation (request self)) ->
  dispatch now self se = Done (se', msgs) -> answered_once self se msgs.
Proof.
  intros Hok. unfold answered_once, unanswered.
  destruct (dispatch_guards now self se) as [(Hp & se0 & m & -> & Hm)|(Hi & Hd & ->)].
  - intros [= <- <-]. unfold protocol_level in Hp.
    destruct (ll_request.operation (request self)), (initialized se), (destroyed se);
      simpl in *; by eauto || (exfalso; intuition congruence).
  - rewrite Hi, Hd. cbn [negb]. rewrite !andb_true_r, dispatch_operation_derive by done.
    apply execute_derive_once.
Qed.

(** C3: every request is answered exactly once.  For a filesystem whose
    methods answer through the reply object they are given, a call of
    [dispatch] that returns has written exactly one message, bound to the
    request, whatever the operation and the session state; only a
    [Forget] that reaches the filesystem is not answered, and a [Forget]
    before the handshake or after the teardown is answered with the
    error of its rejection. *)
Theorem replies_exactly_once self se se' msgs :
  ll_request.ok (ll_request.operation (request self)) ->
  dispatch now self se = Done (se', msgs) -> answered_once self se msgs.
Proof. apply dispatch_answered_once. Qed.
End ExactlyOnce.

(** ** Concrete runs *)

Definition sample_forget : Request := sample (ll_request.Forget (fuse_forget_in.mk 2)).

Lemma replies_exactly_once_witness :
  answered_once sample_forget live [] /\
  answered_once sample_forget fresh [answer sample_forget EIO NoPayload].
Proof.
  split.
  - by apply (replies_exactly_once (H := linux) sample_clock sample_forget live
                (result_of (dispatch (H := linux) sample_clock sample_forget live)).1).
  - by apply (replies_exactly_once (H := linux) sample_clock sample_forget fresh fresh).
Defined.

(** ** Whole runs *)

(** The requests the kernel expects an answer to: all but [Forget]. *)
Definition expects_reply (i : Input) : bool :=
  negb (ll_request.is_forget (ll_request.operation (request i.2))).

Section Runs.
Context `{Config} `{fs.Filesystem FS} `{!FilesystemReplies FS}.
Implicit Types (se : Session FS) (inputs : list Input).

(** A request that expects an answer gets one from its dispatch. *)
Lemma dispatch_expected now self se se' msgs :
  ll_request.ok (ll_request.operation (request self)) ->
  expects_reply (now, self) ->
  dispatch now self se = Done (se', msgs) ->
  msg_binding <$> msgs = [request_binding self].
Proof.
  intros Hok He Hd. pose proof (dispatch_answered_once _ _ _ _ _ Hok Hd) as Ha.
  unfold answered_once, unanswered in Ha. unfold expects_reply in He. simpl in He.
  destruct (ll_request.is_forget _); [done|]. simpl in Ha.
  by destruct Ha as (m & -> & <-).
Qed.

(** C13: no request is left without its answer.  Over a run of requests
    with fields in range, for a filesystem that answers every call, the
    replies on the channel contain, in the order of the requests, a reply
    bound to every request other than [Forget]: what the kernel waits for
    arrives, and in order. *)
Theorem run_answers_every_request inputs se se' msgs :
  Forall (fun i : Input => ll_request.ok (ll_request.operation (request i.2))) inputs ->
  run inputs se = Done (se', msgs) ->
  (request_binding ∘ snd) <$> filter (fun i => expects_reply i) inputs
    `sublist_of` msg_binding <$> msgs.
Proof.
  revert se msgs. induction inputs as [|[now self] inputs IH]; intros se msgs Hok.
  - intros _. apply sublist_nil_l.
  - apply Forall_cons_1 in Hok as [Hok Hoks].
    intros (se1 & msgs1 & msgs2 & Hd & Hr & ->)%run_cons_Done.
    rewrite fmap_app, list.filter_cons. case_decide as He.
    + rewrite fmap_cons, (dispatch_expected _ _ _ _ _ Hok He Hd). apply sublist_skip; eauto.
    + apply sublist_inserts_l; eauto.
Qed.

(** Without [Forget] the replies are bound to the requests one for one. *)
Theorem run_answered_in_order inputs se se' msgs :
  Forall (fun i : Input => ll_request.ok (ll_request.operation (request i.2)) /\
                           expects_reply i) inputs ->
  run inputs se = Done (se', msgs) ->
  msg_binding <$> msgs = (request_binding ∘ snd) <$> inputs.
Proof.
  revert se msgs. induction inputs as [|[now self] inputs IH]; intros se msgs Hok.
  - by intros [= <- <-].
  - apply Forall_cons_1 in Hok as [[Hok He] Hoks].
    intros (se1 & msgs1 & msgs2 & Hd & Hr & ->)%run_cons_Done.
    rewrite fmap_app, fmap_cons, (dispatch_expected _ _ _ _ _ Hok He Hd). simpl.
    f_equal. eauto.
Qed.
End Runs.

(** A session's life with a [Forget] in it: three replies for four
    requests. *)
Definition forgetful_life : list Input :=
  [ (sample_clock, sample init_7_31); (sample_clock, sample_forget);
    (sample_clock, sample_getattr); (sample_clock, sample ll_request.Destroy) ].

Lemma run_answers_every_request_witness :
  [(77, 3); (77, 3); (77, 3)]
    `sublist_of` msg_binding <$> written (run (H := linux) forgetful_life fresh).
Proof.
  apply (run_answers_every_request (H := linux) forgetful_life fresh
           (final (run (H := linux) forgetful_life fresh))).
  - repeat (apply Forall_cons_2; [by vm_compute|]). apply Forall_nil_2.
  - reflexivity.
Defined.
