(* ===== verification/Containment.v ===== *)
(** * Errors stay with their request

    A request the dispatcher refuses (an operation before the handshake or
    after the teardown, a handshake of an unsupported version, an
    interrupt) is answered with one error and leaves the session as it
    was.  Over a run this means that the refusal is contained: the other
    requests are handled, and answered, as if the refused request had not
    been made. *)

From Stdlib Require Import ZArith Lia.
From stdpp Require Import base tactics numbers list option.
From S2P Require Import Prelude Abi Time LlRequest Reply Request Filesystem Session.
From S2P Require Import Dispatch Spec DispatchProps SessionProps Logging ReplyProps Machine.

#[local] Open Scope Z_scope.

(** ** Refusals *)

(** The error code of a request the dispatcher refuses, if it does:
    [EPROTO] or [EIO] for a request the guards do not admit, [ENOSYS] for
    an interrupt in a live session. *)
Definition refused `{Config} `{fs.Filesystem FS} (self : Request) (se : Session FS)
  : option Z :=
  let op := ll_request.operation (request self) in
  if negb (admitted self se) then Some (if ll_request.is_init op then EPROTO else EIO)
  else if is_interrupt op then Some ENOSYS
  else None.

(** The run with one more reply at position [k]. *)
Definition insert_reply {FS} (k : nat) (m : Message) (s : Step FS) : Step FS :=
  '(se, msgs) ← s; Done (se, take k msgs ++ m :: drop k msgs).

Section Containment.
Context `{Config} `{fs.Filesystem FS}.
Implicit Types (self : Request) (se : Session FS) (now : Clock) (inputs : list Input).

(** The answers of a run of refused requests. *)
Definition refusals se inputs : list Message :=
  omap (fun i : Input => (fun e => answer i.2 e NoPayload) <$> refused i.2 se) inputs.

(** A run in two parts. *)
Lemma run_app inputs1 inputs2 se :
  run (inputs1 ++ inputs2) se =
  '(se1, msgs1) ← run inputs1 se;
  '(se2, msgs2) ← run inputs2 se1;
  Done (se2, msgs1 ++ msgs2).
Proof.
  revert se. induction inputs1 as [|[now self] inputs1 IH]; intros se; simpl.
  - by destruct (run inputs2 se) as [[? ?]|].
  - destruct (dispatch now self se) as [[se0 msgs0]|]; [simpl|done]. rewrite IH.
    destruct (run inputs1 se0) as [[se1 msgs1]|]; [simpl|done].
    destruct (run inputs2 se1) as [[se2 msgs2]|]; [simpl|done].
    by rewrite app_assoc.
Qed.

(** A refused request: one error, and the session as it was. *)
Lemma refused_dispatch now self se (e : Z) :
  refused self se = Some e ->
  dispatch now self se = Done (se, [answer self e NoPayload]).
Proof.
  unfold refused. destruct (admitted self se) eqn:Ha; simpl.
  - destruct (is_interrupt _) eqn:Hint; [|done]. intros [= <-].
    destruct (ll_request.operation (request self)) eqn:Hop; try done.
    unfold admitted in Ha. rewrite Hop in Ha. apply andb_prop in Ha as [Hi Hd].
    rewrite dispatch_live, Hop; [done..|]. by apply negb_true_iff.
  - intros [= <-]. by apply not_admitted_refused.
Qed.

(** C31: a run of refused requests.  A sequence of requests each of which
    the dispatcher refuses in the session as it is (operations before the
    handshake or after the teardown, handshakes of unsupported versions,
    interrupts) leaves the session and its filesystem untouched, and the
    channel carries the error of each request, in the order of the
    requests. *)
Theorem refused_run_rejects inputs se :
  Forall (fun i : Input => is_Some (refused i.2 se)) inputs ->
  run inputs se = Done (se, refusals se inputs) /\
  length (refusals se inputs) = length inputs.
Proof.
  induction 1 as [|[now self] inputs [e He] _ [IH Hlen]]; [done|].
  unfold refusals in *. simpl in *.
  rewrite (refused_dispatch now self se e He), He. simpl. rewrite IH.
  split; [done|]. simpl. f_equal. exact Hlen.
Qed.

(** C32: a refusal is contained.  In a run in which one request is
    refused, every other request is handled as if the refused request had
    not been made: the run returns the session of the run without it, and
    the messages of the run without it with the one error inserted where
    the request was; it panics when the run without it panics. *)
Theorem refusal_contained inputs1 now self inputs2 se se1 msgs1 (e : Z) :
  run inputs1 se = Done (se1, msgs1) -> refused self se1 = Some e ->
  run (inputs1 ++ (now, self) :: inputs2) se =
  insert_reply (length msgs1) (answer self e NoPayload) (run (inputs1 ++ inputs2) se).
Proof.
  intros Hrun He. rewrite !run_app, Hrun. simpl.
  rewrite (refused_dispatch now self se1 e He). simpl.
  destruct (run inputs2 se1) as [[se2 msgs2]|]; [simpl|done].
  by rewrite take_app_length, drop_app_length.
Qed.
End Containment.

(** ** Concrete runs *)

Definition sample_interrupt : Request :=
  sample (ll_request.Interrupt (fuse_interrupt_in.mk 76)).

Lemma refused_run_rejects_witness :
  run (H := linux) (early ++ [(sample_clock, sample init_7_5)]) fresh =
    Done (fresh, [mkMessage 3 77 5 NoPayload; mkMessage 3 77 5 NoPayload;
                  mkMessage 3 77 71 NoPayload]) /\
  length (refusals (H := linux) fresh (early ++ [(sample_clock, sample init_7_5)])) = 3%nat.
Proof.
  apply (refused_run_rejects (H := linux) (early ++ [(sample_clock, sample init_7_5)]) fresh).
  repeat (apply Forall_cons_2; [by eexists|]). apply Forall_nil_2.
Defined.

Lemma refusal_contained_witness :
  run (H := linux)
    ([(sample_clock, sample init_7_31)] ++ (sample_clock, sample_interrupt) ::
       [(sample_clock, sample_getattr); (sample_clock, sample ll_request.Destroy)]) fresh =
  insert_reply 1 (answer sample_interrupt 38 NoPayload)
    (run (H := linux)
       ([(sample_clock, sample init_7_31)] ++
          [(sample_clock, sample_getattr); (sample_clock, sample ll_request.Destroy)]) fresh).
Proof.
  exact (refusal_contained (H := linux) [(sample_clock, sample init_7_31)] sample_clock
           sample_interrupt
           [(sample_clock, sample_getattr); (sample_clock, sample ll_request.Destroy)] fresh
           (final (run (H := linux) [(sample_clock, sample init_7_31)] fresh))
           (written (run (H := linux) [(sample_clock, sample init_7_31)] fresh)) 38
           eq_refl eq_refl).
Defined.
