(* ===== verification/Loop.v ===== *)
(** * Loop: the session's loop over the channel, as an interaction tree

    The loop that owns the session ([Session::run] in [session.rs], which is
    not part of the sources and is modelled from the specification) reads one
    buffer at a time from the channel, hands it to [Request::new] and
    [Request::dispatch] ([Machine.receive]) and writes the replies back.  It is
    modelled as an interaction tree over the events of the channel and of the
    clock, iterated with [ITree.iter]; a handler interprets the events in a
    world that holds the buffers the kernel is going to send and the
    replies written so far.  The theorems show that the loop, run against
    such a world, ends: it returns what the function [play] computes from
    the world, which is, where no turn panics, the session and the replies
    of [Machine.run] on the requests the buffers parse to. *)

From Stdlib Require Import ZArith List.
From ITree Require Import ITree ITreeFacts Events.State Events.StateFacts.
From stdpp Require Import base tactics list option.
From S2P Require Import Prelude Abi Time LlRequest Reply Request Filesystem Session.
From S2P Require Import Dispatch Spec DispatchProps SessionProps ReplyProps Machine.

#[local] Open Scope Z_scope.

(** ** Events *)

(** What the loop asks of its surroundings: the next buffer of the channel
    ([Channel::receive]; [None] once the file system is unmounted), the
    reading of the clock ([SystemTime::now]) and the write of one reply
    ([ChannelSender::send]). *)
Variant loopE : Type -> Type :=
  | Receive : loopE (option bytes)
  | Now : loopE Clock
  | Send (m : Message) : loopE unit.

(** The kernel's side: the buffers it is going to send, each with the
    reading of the clock while it is handled, the current reading, and the
    replies it has been sent. *)
Record World : Type := mkWorld {
  pending : list (Clock * bytes);
  clock : Clock;
  sent : list Message;
}.

Definition handle_loopE : loopE ~> Monads.stateT World (itree void1) :=
  fun T (e : loopE T) (w : World) =>
    match e in loopE T return itree void1 (World * T) with
    | Receive =>
        match pending w with
        | [] => Ret (w, None)
        | (t, d) :: rest => Ret (mkWorld rest t (sent w), Some d)
        end
    | Now => Ret (w, clock w)
    | Send m => Ret (mkWorld (pending w) (clock w) (sent w ++ [m]), tt)
    end.

Section Loop.
Context `{Config} `{fs.Filesystem FS} `{Parser}.
Variable c : ChannelSender.
Implicit Types (se : Session FS) (w : World) (msgs : list Message).

(** ** The loop *)

Definition send_all msgs : itree loopE unit :=
  fold_right (fun m k => ITree.bind (trigger (Send m)) (fun _ => k)) (Ret tt) msgs.

(** One turn: [inl] goes round again with the session the request left,
    [inr] leaves the loop, when the channel is closed or dispatch
    panicked. *)
Definition loop_body se : itree loopE (Session FS + outcome (Session FS)) :=
  ITree.bind (trigger Receive) (fun r : option bytes =>
    match r with
    | None => Ret (inr (Done se))
    | Some d =>
        ITree.bind (trigger Now) (fun now =>
          match receive now c d se with
          | Done (se', msgs) => ITree.bind (send_all msgs) (fun _ => Ret (inl se'))
          | Panicked p => Ret (inr (Panicked p))
          end)
    end).

Definition session_loop : Session FS -> itree loopE (outcome (Session FS)) :=
  ITree.iter loop_body.

(** ** The reference: a fold of [receive] *)

Fixpoint serve (bufs : list (Clock * bytes)) se : Step FS :=
  match bufs with
  | [] => Done (se, [])
  | (t, d) :: rest =>
      '(se1, msgs1) ← receive t c d se;
      '(se2, msgs2) ← serve rest se1;
      Done (se2, msgs1 ++ msgs2)
  end.

(** The requests the buffers parse to. *)
Definition parsed (bufs : list (Clock * bytes)) : list Input :=
  omap (fun b : Clock * bytes => pair b.1 <$> Request.new c b.2) bufs.

(** The world the loop leaves when it has served every buffer. *)
Definition closing w msgs : World :=
  mkWorld [] (List.last (fst <$> pending w) (clock w)) (sent w ++ msgs).

(** The loop as a function on worlds: the world it leaves, and how it
    ends.  A panic leaves the buffers after it unread. *)
Fixpoint play_from (bufs : list (Clock * bytes)) (t0 : Clock) msgs se
  : World * outcome (Session FS) :=
  match bufs with
  | [] => (mkWorld [] t0 msgs, Done se)
  | (t, d) :: rest =>
      match receive t c d se with
      | Done (se1, msgs1) => play_from rest t (msgs ++ msgs1) se1
      | Panicked p => (mkWorld rest t msgs, Panicked p)
      end
  end.

Definition play w se : World * outcome (Session FS) :=
  play_from (pending w) (clock w) (sent w) se.

(** ** One turn of the loop *)

(** Unfolds one turn of the loop and answers its first event. *)
Ltac loop_turn :=
  unfold session_loop; rewrite unfold_iter; unfold loop_body at 1;
  rewrite bind_bind, interp_state_bind, interp_state_trigger; cbn;
  rewrite bind_ret_l; cbn.

Lemma send_all_sends msgs w :
  interp_state handle_loopE (send_all msgs) w ≈ Ret (mkWorld (pending w) (clock w) (sent w ++ msgs), tt).
Proof.
  revert w. induction msgs as [|m msgs IH]; intros [p t s]; simpl.
  - by rewrite interp_state_ret, app_nil_r.
  - rewrite interp_state_bind, interp_state_trigger. cbn. rewrite bind_ret_l. cbn.
    rewrite IH. simpl. by rewrite <- app_assoc.
Qed.

(** The channel is closed: the loop ends with the session it holds. *)
Lemma session_loop_closed se t s :
  interp_state handle_loopE (session_loop se) (mkWorld [] t s) ≈
  Ret (mkWorld [] t s, Done se).
Proof.
  loop_turn. by rewrite bind_ret_l, interp_state_ret.
Qed.

(** A buffer that is handled: its replies are written and the loop goes
    on with the session it left. *)
Lemma session_loop_turn se t d rest t0 s se1 msgs1 :
  receive t c d se = Done (se1, msgs1) ->
  interp_state handle_loopE (session_loop se) (mkWorld ((t, d) :: rest) t0 s) ≈
  interp_state handle_loopE (session_loop se1) (mkWorld rest t (s ++ msgs1)).
Proof.
  intros Hr. loop_turn. rewrite bind_bind, interp_state_bind, interp_state_trigger. cbn.
  rewrite bind_ret_l. cbn. rewrite Hr.
  rewrite bind_bind, interp_state_bind, send_all_sends, bind_ret_l. cbn.
  rewrite bind_ret_l, interp_state_tau, tau_eutt. reflexivity.
Qed.

(** A buffer on which dispatch panics: the loop ends there. *)
Lemma session_loop_panic se t d rest t0 s p :
  receive t c d se = Panicked p ->
  interp_state handle_loopE (session_loop se) (mkWorld ((t, d) :: rest) t0 s) ≈
  Ret (mkWorld rest t s, Panicked p).
Proof.
  intros Hr. loop_turn. rewrite bind_bind, interp_state_bind, interp_state_trigger. cbn.
  rewrite bind_ret_l. cbn. rewrite Hr, bind_ret_l. by rewrite interp_state_ret.
Qed.

(** ** The loop against a world *)

Lemma serve_parsed bufs se : serve bufs se = run (parsed bufs) se.
Proof.
  revert se. induction bufs as [|[t d] bufs IH]; intros se; [done|].
  unfold parsed. simpl. unfold receive. destruct (Request.new c d) as [req|]; simpl.
  - destruct (dispatch t req se) as [[se1 msgs1]|]; [simpl|done]. by rewrite IH.
  - rewrite IH. unfold parsed. by destruct (run _ se) as [[se2 msgs2]|].
Qed.

Lemma serve_cons_Done t d bufs se se' msgs :
  serve ((t, d) :: bufs) se = Done (se', msgs) ->
  exists se1 msgs1 msgs2,
    receive t c d se = Done (se1, msgs1) /\
    serve bufs se1 = Done (se', msgs2) /\ msgs = msgs1 ++ msgs2.
Proof.
  simpl. destruct (receive t c d se) as [[se1 msgs1]|]; [simpl|done].
  destruct (serve bufs se1) as [[se2 msgs2]|] eqn:Hs; [simpl|done].
  intros [= <- <-]. by exists se1, msgs1, msgs2.
Qed.

Lemma last_cons_default {A} (a d : A) (l : list A) : List.last (a :: l) d = List.last l a.
Proof.
  revert a d. induction l as [|b l IH]; intros a d; [done|].
  change (List.last (b :: l) d = List.last (b :: l) a). by rewrite !IH.
Qed.

Lemma closing_cons t d bufs t0 s msgs1 msgs2 :
  closing (mkWorld ((t, d) :: bufs) t0 s) (msgs1 ++ msgs2) =
  closing (mkWorld bufs t (s ++ msgs1)) msgs2.
Proof.
  unfold closing. cbn [pending clock sent]. by rewrite fmap_cons, last_cons_default, app_assoc.
Qed.

(** Against a world with finitely many buffers the loop ends, and does
    what [play] says. *)
Lemma session_loop_plays w se :
  interp_state handle_loopE (session_loop se) w ≈ Ret (play w se).
Proof.
  destruct w as [bufs t0 s]. unfold play. simpl. revert t0 s se.
  induction bufs as [|[t d] bufs IH]; intros t0 s se; simpl.
  - apply session_loop_closed.
  - destruct (receive t c d se) as [[se1 msgs1]|p] eqn:Hr.
    + by rewrite (session_loop_turn _ _ _ _ _ _ _ _ Hr).
    + by apply session_loop_panic.
Qed.

(** Where the reference returns, [play] leaves the closing world. *)
Lemma play_serve w se se' msgs :
  serve (pending w) se = Done (se', msgs) -> play w se = (closing w msgs, Done se').
Proof.
  destruct w as [bufs t0 s]. unfold play. simpl. revert t0 s se msgs.
  induction bufs as [|[t d] bufs IH]; intros t0 s se msgs.
  - intros [= <- <-]. unfold closing. simpl. by rewrite app_nil_r.
  - intros (se1 & msgs1 & msgs2 & Hr & Hs & ->)%serve_cons_Done. simpl.
    by rewrite Hr, (IH _ _ _ _ Hs), closing_cons.
Qed.

(** [play] ends as the reference does. *)
Lemma play_outcome bufs t0 s se :
  (play_from bufs t0 s se).2 = '(se', _) ← serve bufs se; Done se'.
Proof.
  revert t0 s se. induction bufs as [|[t d] bufs IH]; intros t0 s se; [done|]. simpl.
  destruct (receive t c d se) as [[se1 msgs1]|p]; [simpl|done].
  rewrite IH. by destruct (serve bufs se1) as [[se2 msgs2]|].
Qed.

(** What every turn keeps of the session and ensures of its replies holds
    of what [play] leaves, also when a panic ends it: the replies written
    until then have the property. *)
Lemma play_ensures (R : Clock * bytes -> Prop) (P : Session FS -> Prop)
    (Q : list Message -> list (Clock * bytes) -> Prop) :
  (forall read, Q [] read) ->
  (forall msgs1 msgs2 bufs1 bufs2, Q msgs1 bufs1 -> Q msgs2 bufs2 ->
     Q (msgs1 ++ msgs2) (bufs1 ++ bufs2)) ->
  (forall t d se se' msgs,
     R (t, d) -> P se -> receive t c d se = Done (se', msgs) -> P se' /\ Q msgs [(t, d)]) ->
  forall bufs t0 s se,
    Forall R bufs -> P se ->
    exists msgs read,
      sent (play_from bufs t0 s se).1 = s ++ msgs /\
      bufs = read ++ pending (play_from bufs t0 s se).1 /\ Q msgs read /\
      match (play_from bufs t0 s se).2 with
      | Done se' => P se' /\ pending (play_from bufs t0 s se).1 = []
      | Panicked _ => True
      end.
Proof.
  intros Hnil Happ Hturn bufs.
  induction bufs as [|[t d] bufs IH]; intros t0 s se HR HP; simpl.
  - exists [], []. by rewrite app_nil_r.
  - apply Forall_cons_1 in HR as [HR HRs].
    destruct (receive t c d se) as [[se1 msgs1]|p] eqn:Hr; simpl.
    + destruct (Hturn _ _ _ _ _ HR HP Hr) as [HP1 HQ1].
      destruct (IH t (s ++ msgs1) se1 HRs HP1) as (msgs2 & read & Hs & Hb & HQ2 & Hend).
      exists (msgs1 ++ msgs2), ((t, d) :: read).
      split_and!; [by rewrite Hs, app_assoc|by rewrite Hb at 1|by apply (Happ _ _ [_])|done].
    + exists [], [(t, d)]. by rewrite app_nil_r.
Qed.

Lemma session_loop_serve w se se' msgs :
  serve (pending w) se = Done (se', msgs) ->
  interp_state handle_loopE (session_loop se) w ≈ Ret (closing w msgs, Done se').
Proof. intros Hs. by rewrite session_loop_plays, (play_serve _ _ _ _ Hs). Qed.

Lemma session_loop_serve_panic w se p :
  serve (pending w) se = Panicked p ->
  exists w', interp_state handle_loopE (session_loop se) w ≈ Ret (w', Panicked p) /\
    sent w `prefix_of` sent w' /\ pending w' `suffix_of` pending w.
Proof.
  intros Hs. exists (play w se).1.
  destruct (play_ensures (fun _ => True) (fun _ => True) (fun _ _ => True) (fun _ => I)
              (fun _ _ _ _ _ _ => I) (fun _ _ _ _ _ _ _ _ => conj I I)
              (pending w) (clock w) (sent w) se) as (msgs & read & Hsent & Hb & _ & _);
    [by apply Forall_true|done|].
  fold (play w se) in Hsent, Hb. split_and!.
  - assert (play w se = ((play w se).1, Panicked p)) as <-; [|apply session_loop_plays].
    rewrite (surjective_pairing (play w se)) at 1. f_equal.
    unfold play. by rewrite play_outcome, Hs.
  - rewrite Hsent. by apply prefix_app_r.
  - by exists read.
Qed.

(** C20: the loop implements the run.  Against a world whose buffers parse
    to requests that [run] handles without a panic, the loop ends: it has
    read every buffer, the session it returns is the one [run] leaves, and
    what it has written to the channel is, after what was there, the replies
    of [run] in their order.  A buffer the parser rejects adds nothing. *)
Theorem session_loop_refines_run w se se' msgs :
  run (parsed (pending w)) se = Done (se', msgs) ->
  interp_state handle_loopE (session_loop se) w ≈ Ret (closing w msgs, Done se').
Proof. rewrite <- serve_parsed. apply session_loop_serve. Qed.

(** A panic of dispatch ends the loop with that panic: the replies written
    before it stay written, the buffers after it stay unread. *)
Theorem session_loop_stops_on_panic w se p :
  run (parsed (pending w)) se = Panicked p ->
  exists w', interp_state handle_loopE (session_loop se) w ≈ Ret (w', Panicked p) /\
    sent w `prefix_of` sent w' /\ pending w' `suffix_of` pending w.
Proof. rewrite <- serve_parsed. apply session_loop_serve_panic. Qed.

End Loop.

(** ** A concrete world *)

(** Three buffers on channel 3; the second is too short for a header. *)
Definition sample_world : World :=
  mkWorld [(sample_clock, [40]); (sample_clock, []); (sample_clock, [41])] sample_clock [].

Definition sample_requests : list Input :=
  [ (sample_clock, Request.mk 3 [40] (ll_request.mk sample_header ll_request.GetAttr));
    (sample_clock, Request.mk 3 [41] (ll_request.mk sample_header ll_request.GetAttr)) ].

Example sample_world_parsed :
  parsed (H1 := sample_parser) 3 (pending sample_world) = sample_requests.
Proof. reflexivity. Qed.

Lemma session_loop_refines_run_witness :
  interp_state handle_loopE
    (session_loop (H := linux) (H1 := sample_parser) 3 live) sample_world ≈
  Ret (mkWorld [] sample_clock (written (run (H := linux) sample_requests live)),
       Done (final (run (H := linux) sample_requests live))).
Proof.
  exact (session_loop_refines_run (H := linux) (H1 := sample_parser) 3 sample_world live
           _ _ eq_refl).
Defined.

Example sample_world_replies :
  written (run (H := linux) sample_requests live) = [getattr_reply; getattr_reply].
Proof. reflexivity. Qed.
