(* ===== verification/Typing.v ===== *)
(** * Values stay values of their types

    Integers are modelled as unbounded [Z]; the Rust types of the fields
    are range predicates.  This file states the types of everything that
    crosses the dispatcher's two interfaces, the arguments of each method
    of the [Filesystem] trait and the fields of each message on the
    channel, and shows that a request whose fields are values of their
    types is dispatched to a call and answered by messages whose fields
    are, casts and reconstructed instants included.  The recording
    filesystem holds every call it received, so the statement is about
    what the filesystem really sees. *)

From Stdlib Require Import ZArith Lia.
From stdpp Require Import base tactics numbers list option.
From S2P Require Import Prelude Abi Time LlRequest Reply Request Filesystem Session.
From S2P Require Import Dispatch Spec DispatchProps SessionProps ReplyProps Machine.
From S2P Require Import Observer.

#[local] Open Scope Z_scope.

(** ** The types *)

(** An optional value of a type. *)
Definition opt {A} (P : A -> Prop) (o : option A) : Prop :=
  match o with Some a => P a | None => True end.

(** A reply object: its correlation id is a [u64]. *)
Definition reply_typed {k} (r : Reply.t k) : Prop := is_u64 (Reply.unique r).

Definition dir_reply_typed (r : ReplyDirectory.t) : Prop :=
  reply_typed (ReplyDirectory.reply r) /\ is_u64 (ReplyDirectory.capacity r) /\
  is_bytes (ReplyDirectory.data r).

(** The arguments of each method, by the signature of the trait: node ids,
    handles, lock owners and sizes of files are [u64], offsets [i64],
    modes, flags, masks and sizes of buffers [u32]. *)
Definition call_typed (c : FsCall) : Prop :=
  match c with
  | CLookup parent name r => is_u64 parent /\ is_bytes name /\ reply_typed r
  | CForget ino nlookup => is_u64 ino /\ is_u64 nlookup
  | CGetattr ino r => is_u64 ino /\ reply_typed r
  | CSetattr ino mode uid gid size atime mtime fh crtime chgtime bkuptime flags r =>
      is_u64 ino /\ opt is_u32 mode /\ opt is_u32 uid /\ opt is_u32 gid /\
      opt is_u64 size /\ opt SystemTime.ok atime /\ opt SystemTime.ok mtime /\
      opt is_u64 fh /\ opt SystemTime.ok crtime /\ opt SystemTime.ok chgtime /\
      opt SystemTime.ok bkuptime /\ opt is_u32 flags /\ reply_typed r
  | CReadlink ino r => is_u64 ino /\ reply_typed r
  | CMknod parent name mode rdev r =>
      is_u64 parent /\ is_bytes name /\ is_u32 mode /\ is_u32 rdev /\ reply_typed r
  | CMkdir parent name mode r =>
      is_u64 parent /\ is_bytes name /\ is_u32 mode /\ reply_typed r
  | CUnlink parent name r => is_u64 parent /\ is_bytes name /\ reply_typed r
  | CRmdir parent name r => is_u64 parent /\ is_bytes name /\ reply_typed r
  | CSymlink parent name link r =>
      is_u64 parent /\ is_bytes name /\ is_bytes link /\ reply_typed r
  | CRename parent name newparent newname r =>
      is_u64 parent /\ is_bytes name /\ is_u64 newparent /\ is_bytes newname /\
      reply_typed r
  | CLink ino newparent newname r =>
      is_u64 ino /\ is_u64 newparent /\ is_bytes newname /\ reply_typed r
  | COpen ino flags r => is_u64 ino /\ is_u32 flags /\ reply_typed r
  | CRead ino fh offset size r =>
      is_u64 ino /\ is_u64 fh /\ is_i64 offset /\ is_u32 size /\ reply_typed r
  | CWrite ino fh offset data flags r =>
      is_u64 ino /\ is_u64 fh /\ is_i64 offset /\ is_bytes data /\ is_u32 flags /\
      reply_typed r
  | CFlush ino fh lock_owner r =>
      is_u64 ino /\ is_u64 fh /\ is_u64 lock_owner /\ reply_typed r
  | CRelease ino fh flags lock_owner _ r =>
      is_u64 ino /\ is_u64 fh /\ is_u32 flags /\ is_u64 lock_owner /\ reply_typed r
  | CFsync ino fh _ r => is_u64 ino /\ is_u64 fh /\ reply_typed r
  | COpendir ino flags r => is_u64 ino /\ is_u32 flags /\ reply_typed r
  | CReaddir ino fh offset r =>
      is_u64 ino /\ is_u64 fh /\ is_i64 offset /\ dir_reply_typed r
  | CReleasedir ino fh flags r =>
      is_u64 ino /\ is_u64 fh /\ is_u32 flags /\ reply_typed r
  | CFsyncdir ino fh _ r => is_u64 ino /\ is_u64 fh /\ reply_typed r
  | CStatfs ino r => is_u64 ino /\ reply_typed r
  | CSetxattr ino name value flags position r =>
      is_u64 ino /\ is_bytes name /\ is_bytes value /\ is_u32 flags /\
      is_u32 position /\ reply_typed r
  | CGetxattr ino name size r =>
      is_u64 ino /\ is_bytes name /\ is_u32 size /\ reply_typed r
  | CListxattr ino size r => is_u64 ino /\ is_u32 size /\ reply_typed r
  | CRemovexattr ino name r => is_u64 ino /\ is_bytes name /\ reply_typed r
  | CAccess ino mask r => is_u64 ino /\ is_u32 mask /\ reply_typed r
  | CCreate parent name mode flags r =>
      is_u64 parent /\ is_bytes name /\ is_u32 mode /\ is_u32 flags /\ reply_typed r
  | CGetlk ino fh lock_owner start end_ typ pid r =>
      is_u64 ino /\ is_u64 fh /\ is_u64 lock_owner /\ is_u64 start /\ is_u64 end_ /\
      is_u32 typ /\ is_u32 pid /\ reply_typed r
  | CSetlk ino fh lock_owner start end_ typ pid _ r =>
      is_u64 ino /\ is_u64 fh /\ is_u64 lock_owner /\ is_u64 start /\ is_u64 end_ /\
      is_u32 typ /\ is_u32 pid /\ reply_typed r
  | CBmap ino blocksize idx r =>
      is_u64 ino /\ is_u32 blocksize /\ is_u64 idx /\ reply_typed r
  | CSetvolname name r => is_bytes name /\ reply_typed r
  | CExchange parent name newparent newname options r =>
      is_u64 parent /\ is_bytes name /\ is_u64 newparent /\ is_bytes newname /\
      is_u64 options /\ reply_typed r
  | CGetxtimes ino r => is_u64 ino /\ reply_typed r
  end.

(** An operation as the parser builds it: argument structs with fields in
    range, names and payloads of bytes. *)
Definition op_typed (op : ll_request.Operation) : Prop :=
  match op with
  | ll_request.Lookup name | ll_request.Unlink name | ll_request.RmDir name
  | ll_request.RemoveXAttr name | ll_request.SetVolName name => is_bytes name
  | ll_request.Forget arg => fuse_forget_in.ok arg
  | ll_request.GetAttr | ll_request.ReadLink | ll_request.StatFs
  | ll_request.Destroy | ll_request.GetXTimes => True
  | ll_request.SetAttr arg => fuse_setattr_in.ok arg
  | ll_request.SymLink name link => is_bytes name /\ is_bytes link
  | ll_request.MkNod arg name => fuse_mknod_in.ok arg /\ is_bytes name
  | ll_request.MkDir arg name => fuse_mkdir_in.ok arg /\ is_bytes name
  | ll_request.Rename arg name newname =>
      fuse_rename_in.ok arg /\ is_bytes name /\ is_bytes newname
  | ll_request.Link arg name => fuse_link_in.ok arg /\ is_bytes name
  | ll_request.Open arg | ll_request.OpenDir arg => fuse_open_in.ok arg
  | ll_request.Read arg | ll_request.ReadDir arg => fuse_read_in.ok arg
  | ll_request.Write arg data => fuse_write_in.ok arg /\ is_bytes data
  | ll_request.Release arg | ll_request.ReleaseDir arg => fuse_release_in.ok arg
  | ll_request.FSync arg | ll_request.FSyncDir arg => fuse_fsync_in.ok arg
  | ll_request.SetXAttr arg name value =>
      fuse_setxattr_in.ok arg /\ is_bytes name /\ is_bytes value
  | ll_request.GetXAttr arg name => fuse_getxattr_in.ok arg /\ is_bytes name
  | ll_request.ListXAttr arg => fuse_getxattr_in.ok arg
  | ll_request.Flush arg => fuse_flush_in.ok arg
  | ll_request.Init arg => fuse_init_in.ok arg
  | ll_request.GetLk arg | ll_request.SetLk arg | ll_request.SetLkW arg =>
      fuse_lk_in.ok arg
  | ll_request.Access arg => fuse_access_in.ok arg
  | ll_request.Create arg name => fuse_create_in.ok arg /\ is_bytes name
  | ll_request.Interrupt arg => fuse_interrupt_in.ok arg
  | ll_request.BMap arg => fuse_bmap_in.ok arg
  | ll_request.Exchange arg oldname newname =>
      fuse_exchange_in.ok arg /\ is_bytes oldname /\ is_bytes newname
  end.

Definition request_typed (self : Request) : Prop :=
  fuse_in_header.ok (ll_request.header (request self)) /\
  op_typed (ll_request.operation (request self)).

(** A payload: a value of its struct, or bytes that leave the length of
    the reply, header included, a [u32]. *)
Definition payload_typed (p : Payload) : Prop :=
  match p with
  | NoPayload => True
  | InitOut out => fuse_init_out.ok out
  | Raw data => is_bytes data /\ is_u32 (16 + len data)
  end.

(** A message: the reply header's [unique] is a [u64], its [error] an
    [i32]; the payload is typed. *)
Definition message_typed (m : Message) : Prop :=
  is_u64 (msg_unique m) /\ is_i32 (msg_error m) /\ payload_typed (msg_payload m).

Definition action_typed (a : Action) : Prop :=
  match a with
  | Handshake arg => fuse_init_in.ok arg
  | Refuse errno => is_i32 errno
  | Forward c => call_typed c
  | Teardown | Abort _ => True
  end.

(** What a recording filesystem holds: calls with typed arguments, and an
    error code for its [init] hook that is an [i32]. *)
Definition event_typed (e : Event) : Prop :=
  match e with
  | ECall _ c => call_typed c
  | EInit _ | EDestroy _ => True
  end.

Definition recorder_typed (f : Recorder.t) : Prop :=
  Forall event_typed (Recorder.log f) /\
  match Recorder.init_result f with Ok _ => True | Err e => is_i32 e end.

(** ** The contract of a typed filesystem

    [fs_ok] is what the filesystem keeps of its own state; the laws say
    that it keeps it through every hook and method, that the error of its
    [init] hook is an [i32], and that a method called with typed arguments
    writes typed messages. *)
Class Typed (FS : Type) : Type := fs_ok : FS -> Prop.

Class FilesystemTyped (FS : Type) `{fs.Filesystem FS} `{Typed FS} : Prop := {
  init_typed : forall (f : FS) (req : Request),
    fs_ok f ->
    fs_ok (fs.init f req).1 /\
    match (fs.init f req).2 with Ok _ => True | Err e => is_i32 e end;
  destroy_typed : forall (f : FS) (req : Request), fs_ok f -> fs_ok (fs.destroy f req);
  invoke_typed : forall (f : FS) (req : Request) (c : FsCall),
    fs_ok f -> call_typed c ->
    fs_ok (invoke f req c).1 /\ Forall message_typed (invoke f req c).2;
}.

#[export] Instance Recorder_typed : Typed Recorder.t := recorder_typed.

(** A session: a negotiated version of two [u32], and a filesystem in
    order. *)
Definition session_typed `{Typed FS} (se : Session FS) : Prop :=
  is_u32 (proto_major se) /\ is_u32 (proto_minor se) /\ fs_ok (filesystem se).

(** The readings of the clock are instants. *)
Definition clock_ok (now : Clock) : Prop := forall k, SystemTime.ok (now k).

(** Open the range predicates of the argument structs. *)
Ltac unfold_ok :=
  cbv [fuse_forget_in.ok fuse_mknod_in.ok fuse_mkdir_in.ok fuse_rename_in.ok
       fuse_exchange_in.ok fuse_link_in.ok fuse_open_in.ok fuse_create_in.ok
       fuse_read_in.ok fuse_write_in.ok fuse_flush_in.ok fuse_release_in.ok
       fuse_fsync_in.ok fuse_setxattr_in.ok fuse_getxattr_in.ok fuse_file_lock.ok
       fuse_lk_in.ok fuse_access_in.ok fuse_interrupt_in.ok fuse_bmap_in.ok] in *.

#[export] Instance opt_dec {A} (P : A -> Prop) `{forall a, Decision (P a)} o :
  Decision (opt P o).
Proof. destruct o; apply _. Defined.

#[export] Instance SystemTime_ok_dec x : Decision (SystemTime.ok x).
Proof. unfold SystemTime.ok. apply _. Defined.

#[export] Instance header_ok_dec h : Decision (fuse_in_header.ok h).
Proof. unfold fuse_in_header.ok. apply _. Defined.

#[export] Instance op_typed_dec op : Decision (op_typed op).
Proof.
  destruct op; simpl; unfold fuse_init_in.ok, fuse_setattr_in.ok; unfold_ok; apply _.
Defined.

#[export] Instance request_typed_dec self : Decision (request_typed self).
Proof. unfold request_typed. apply _. Defined.

#[export] Instance call_typed_dec c : Decision (call_typed c).
Proof. destruct c; simpl; unfold dir_reply_typed, reply_typed; apply _. Defined.

#[export] Instance message_typed_dec m : Decision (message_typed m).
Proof.
  unfold message_typed. destruct (msg_payload m); unfold fuse_init_out.ok; apply _.
Defined.

#[export] Instance event_typed_dec e : Decision (event_typed e).
Proof. destruct e; apply _. Defined.

#[export] Instance Recorder_fs_ok_dec (f : Recorder.t) : Decision (fs_ok f).
Proof.
  unfold fs_ok, Recorder_typed, recorder_typed. destruct (Recorder.init_result f); apply _.
Defined.

#[export] Instance session_typed_dec `{Typed FS} `{!forall f : FS, Decision (fs_ok f)}
    (se : Session FS) : Decision (session_typed se).
Proof. unfold session_typed. apply _. Defined.

(** ** Instants *)

Section Instants.
Implicit Types (s n valid bit : Z) (t fb : SystemTime.t).

Lemma instant_ok s n t :
  is_u64 s -> is_u32 n -> instant s n = Some t -> SystemTime.ok t.
Proof.
  unfold instant, SystemTime.ok, in_signed, in_bits. intros Hs Hn.
  destruct (Z.ltb_spec (s + n / NANOS_PER_SEC) (2 ^ 63)); [|done]. intros [= <-]. simpl.
  pose proof (Z.mod_pos_bound n NANOS_PER_SEC ltac:(done)).
  assert (0 <= n / NANOS_PER_SEC) by (apply Z.div_pos; [lia|done]).
  lia.
Qed.

Lemma epoch_plus_ok s n t :
  is_u64 s -> is_u32 n -> epoch_plus s n = Done t -> SystemTime.ok t.
Proof.
  intros Hs Hn. unfold epoch_plus. destruct (instant s n) eqn:E; [|done].
  intros [= <-]. by eapply instant_ok.
Qed.

Lemma epoch_plus_clamped_ok fb s n t :
  SystemTime.ok fb -> is_u64 s -> is_u32 n ->
  epoch_plus_clamped fb s n = Done t -> SystemTime.ok t.
Proof.
  intros Hfb Hs Hn. unfold epoch_plus_clamped. destruct (instant s n) eqn:E.
  - intros [= <-]. by eapply instant_ok.
  - destruct (overflow s n); [by intros [= <-]|done|by intros [= <-]].
Qed.

Lemma present_time_ok valid bit (m : outcome SystemTime.t) o :
  (forall t, m = Done t -> SystemTime.ok t) ->
  present_time valid bit m = Done o -> opt SystemTime.ok o.
Proof.
  intros Hm. unfold present_time. destruct (Z.testbit valid bit); [|by intros [= <-]].
  destruct m as [t|]; [|done]. intros [= <-]. by apply Hm.
Qed.

Lemma present_opt {A} (P : A -> Prop) valid bit (v : A) : P v -> opt P (present valid bit v).
Proof. intros Hv. unfold present. by destruct (Z.testbit valid bit). Qed.
End Instants.

#[export] Hint Resolve present_opt : fuse.

(** ** What is derived from a typed request is typed *)

Section Derive.
Context `{Config}.
Variable now : Clock.
Hypothesis now_ok : clock_ok now.
Implicit Types (self : Request) (op : ll_request.Operation).

Lemma errno_i32 : is_i32 EIO /\ is_i32 ENOSYS /\ is_i32 EPROTO.
Proof. unfold ENOSYS, EPROTO. by destruct target_os. Qed.

Lemma as_i64_range (z : Z) : is_i64 (as_i64 z).
Proof. by apply as_signed_range. Qed.

Lemma op_typed_ok op : op_typed op -> ll_request.ok op.
Proof. destruct op; simpl; tauto. Qed.

Lemma reply_typed_reply {k} self :
  fuse_in_header.ok (ll_request.header (request self)) ->
  reply_typed (Request.reply self : Reply.t k).
Proof. by intros (_ & _ & Hu & _). Qed.

Lemma macos_fields_typed (arg : fuse_setattr_in.t) crtime chgtime bkuptime flags :
  fuse_setattr_in.ok arg ->
  macos_fields now arg = Done (crtime, chgtime, bkuptime, flags) ->
  opt SystemTime.ok crtime /\ opt SystemTime.ok chgtime /\
  opt SystemTime.ok bkuptime /\ opt is_u32 flags.
Proof.
  intros Harg. unfold macos_fields. destruct target_os; [|by intros ?; simplify_eq].
  unfold fuse_setattr_in.ok in Harg.
  intros (cr & Hcr & (ch & Hch & (bk & Hbk & ?)%bind_Done_inv)%bind_Done_inv)
            %bind_Done_inv.
  simplify_eq. split_and!; [eapply present_time_ok; [|done]..|apply present_opt; tauto];
    intros t; apply epoch_plus_clamped_ok; (apply now_ok || tauto).
Qed.

Lemma setattr_call_typed self (arg : fuse_setattr_in.t) c :
  fuse_in_header.ok (ll_request.header (request self)) -> fuse_setattr_in.ok arg ->
  setattr_call now self arg = Done c -> call_typed c.
Proof.
  intros Hh Harg. unfold setattr_call.
  intros (atime & Ha & (mtime & Hm & ([[[cr ch] bk] fl] & Hx & [= <-])%bind_Done_inv)
            %bind_Done_inv)%bind_Done_inv.
  apply macos_fields_typed in Hx as (? & ? & ? & ?); [|done].
  pose proof (reply_typed_reply (k := KAttr) self Hh).
  unfold fuse_setattr_in.ok in Harg. destruct Hh as (_ & _ & _ & Hino & _).
  simpl. split_and!; try done; try (apply present_opt; tauto);
    (eapply present_time_ok; [|done]); intros t; apply epoch_plus_ok; tauto.
Qed.

(** The casts and the masks of [derive] produce values of the parameters'
    types. *)
Lemma derive_typed self op :
  fuse_in_header.ok (ll_request.header (request self)) -> op_typed op ->
  action_typed (derive now self op).
Proof.
  intros Hh Hop. pose proof (fun k => reply_typed_reply (k := k) self Hh) as Hr.
  pose proof errno_i32 as (_ & Hsys & _). pose proof Hh as (_ & _ & Hu & Hino & _).
  pose proof as_i64_range as Hcast.
  destruct op; simpl in *; unfold_ok; try by intuition auto with fuse.
  - destruct (setattr_call now self arg) eqn:E; [|done]. by eapply setattr_call_typed.
  - case_decide; [|done]. simpl. intuition auto with fuse.
  - case_decide; [|done]. simpl. case_decide; intuition auto with fuse. by vm_compute.
  - unfold dir_reply_typed. simpl. intuition auto with fuse.
    + by apply (in_bits_mono 32).
    + by apply Forall_nil.
Qed.
End Derive.

(** ** The recording filesystem is typed *)

Lemma note_typed (e : Event) (f : Recorder.t) :
  event_typed e -> recorder_typed f -> recorder_typed (Recorder.note e f).
Proof. intros He [Hlog Hres]. split; [by apply Forall_app_2; [|apply Forall_singleton]|done]. Qed.

Lemma call_binding_typed (c : FsCall) u s :
  call_typed c -> call_binding c = Some (u, s) -> is_u64 u.
Proof.
  destruct c; simpl; unfold dir_reply_typed, reply_typed; intros Hc ?; simplify_eq;
    tauto.
Qed.

Lemma reply_of_typed (c : FsCall) :
  call_typed c -> Forall message_typed (Recorder.reply_of c).
Proof.
  intros Hc. unfold Recorder.reply_of.
  destruct (call_binding c) as [[u s]|] eqn:E; [|by apply Forall_nil].
  apply Forall_singleton. split; [by eapply call_binding_typed|by split].
Qed.

#[export] Instance Recorder_answers_typed : FilesystemTyped Recorder.t.
Proof.
  split.
  - intros f req Hf. split; [by apply note_typed|apply Hf].
  - intros f req Hf. by apply note_typed.
  - intros f req c Hf Hc. rewrite Recorder_invoke.
    split; [by apply note_typed|by apply reply_of_typed].
Qed.

(** ** Carrying out a typed action *)

Section Execute.
Context `{Config} `{FilesystemTyped FS}.
Hypothesis config_ok : ConfigOk _.
Implicit Types (self : Request) (se : Session FS).

Lemma answer_typed self (errno : Z) (p : Payload) :
  fuse_in_header.ok (ll_request.header (request self)) -> is_i32 errno ->
  payload_typed p -> Forall message_typed [answer self errno p].
Proof. intros (_ & _ & Hu & _) He Hp. by apply Forall_singleton. Qed.

Lemma handshake_typed self se (arg : fuse_init_in.t) se' msgs :
  fuse_in_header.ok (ll_request.header (request self)) -> fuse_init_in.ok arg ->
  session_typed se -> handshake self se arg = Done (se', msgs) ->
  session_typed se' /\ Forall message_typed msgs.
Proof.
  intros Hh Harg (Hmaj & Hmin & Hfs). pose proof errno_i32 as (_ & _ & Hproto).
  pose proof Harg as (Hamaj & Hamin & _). unfold handshake.
  case_decide; [|by intros [= <- <-]; split; [|apply answer_typed]].
  destruct (init_typed (filesystem se) self Hfs) as [Hf Hres].
  destruct (fs.init (filesystem se) self) as [f [[]|e]]; intros [= <- <-].
  - split; [done|]. apply answer_typed; [done..|].
    rewrite <- init_out_negotiated. by apply init_out_ok.
  - split; [done|]. by apply answer_typed.
Qed.

Lemma execute_typed self se (a : Action) se' msgs :
  fuse_in_header.ok (ll_request.header (request self)) -> action_typed a ->
  session_typed se -> execute self se a = Done (se', msgs) ->
  session_typed se' /\ Forall message_typed msgs.
Proof.
  intros Hh Ha Hse. pose proof Hse as (Hmaj & Hmin & Hfs).
  destruct a as [arg|e| |c|p]; simpl.
  - by apply handshake_typed.
  - intros [= <- <-]. split; [done|]. by apply answer_typed.
  - intros [= <- <-]. split; [|by apply answer_typed].
    split_and!; [done..|]. by apply destroy_typed.
  - destruct (invoke_typed (filesystem se) self c Hfs Ha) as [Hf Hm].
    intros [= <- <-]. by split.
  - done.
Qed.

(** ** One dispatch and a run *)

Lemma dispatch_typed (now : Clock) self se se' msgs :
  clock_ok now -> request_typed self -> session_typed se ->
  dispatch now self se = Done (se', msgs) ->
  session_typed se' /\ Forall message_typed msgs.
Proof.
  intros Hnow [Hh Hop] Hse. pose proof errno_i32 as (Hio & _).
  revert se' msgs.
  apply (dispatch_cases now (fun r => forall se' msgs, r = Done (se', msgs) ->
           session_typed se' /\ Forall message_typed msgs)).
  - intros arg Harg se' msgs. rewrite dispatch_init_handshake.
    apply handshake_typed; try done. by rewrite Harg in Hop.
  - intros _ _ se' msgs. by apply (execute_typed self se (Refuse EIO)).
  - intros _ _ se' msgs. rewrite dispatch_destroy_teardown. by apply execute_typed.
  - intros _ _ _ _ se' msgs. by apply (execute_typed self se (Refuse EIO)).
  - intros _ _ _ _ se' msgs. rewrite dispatch_operation_derive by by apply op_typed_ok.
    apply execute_typed; [done| |done]. by apply derive_typed.
Qed.

(** C15: values stay values of their types.  Over a run of requests whose
    header fields and argument structs are in the ranges of their Rust types,
    read at clocks that return instants, on a build whose constants fit
    their types, for every filesystem that answers typed calls with typed
    messages ([FilesystemTyped]): the filesystem is only ever called with
    arguments in the ranges of the trait's parameter types ([u64] node ids
    and handles, [i64] offsets, [u32] flags and sizes, instants with fewer
    than 10^9 nanoseconds), so its state stays in order; the negotiated
    version is a pair of [u32]; and every message written carries a [u64]
    correlation id, an [i32] error code and a payload of its struct's
    type.  For the recording filesystem and for any typed filesystem with
    a log beside it ([Logged]), the state in order includes that every
    call in the log has typed arguments. *)
Theorem run_preserves_types inputs se se' msgs :
  Forall (fun i => clock_ok i.1 /\ request_typed i.2) inputs -> session_typed se ->
  run inputs se = Done (se', msgs) ->
  session_typed se' /\ Forall message_typed msgs.
Proof.
  apply (run_ensures (fun i => clock_ok i.1 /\ request_typed i.2)).
  intros now self se0 se1 msgs0 [Hnow Hself]. by apply dispatch_typed.
Qed.
End Execute.

(** ** The calls every typed filesystem receives *)

(** A typed filesystem with a log of typed calls beside it. *)
Definition Logged_typed `{Typed FS} : Typed (Logged FS) :=
  fun fl => fs_ok fl.1 /\ Forall event_typed fl.2.

Section Calls.
Context `{Config} `{FilesystemTyped FS}.
Hypothesis config_ok : ConfigOk _.
#[local] Existing Instances Logged_fs Logged_typed.

Lemma Logged_answers_typed : FilesystemTyped (Logged FS).
Proof.
  split.
  - intros [f log] req [Hf Hl]. destruct (init_typed f req Hf) as [Hf' Hres].
    by split; [split; [|apply Forall_app_2; [|apply Forall_singleton]]|].
  - intros [f log] req [Hf Hl].
    by split; [apply destroy_typed|apply Forall_app_2; [|apply Forall_singleton]].
  - intros [f log] req c [Hf Hl] Hc. rewrite Logged_invoke.
    destruct (invoke_typed f req c Hf Hc) as [Hf' Hm].
    by split; [split; [|apply Forall_app_2; [|apply Forall_singleton]]|].
Qed.

(** Every call a run makes to a typed filesystem has typed arguments. *)
Theorem every_call_typed (inputs : list Input) (f : FS) sel msgs :
  Forall (fun i => clock_ok i.1 /\ request_typed i.2) inputs -> fs_ok f ->
  run inputs (session.new (f, [])) = Done (sel, msgs) ->
  Forall event_typed (filesystem sel).2.
Proof.
  intros Hin Hf Hrun.
  pose proof Logged_answers_typed as Hlaws.
  eapply (run_ensures _ session_typed message_typed) in Hrun as [(_ & _ & _ & Hl) _];
    [done| |done|by split_and!; [..|split]].
  intros now self se0 se1 msgs0 [Hnow Hself]. by apply dispatch_typed.
Qed.
End Calls.

(** ** A run on concrete requests *)

Definition sample_setattr : ll_request.Operation :=
  ll_request.SetAttr
    {| fuse_setattr_in.valid := 0x70000039; fuse_setattr_in.padding := 0;
       fuse_setattr_in.fh := 0; fuse_setattr_in.size := 4096;
       fuse_setattr_in.unused1 := 0;
       fuse_setattr_in.atime := 1700000000; fuse_setattr_in.mtime := 1700000001;
       fuse_setattr_in.unused2 := 0;
       fuse_setattr_in.atimensec := 1500000000; fuse_setattr_in.mtimensec := 7;
       fuse_setattr_in.unused3 := 0;
       fuse_setattr_in.mode := 420; fuse_setattr_in.unused4 := 0;
       fuse_setattr_in.uid := 0; fuse_setattr_in.gid := 0;
       fuse_setattr_in.unused5 := 0;
       fuse_setattr_in.bkuptime := 2 ^ 63; fuse_setattr_in.chgtime := 12;
       fuse_setattr_in.crtime := 11;
       fuse_setattr_in.bkuptimensec := 0; fuse_setattr_in.chgtimensec := 999999999;
       fuse_setattr_in.crtimensec := 4000000000;
       fuse_setattr_in.flags := 1 |}.

Definition typed_life : list Input :=
  [ (sample_clock, sample init_7_31); (sample_clock, sample sample_setattr);
    (sample_clock, sample sample_write);
    (sample_clock, sample (ll_request.Read (fuse_read_in.mk 5 (2 ^ 64 - 1) 4096 0)));
    (sample_clock, sample ll_request.Destroy) ].

Lemma sample_clock_ok : clock_ok sample_clock.
Proof. intros k. by apply (bool_decide_unpack _). Qed.

Lemma run_preserves_types_witness :
  session_typed (final (run (H := macos) typed_life fresh)) /\
  Forall message_typed (written (run (H := macos) typed_life fresh)).
Proof.
  apply (run_preserves_types (H := macos) macos_ok typed_life fresh).
  - repeat (apply Forall_cons; [split; [exact sample_clock_ok|]|]); try apply Forall_nil;
      by apply (bool_decide_unpack _); vm_compute.
  - by apply (bool_decide_unpack _); vm_compute.
  - by vm_compute.
Defined.
