(* ===== verification/Builds.v ===== *)
(** * The two builds of the dispatcher

    [cfg(target_os = "macos")] selects between two versions of
    [INIT_FLAGS], [get_macos_setattr] and [get_position], and between two
    values of [ENOSYS] and [EPROTO].  This file compares the build for
    macOS with the build for every other system, over the same constants:
    on a request that uses nothing specific to macOS the two dispatchers
    are the same function of the request and the session. *)

From Stdlib Require Import ZArith Lia.
From stdpp Require Import base tactics numbers list option.
From S2P Require Import Prelude Abi Time LlRequest Reply Request Filesystem Session.
From S2P Require Import Dispatch Spec DispatchProps SessionProps.

#[local] Open Scope Z_scope.

(** The build of a configuration for a target. *)
Definition on (os : TargetOs) (c : Config) : Config :=
  {| target_os := os;
     FUSE_KERNEL_MINOR_VERSION := @FUSE_KERNEL_MINOR_VERSION c;
     BUFFER_SIZE := @BUFFER_SIZE c;
     MAX_WRITE_SIZE := @MAX_WRITE_SIZE c |}.

(** The capabilities only the macOS build offers. *)
Definition MACOS_FLAGS : Z := FUSE_CASE_INSENSITIVE .|. FUSE_VOL_RENAME .|. FUSE_XTIMES.

(** The validity bits only the macOS build reads. *)
Definition MACOS_VALID : Z := FATTR_CRTIME .|. FATTR_CHGTIME .|. FATTR_BKUPTIME .|. FATTR_FLAGS.

(** A request that uses nothing of macOS: a handshake of a supported
    version that asks for none of its capabilities, attributes without its
    validity bits, an extended attribute at position 0, and none of the
    operations that exist there only.  [Interrupt] is answered with
    [ENOSYS], whose value differs. *)
Definition portable (op : ll_request.Operation) : bool :=
  match op with
  | ll_request.Init arg =>
      negb (unsupported_abi arg) && (fuse_init_in.flags arg .&. MACOS_FLAGS =? 0)
  | ll_request.SetAttr arg => fuse_setattr_in.valid arg .&. MACOS_VALID =? 0
  | ll_request.SetXAttr arg _ _ => fuse_setxattr_in.position arg =? 0
  | ll_request.Interrupt _ | ll_request.SetVolName _ | ll_request.GetXTimes
  | ll_request.Exchange _ _ _ => false
  | _ => true
  end.

(** ** The versions of each item agree *)

Section Items.
Implicit Types (a b c d : Z).

Lemma land_lor_0 a b c : a .&. (b .|. c) = 0 <-> a .&. b = 0 /\ a .&. c = 0.
Proof. by rewrite Z.land_lor_distr_r, Z.lor_eq_0_iff. Qed.

Lemma INIT_FLAGS_portable a :
  a .&. MACOS_FLAGS = 0 -> a .&. cfg_macos.INIT_FLAGS = a .&. cfg_not_macos.INIT_FLAGS.
Proof.
  unfold MACOS_FLAGS, cfg_macos.INIT_FLAGS, cfg_not_macos.INIT_FLAGS.
  rewrite <- !Z.lor_assoc, (Z.land_lor_distr_r a FUSE_ASYNC_READ). intros ->.
  apply Z.lor_0_r.
Qed.

Lemma get_macos_setattr_portable (now : Clock) (arg : fuse_setattr_in.t) :
  fuse_setattr_in.valid arg .&. MACOS_VALID = 0 ->
  cfg_macos.get_macos_setattr now arg = Done (cfg_not_macos.get_macos_setattr arg).
Proof.
  unfold MACOS_VALID. rewrite !land_lor_0. intros [[[Hcr Hch] Hbk] Hfl].
  unfold cfg_macos.get_macos_setattr, attr_crtime, attr_chgtime, attr_bkuptime, attr_flags.
  by rewrite Hcr, Hch, Hbk, Hfl.
Qed.
End Items.

(** ** The dispatchers agree *)

Section Builds.
Context (c : Config) `{fs.Filesystem FS}.
Variable now : Clock.
Implicit Types (self : Request) (se : Session FS) (op : ll_request.Operation).

Lemma init_out_portable (arg : fuse_init_in.t) :
  fuse_init_in.flags arg .&. MACOS_FLAGS = 0 ->
  init_out (H := on MacOs c) arg = init_out (H := on OtherOs c) arg.
Proof.
  intros Hfl. unfold init_out, INIT_FLAGS. simpl. by rewrite INIT_FLAGS_portable.
Qed.

Lemma dispatch_init_portable self se (arg : fuse_init_in.t) :
  portable (ll_request.Init arg) = true ->
  dispatch_init (H := on MacOs c) self se arg =
  dispatch_init (H := on OtherOs c) self se arg.
Proof.
  simpl. intros [Hv%negb_true_iff Hfl%Z.eqb_eq]%andb_prop. unfold dispatch_init.
  by rewrite Hv, init_out_portable.
Qed.

Lemma dispatch_operation_portable self se op :
  portable op = true ->
  dispatch_operation (H := on MacOs c) now self se op =
  dispatch_operation (H := on OtherOs c) now self se op.
Proof.
  destruct op; simpl; try done.
  - intros Hv%Z.eqb_eq. unfold dispatch_setattr, get_macos_setattr. simpl.
    by rewrite get_macos_setattr_portable.
  - intros Hp%Z.eqb_eq. unfold dispatch_setxattr, get_position. simpl.
    unfold cfg_macos.get_position, cfg_not_macos.get_position. by rewrite Hp.
  - apply dispatch_init_portable.
Qed.

(** C18: the macOS build and the build for any other system are the same
    dispatcher on a portable request: in every session state they return
    the same session, the same messages in the same order with the same
    error codes, or the same panic. *)
Theorem builds_agree self se :
  portable (ll_request.operation (request self)) = true ->
  dispatch (H := on MacOs c) now self se = dispatch (H := on OtherOs c) now self se.
Proof.
  intros Hp. unfold dispatch.
  destruct (ll_request.operation (request self)) eqn:Hop;
    try (by apply dispatch_init_portable);
    destruct (initialized se); try done; destruct (destroyed se); try done;
    by apply dispatch_operation_portable.
Qed.
End Builds.

(** On [Interrupt] the builds differ, by the value of [ENOSYS]. *)
Example builds_differ_on_interrupt :
  dispatch (H := on MacOs linux) sample_clock
    (sample (ll_request.Interrupt (fuse_interrupt_in.mk 76))) live <>
  dispatch (H := on OtherOs linux) sample_clock
    (sample (ll_request.Interrupt (fuse_interrupt_in.mk 76))) live.
Proof. by vm_compute. Qed.

Lemma builds_agree_witness :
  dispatch (H := on MacOs linux) sample_clock (sample init_7_31) fresh =
  dispatch (H := on OtherOs linux) sample_clock (sample init_7_31) fresh.
Proof. apply (builds_agree linux). by vm_compute. Defined.
