(* ===== verification/Returns.v ===== *)
(** * The dispatcher returns

    [Request::dispatch] has no loop, and the session's loop over the
    requests is a fold; what can keep a run from returning is a panic, of
    an assertion on a payload's length or of an addition of times.  This
    file gives the condition on a request under which no arm panics, as a
    function that can be evaluated, and shows that a run over such requests
    returns a session and the messages written. *)

From Stdlib Require Import ZArith Lia.
From stdpp Require Import base tactics numbers list option.
From S2P Require Import Prelude Abi Time LlRequest Reply Request Filesystem Session.
From S2P Require Import Dispatch Spec DispatchProps SessionProps DeriveProps ReplyProps Machine.

#[local] Open Scope Z_scope.

(** A time field is harmless when its validity bit is clear or its seconds,
    with the seconds its nanoseconds carry, stay below the limit. *)
Definition fits (valid bit secs nsecs limit : Z) : bool :=
  negb (Z.testbit valid bit) || (secs + nsecs / NANOS_PER_SEC <? limit).

(** The requests on which no arm panics: payloads of the declared length;
    access and modification times that an instant holds ([i64] seconds);
    on macOS, creation, change and backup times that a duration holds
    ([u64] seconds; a later instant is replaced by the clock's reading). *)
Definition returning `{Config} (op : ll_request.Operation) : bool :=
  match op with
  | ll_request.Write arg data => bool_decide (len data = as_usize (fuse_write_in.size arg))
  | ll_request.SetXAttr arg _ value =>
      bool_decide (len value = as_usize (fuse_setxattr_in.size arg))
  | ll_request.SetAttr arg =>
      let valid := fuse_setattr_in.valid arg in
      fits valid 4 (fuse_setattr_in.atime arg) (fuse_setattr_in.atimensec arg) (2 ^ 63) &&
      fits valid 5 (fuse_setattr_in.mtime arg) (fuse_setattr_in.mtimensec arg) (2 ^ 63) &&
      match target_os with
      | OtherOs => true
      | MacOs =>
          fits valid 28 (fuse_setattr_in.crtime arg) (fuse_setattr_in.crtimensec arg)
            (2 ^ 64) &&
          fits valid 29 (fuse_setattr_in.chgtime arg) (fuse_setattr_in.chgtimensec arg)
            (2 ^ 64) &&
          fits valid 30 (fuse_setattr_in.bkuptime arg) (fuse_setattr_in.bkuptimensec arg)
            (2 ^ 64)
      end
  | _ => true
  end.

(** An action that is carried out. *)
Definition proceeds (a : Action) : bool :=
  match a with Abort _ => false | _ => true end.

(** ** Times *)

Section Times.
Implicit Types (valid bit s n : Z) (fb : SystemTime.t).

Lemma is_done_true {A} (m : outcome A) : is_done m = true <-> exists a, m = Done a.
Proof. destruct m; simpl; split; [by eauto|done|done|by intros [? ?]]. Qed.

Lemma is_done_epoch_plus valid bit s n :
  is_done (present_time valid bit (epoch_plus s n)) = fits valid bit s n (2 ^ 63).
Proof.
  unfold fits, present_time, epoch_plus, instant.
  destruct (Z.testbit valid bit); [|done].
  by destruct (s + n / NANOS_PER_SEC <? 2 ^ 63).
Qed.

Lemma is_done_epoch_plus_clamped valid bit fb s n :
  is_done (present_time valid bit (epoch_plus_clamped fb s n)) =
  fits valid bit s n (2 ^ 64).
Proof.
  unfold fits, present_time. destruct (Z.testbit valid bit); [|done]. simpl.
  destruct (Z.ltb_spec (s + n / NANOS_PER_SEC) (2 ^ 64)) as [Hlt|Hge].
  - unfold epoch_plus_clamped, overflow. destruct (instant s n); [done|].
    by rewrite (proj2 (Z.ltb_lt _ _) Hlt).
  - by rewrite epoch_plus_clamped_overflow.
Qed.
End Times.

(** ** One dispatch *)

Section Returns.
Context `{Config} `{fs.Filesystem FS}.
Implicit Types (now : Clock) (self : Request) (se : Session FS).

(** The derivation of the call of [setattr] succeeds exactly on the
    arguments [returning] accepts. *)
Lemma setattr_call_is_done now self (arg : fuse_setattr_in.t) :
  is_done (setattr_call now self arg) = returning (ll_request.SetAttr arg).
Proof.
  unfold returning, setattr_call, macos_fields. rewrite <- !is_done_epoch_plus.
  destruct (present_time _ 4 _); [simpl|done].
  destruct (present_time _ 5 _); [simpl|done].
  destruct target_os; [|done].
  rewrite <- (is_done_epoch_plus_clamped _ 28 (now 0%nat)),
    <- (is_done_epoch_plus_clamped _ 29 (now 1%nat)),
    <- (is_done_epoch_plus_clamped _ 30 (now 2%nat)).
  destruct (present_time _ 28 _); [simpl|done].
  destruct (present_time _ 29 _); [simpl|done].
  by destruct (present_time _ 30 _).
Qed.

Lemma derive_proceeds now self op :
  ll_request.ok op -> proceeds (derive now self op) = returning op.
Proof.
  intros Hok. destruct op; try done; cbn [derive].
  - rewrite <- (setattr_call_is_done now self). by destruct (setattr_call now self arg).
  - cbn [returning]. rewrite as_usize_u32 by apply Hok. by case_decide; case_bool_decide.
  - cbn [returning]. rewrite as_usize_u32 by apply Hok. by case_decide; case_bool_decide.
Qed.

Lemma execute_is_done self se (a : Action) :
  is_done (execute self se a) = proceeds a.
Proof.
  destruct a; try done. simpl.
  by destruct (handshake_done self se arg) as (se' & m & -> & _).
Qed.

(** In a live session the arm of the operation runs: it returns exactly on
    the requests [returning] accepts. *)
Lemma dispatch_live_is_done now self se :
  initialized se = true -> destroyed se = false ->
  ll_request.ok (ll_request.operation (request self)) ->
  is_done (dispatch now self se) = returning (ll_request.operation (request self)).
Proof.
  intros Hi Hd Hok.
  by rewrite dispatch_live, dispatch_operation_derive, execute_is_done, derive_proceeds.
Qed.

Lemma dispatch_returns now self se :
  ll_request.ok (ll_request.operation (request self)) ->
  returning (ll_request.operation (request self)) = true ->
  exists x, dispatch now self se = Done x.
Proof.
  intros Hok Hr.
  destruct (dispatch_guards now self se) as [(_ & se' & m & -> & _)|(Hi & Hd & _)];
    [by eauto|].
  apply is_done_true. by rewrite dispatch_live_is_done.
Qed.

(** A run over requests on which no arm panics is done. *)
Lemma run_done (inputs : list Input) se :
  Forall (fun i => ll_request.ok (ll_request.operation (request i.2)) /\
                   returning (ll_request.operation (request i.2)) = true) inputs ->
  exists se' msgs, run inputs se = Done (se', msgs).
Proof.
  intros Hin. revert se. induction Hin as [|[now self] inputs [Hok Hr] _ IH]; intros se.
  - by exists se, [].
  - destruct (dispatch_returns now self se Hok Hr) as ([se1 msgs1] & Hd).
    destruct (IH se1) as (se' & msgs2 & Hrun).
    exists se', (msgs1 ++ msgs2). simpl. by rewrite Hd; simpl; rewrite Hrun.
Qed.

(** C19: the session loop returns.  A run over requests with fields in
    range on which no arm asserts or overflows returns the session it
    ends in and the messages written: no panic aborts it, in any session
    state and for any filesystem. *)
Theorem run_returns (inputs : list Input) se :
  Forall (fun i => ll_request.ok (ll_request.operation (request i.2)) /\
                   returning (ll_request.operation (request i.2)) = true) inputs ->
  exists se' msgs, run inputs se = Done (se', msgs).
Proof. apply run_done. Qed.
End Returns.

(** ** A run on concrete requests *)

Definition busy_life : list Input :=
  [ (sample_clock, sample init_7_31); (sample_clock, setattr_17);
    (sample_clock, sample sample_write); (sample_clock, sample ll_request.Destroy) ].

Lemma run_returns_witness :
  exists se' msgs, run (H := macos) busy_life fresh = Done (se', msgs).
Proof.
  apply (run_returns (H := macos) busy_life fresh).
  repeat (apply Forall_cons; [split; [by apply (bool_decide_unpack _)|by vm_compute]|]).
  apply Forall_nil.
Defined.

(** A time past the range of an instant stops the run. *)
Example run_stops_on_overflow :
  run (H := linux) [(sample_clock, sample init_7_31); (sample_clock, setattr_far)] fresh =
  Panicked InstantOverflow.
Proof. by vm_compute. Qed.
