(* ===== verification/WireProps.v ===== *)
(** * From the bytes of a buffer to the request

    The header's decoder inverts its encoder and conversely, so
    [Request::new] recovers from a well-formed buffer exactly the header
    that was encoded, and every request it returns re-encodes to the bytes
    it was made of.  A buffer that is too short, that declares a length
    other than its own or that carries an unknown opcode is dropped. *)

From Stdlib Require Import ZArith Lia.
From stdpp Require Import base tactics numbers list option.
From S2P Require Import Prelude Abi Time LlRequest Reply Request Wire ReplyWire Filesystem.
From S2P Require Import Session.
From S2P Require Import Dispatch Spec DispatchProps SessionProps ReplyProps Machine Typing.

#[local] Open Scope Z_scope.

(** One field of the header: what [fetch_int] returned, turned into the
    bytes it read, the range of the value and the rest. *)
Ltac fetch_field :=
  lazymatch goal with
  | Hd : is_bytes ?data |- context [fetch_int ?n ?data] =>
      let z := fresh "z" in
      let rest := fresh "rest" in
      let E := fresh "E" in
      destruct (fetch_int n data) as [[z rest]|] eqn:E; cbn [mbind option_bind]; [|done];
      apply (fetch_int_inv n data z rest Hd) in E as (-> & ? & ?); clear Hd
  end.

Section Header.
Implicit Types (h : fuse_in_header.t) (data rest body : bytes).

Lemma encode_header_length h : length (encode_header h) = 40%nat.
Proof. unfold encode_header. by rewrite !length_app, !le_bytes_length. Qed.

Lemma encode_header_is_bytes h : is_bytes (encode_header h).
Proof.
  unfold encode_header, is_bytes.
  repeat (apply Forall_app_2; [apply le_bytes_is_bytes|]). apply le_bytes_is_bytes.
Qed.

Lemma decode_encode_header h rest :
  fuse_in_header.ok h -> decode_header (encode_header h ++ rest) = Some (h, rest).
Proof.
  intros (? & ? & ? & ? & ? & ? & ? & ?). unfold encode_header, decode_header.
  rewrite <- !app_assoc.
  do 8 (rewrite fetch_int_app by done; cbn [mbind option_bind]). by destruct h.
Qed.

Lemma encode_decode_header data h rest :
  is_bytes data -> decode_header data = Some (h, rest) ->
  data = encode_header h ++ rest /\ fuse_in_header.ok h /\ is_bytes rest.
Proof.
  intros Hd. unfold decode_header. do 8 fetch_field. intros [= <- <-].
  split_and!; [|unfold fuse_in_header.ok, in_bits in *; simpl in *; lia|done].
  unfold encode_header. by rewrite <- !app_assoc.
Qed.

(** The correlation id is bytes 8 to 15 of a request. *)
Lemma header_buffer_unique h rest :
  take 8 (drop 8 (encode_header h ++ rest)) = le_bytes 8 (fuse_in_header.unique h).
Proof.
  unfold encode_header.
  rewrite <- !app_assoc, (app_assoc (le_bytes 4 _) (le_bytes 4 _)).
  rewrite drop_app_length' by by rewrite length_app, !le_bytes_length.
  by rewrite take_app_length' by by rewrite le_bytes_length.
Qed.

(** The header as a codec. *)
Definition header_codec : codec fuse_in_header.t := {|
  wf := fuse_in_header.ok;
  encode := encode_header;
  decode := decode_header;
  decode_encode := decode_encode_header;
  encode_decode := encode_decode_header;
  encode_is_bytes h _ := encode_header_is_bytes h;
|}.

(** Decoding a header makes progress by exactly 40 bytes. *)
Lemma decode_header_length data h rest :
  decode_header data = Some (h, rest) -> length data = (40 + length rest)%nat.
Proof.
  unfold decode_header.
  do 8 (lazymatch goal with
        | |- context [fetch_int ?n ?d] =>
            let E := fresh "E" in
            destruct (fetch_int n d) as [[? ?]|] eqn:E; cbn [mbind option_bind]; [|done];
            apply fetch_int_length in E
        end).
  intros [= _ <-]. lia.
Qed.

Lemma decode_header_short data : (length data < 40)%nat -> decode_header data = None.
Proof.
  intros Hl. destruct (decode_header data) as [[h rest]|] eqn:E; [|done].
  apply decode_header_length in E. lia.
Qed.

(** The first two fields of a decoded header are the first two words of
    the buffer. *)
Lemma decode_header_words data h rest :
  decode_header data = Some (h, rest) ->
  fuse_in_header.len h = le_value (take 4 data) /\
  fuse_in_header.opcode h = le_value (take 4 (drop 4 data)).
Proof.
  unfold decode_header.
  destruct (fetch_int 4 data) as [[z1 d1]|] eqn:E1; cbn [mbind option_bind]; [|done].
  destruct (fetch_int 4 d1) as [[z2 d2]|] eqn:E2; cbn [mbind option_bind]; [|done].
  do 6 (lazymatch goal with
        | |- context [fetch_int ?n ?d] =>
            destruct (fetch_int n d) as [[? ?]|]; cbn [mbind option_bind]; [|done]
        end).
  intros [= <- _]. unfold fetch_int in E1, E2.
  repeat case_decide; by simplify_eq.
Qed.
End Header.

Section Parsing.
Context `{OperationParser}.
Implicit Types (c : ChannelSender) (h : fuse_in_header.t) (data body : bytes) (self : Request).

(** What [try_from] accepts, and what it returns then. *)
Lemma try_from_Ok data r :
  try_from_bytes data = Ok r <->
  exists body,
    decode_header data = Some (ll_request.header r, body) /\
    known_opcode (fuse_in_header.opcode (ll_request.header r)) = true /\
    fuse_in_header.len (ll_request.header r) = len data /\
    parse_operation (fuse_in_header.opcode (ll_request.header r)) body =
      Some (ll_request.operation r).
Proof.
  unfold try_from_bytes. split.
  - destruct (decode_header data) as [[h body]|]; [|done].
    destruct (known_opcode _) eqn:Hk; simpl; [|done].
    destruct (Z.eqb_spec (len data) (fuse_in_header.len h)) as [Hl|]; simpl; [|done].
    destruct (parse_operation _ body) as [op|] eqn:Hp; [|done].
    intros [= <-]. by exists body.
  - intros (body & -> & -> & Hl & ->). simpl. rewrite Hl, Z.eqb_refl. simpl. by destruct r.
Qed.

(** C7: a well-formed buffer is parsed back into what it encodes.  For a
    header whose fields are values of their types, whose opcode is known
    and whose length field is the length of the buffer, [Request::new] on
    the encoded header followed by the arguments returns a request on the
    given channel, holding the buffer, with the operation the arguments
    stand for, and [unique], [uid], [gid], [pid] and the node id read the
    fields that were encoded. *)
Theorem new_roundtrip c h body op :
  fuse_in_header.ok h ->
  fuse_in_header.len h = 40 + len body ->
  known_opcode (fuse_in_header.opcode h) = true ->
  parse_operation (fuse_in_header.opcode h) body = Some op ->
  exists self,
    Request.new c (encode_header h ++ body) = Some self /\
    ch self = c /\ Request.data self = encode_header h ++ body /\
    ll_request.operation (request self) = op /\
    Request.unique self = fuse_in_header.unique h /\
    Request.uid self = fuse_in_header.uid h /\
    Request.gid self = fuse_in_header.gid h /\
    Request.pid self = fuse_in_header.pid h /\
    ll_request.nodeid (request self) = fuse_in_header.nodeid h.
Proof.
  intros Hok Hlen Hk Hp.
  exists (Request.mk c (encode_header h ++ body) (ll_request.mk h op)).
  split; [|done]. apply new_Some. eexists. split; [|done].
  apply try_from_Ok. exists body. cbn [ll_request.header ll_request.operation].
  rewrite decode_encode_header by done.
  repeat split; try done.
  rewrite len_app. unfold len. rewrite encode_header_length. unfold len in Hlen. lia.
Qed.

(** C17: parsing loses nothing.  Every request [Request::new] returns for a
    buffer of bytes holds a header whose fields are values of their types
    and whose encoding is the first 40 bytes of the buffer; its length
    field is the length of the buffer, its opcode is known, and its
    operation is what the bytes after the header stand for. *)
Theorem new_lossless c data self :
  is_bytes data -> Request.new c data = Some self ->
  let h := ll_request.header (request self) in
  ch self = c /\ Request.data self = data /\
  fuse_in_header.ok h /\ take 40 data = encode_header h /\
  fuse_in_header.len h = len data /\
  known_opcode (fuse_in_header.opcode h) = true /\
  parse_operation (fuse_in_header.opcode h) (drop 40 data) =
    Some (ll_request.operation (request self)).
Proof.
  intros Hd (r & (body & Hdec & Hk & Hlen & Hp)%try_from_Ok & ->)%new_Some.
  cbn [request ch Request.data].
  destruct (encode_decode_header _ _ _ Hd Hdec) as (Heq & Hok & _).
  pose proof (encode_header_length (ll_request.header r)) as Hl.
  split_and!; try done.
  - rewrite Heq. by rewrite take_app_length'.
  - rewrite Heq. by rewrite drop_app_length'.
Qed.

Context `{Config} `{fs.Filesystem FS}.

(** C40: a malformed buffer is dropped.  A buffer shorter than a header, a
    buffer whose first word is not its own length, and a buffer whose
    second word is no known opcode are rejected by [Request::new]; the
    loop writes nothing for them and leaves the session as it was. *)
Theorem malformed_buffer_dropped (now : Clock) c data (se : Session FS) :
  (length data < 40)%nat \/ le_value (take 4 data) <> len data \/
  known_opcode (le_value (take 4 (drop 4 data))) = false ->
  Request.new c data = None /\ receive now c data se = Done (se, []).
Proof.
  intros Hbad.
  assert (Request.new c data = None) as Hnew; [|by unfold receive; rewrite Hnew].
  destruct (Request.new c data) as [self|] eqn:Hn; [exfalso|done].
  apply new_Some in Hn as (r & (body & Hdec & Hk & Hlen & _)%try_from_Ok & _).
  destruct (decode_header_words _ _ _ Hdec) as [Hw1 Hw2].
  destruct Hbad as [Hs|[Hl|Hu]].
  - by rewrite decode_header_short in Hdec.
  - congruence.
  - congruence.
Qed.
Context `{!FilesystemLaws FS}.

(** C12: the correlation id, byte for byte.  Whatever the session state,
    the operation and the filesystem (as long as it keeps the contract of
    the reply object), a buffer of bytes read from a channel is answered
    with at most one reply, sent to that channel, and bytes 8 to 15 of the
    encoded reply, where the kernel reads the correlation id, are bytes 8
    to 15 of the buffer. *)
Theorem reply_echoes_request_bytes (now : Clock) c data (se se' : Session FS) msgs :
  is_bytes data -> receive now c data se = Done (se', msgs) ->
  (length msgs <= 1)%nat /\
  Forall (fun m => msg_sender m = c /\
                   take 8 (drop 8 (encode_message m)) = take 8 (drop 8 data)) msgs.
Proof.
  intros Hdata. unfold receive.
  destruct (Request.new c data) as [self|] eqn:Hn;
    [|by intros [= <- <-]; split; [simpl; lia|]].
  apply new_Some in Hn as (r & (body & Hdec & _)%try_from_Ok & ->).
  destruct (encode_decode_header _ _ _ Hdata Hdec) as (Heq & _).
  intros Hd. destruct (dispatch_uses _ _ _ _ _ Hd) as [Hlen Hall]. split; [done|].
  eapply Forall_impl; [|exact Hall]. intros m [= Hu Hs]. split; [done|].
  by rewrite encode_message_unique, Heq, header_buffer_unique, Hu.
Qed.
End Parsing.

(** ** Arguments in sequence

    The arguments of an operation are its fixed struct followed by its
    names.  For [MkNod], the mode and the device as [u32], then the name:
    the codec of the sequence decodes what it encodes, and a buffer without
    the name's terminator is no argument. *)

Definition mknod_codec : codec (Z * Z * bytes) :=
  pair_codec (pair_codec (int_codec 4) (int_codec 4)) name_codec.

Definition mknod_of (x : Z * Z * bytes) : ll_request.Operation :=
  ll_request.MkNod (fuse_mknod_in.mk x.1.1 x.1.2) x.2.

Lemma mknod_decoded_typed (body rest : bytes) (x : Z * Z * bytes) :
  is_bytes body -> decode mknod_codec body = Some (x, rest) -> op_typed (mknod_of x).
Proof.
  intros Hb Hd. destruct (encode_decode mknod_codec _ _ _ Hb Hd) as (_ & Hwf & _).
  destruct Hwf as [[Hmode Hrdev] [Hname _]]. by split.
Qed.

Lemma mknod_unterminated (mode rdev : Z) (name : bytes) :
  0 ∉ name -> decode mknod_codec (le_bytes 4 mode ++ le_bytes 4 rdev ++ name) = None.
Proof.
  intros Hn. cbv [decode mknod_codec pair_codec pair_decode int_codec name_codec].
  do 2 (rewrite fetch_int_length_app; cbn [mbind option_bind]).
  by rewrite (proj2 (fetch_str_None name) Hn).
Qed.

(** ** From typed bytes to typed calls

    What the parser of operations owes the dispatcher: operations whose
    fields are values of their types.  With it, a buffer of bytes leads to
    calls and messages of the right types, through [Request::new] and
    [dispatch]. *)

Class OperationParserTyped `{OperationParser} : Prop := {
  parse_typed : forall (opcode : Z) (body : bytes) (op : ll_request.Operation),
    is_bytes body -> parse_operation opcode body = Some op -> op_typed op;
}.

Section TypedBytes.
Context `{OperationParserTyped} `{Config} `{FilesystemTyped FS}.
Hypothesis config_ok : ConfigOk _.
Implicit Types (c : ChannelSender) (data : bytes) (se : Session FS).

Lemma new_typed c data self :
  is_bytes data -> Request.new c data = Some self -> request_typed self.
Proof.
  intros Hd (r & (body & Hdec & _ & _ & Hp)%try_from_Ok & ->)%new_Some.
  destruct (encode_decode_header _ _ _ Hd Hdec) as (_ & Hok & Hbody).
  split; [done|]. by eapply parse_typed.
Qed.

Lemma receive_typed (now : Clock) c data se se' msgs :
  clock_ok now -> is_bytes data -> session_typed se ->
  receive now c data se = Done (se', msgs) ->
  session_typed se' /\ Forall message_typed msgs.
Proof.
  intros Hnow Hd Hse. unfold receive.
  destruct (Request.new c data) as [self|] eqn:Hn; [|by intros [= <- <-]].
  apply dispatch_typed; [done..|by eapply new_typed|done].
Qed.
End TypedBytes.

(** ** Concrete buffers *)

(** A parser of operations that knows the attribute query, opcode 3, which
    has no arguments. *)
Definition getattr_only : OperationParser := {|
  known_opcode opcode := opcode =? 3;
  parse_operation opcode body :=
    match body with
    | [] => if opcode =? 3 then Some ll_request.GetAttr else None
    | _ => None
    end;
|}.

#[export] Instance getattr_only_typed : OperationParserTyped (H := getattr_only).
Proof.
  split. intros opcode body op _. simpl. destruct body; [|done].
  case_match; [|done]. by intros [= <-].
Qed.

Definition getattr_header : fuse_in_header.t :=
  fuse_in_header.mk 40 3 77 1 1000 1000 4242 0.

Definition getattr_buffer : bytes :=
  [40; 0; 0; 0;  3; 0; 0; 0;  77; 0; 0; 0; 0; 0; 0; 0;  1; 0; 0; 0; 0; 0; 0; 0;
   232; 3; 0; 0;  232; 3; 0; 0;  146; 16; 0; 0;  0; 0; 0; 0].

Lemma getattr_buffer_encodes : encode_header getattr_header ++ [] = getattr_buffer.
Proof. reflexivity. Qed.

Lemma new_roundtrip_witness :
  exists self,
    Request.new (H := wire_parser (H := getattr_only)) 3 (encode_header getattr_header ++ []) =
      Some self /\
    ch self = 3 /\ Request.data self = encode_header getattr_header ++ [] /\
    ll_request.operation (request self) = ll_request.GetAttr /\
    Request.unique self = 77 /\ Request.uid self = 1000 /\ Request.gid self = 1000 /\
    Request.pid self = 4242 /\ ll_request.nodeid (request self) = 1.
Proof.
  apply (new_roundtrip (H := getattr_only) 3 getattr_header [] ll_request.GetAttr);
    [|reflexivity..].
  unfold fuse_in_header.ok, in_bits. simpl. lia.
Defined.

Definition parsed_getattr : Request :=
  Request.mk 3 getattr_buffer (ll_request.mk getattr_header ll_request.GetAttr).

Lemma new_lossless_witness :
  ch parsed_getattr = 3 /\ Request.data parsed_getattr = getattr_buffer /\
  fuse_in_header.ok getattr_header /\ take 40 getattr_buffer = encode_header getattr_header /\
  fuse_in_header.len getattr_header = len getattr_buffer /\
  known_opcode (OperationParser := getattr_only) 3 = true /\
  parse_operation (OperationParser := getattr_only) 3 (drop 40 getattr_buffer) =
    Some ll_request.GetAttr.
Proof.
  apply (new_lossless (H := getattr_only) 3 getattr_buffer parsed_getattr); [|reflexivity].
  unfold is_bytes, getattr_buffer. repeat constructor; unfold in_bits; lia.
Defined.

Definition truncated_buffer : bytes := take 39 getattr_buffer.

Lemma malformed_buffer_dropped_witness :
  Request.new (H := wire_parser (H := getattr_only)) 3 truncated_buffer = None /\
  receive (H := linux) (H1 := wire_parser (H := getattr_only)) sample_clock 3
    truncated_buffer live = Done (live, []).
Proof.
  apply (malformed_buffer_dropped (H := getattr_only) (H0 := linux) sample_clock 3
           truncated_buffer live).
  left. simpl. lia.
Defined.

(** The reply to an attribute query that arrives before the handshake:
    16 bytes, the error [-EIO], the correlation id of the query. *)
Definition early_reply : bytes :=
  [16; 0; 0; 0;  251; 255; 255; 255;  77; 0; 0; 0; 0; 0; 0; 0].

Lemma early_reply_encoded :
  encode_message <$>
    written (receive (H := linux) (H1 := wire_parser (H := getattr_only)) sample_clock 3
               getattr_buffer fresh) = [early_reply].
Proof. reflexivity. Qed.

Definition early_message : Message := mkMessage 3 77 EIO NoPayload.

Lemma reply_echoes_request_bytes_witness :
  (length [early_message] <= 1)%nat /\
  Forall (fun m => msg_sender m = 3 /\
                   take 8 (drop 8 (encode_message m)) = take 8 (drop 8 getattr_buffer))
    [early_message].
Proof.
  apply (reply_echoes_request_bytes (H := getattr_only) (H0 := linux) sample_clock 3
           getattr_buffer fresh fresh); [|reflexivity].
  unfold is_bytes, getattr_buffer. repeat constructor; unfold in_bits; lia.
Defined.
