(* ===== verification/EndToEnd.v ===== *)
(** * From the bytes read to the bytes written

    The components in one piece: the loop reads buffers from the channel
    ([Loop]), the parser checks the header and hands the rest to the parser
    of operations ([Wire]), the dispatcher calls the filesystem
    ([Dispatch]), and every reply is written as the reply header followed
    by the payload ([ReplyWire]).  The theorems are about what the kernel
    sees: the loop ends when the channel is closed, every reply on the
    channel is a frame the kernel can read, and the correlation ids of the
    frames, as bytes, are those of the buffers, in order. *)

From Stdlib Require Import ZArith List Lia.
From ITree Require Import ITree ITreeFacts Events.State Events.StateFacts.
From stdpp Require Import base tactics numbers list option.
From S2P Require Import Prelude Abi Time LlRequest Reply Request Wire ReplyWire.
From S2P Require Import Filesystem Session Dispatch Spec DispatchProps SessionProps ReplyProps.
From S2P Require Import Machine Loop Typing Returns WireProps.

#[local] Open Scope Z_scope.

(** ** Frames *)

(** The correlation id of a request buffer and of a reply: the 8 bytes
    at offset 8 of either header. *)
Definition unique_bytes (d : bytes) : bytes := take 8 (drop 8 d).

(** Replies as they are written to the channel. *)
Definition frames (msgs : list Message) : list bytes := encode_message <$> msgs.

(** A reply the kernel can read: bytes that start with a reply header
    whose length field is the length of the reply. *)
Definition frame_ok (d : bytes) : Prop :=
  is_bytes d /\
  exists h rest, decode_out_header d = Some (h, rest) /\ fuse_out_header.len h = len d.

Lemma payload_typed_bytes (p : Payload) :
  payload_typed p ->
  is_bytes (payload_bytes p) /\ is_u32 (16 + len (payload_bytes p)).
Proof.
  destruct p as [|out|data]; simpl; [by split; [apply Forall_nil|]| |done]. intros _.
  split; [apply init_out_bytes_is_bytes|]. unfold len. by rewrite init_out_bytes_length.
Qed.

(** A typed message is written as a frame the kernel can read. *)
Lemma message_typed_frame (m : Message) : message_typed m -> frame_ok (encode_message m).
Proof.
  intros (Hu & _ & [Hb Hl]%payload_typed_bytes).
  split; [by apply encode_message_is_bytes|].
  eexists _, _. by split; [apply decode_out_header_encode|].
Qed.

(** ** The directory reply

    [ReadDir] builds its reply with the size the kernel asked for as the
    budget of the entries; the reply header is 16 bytes on top of it. *)

Lemma fill_is_bytes (r : ReplyDirectory.t) (entries : list bytes) :
  is_bytes (ReplyDirectory.data r) -> Forall is_bytes entries ->
  is_bytes (ReplyDirectory.data (fill r entries)).
Proof.
  intros Hr Hes. revert r Hr. induction Hes as [|entry entries He _ IH]; intros r Hr; [done|].
  simpl. apply IH. destruct (add_spec r entry) as (_ & _ & _ & ->).
  apply Forall_app_2; [done|]. by destruct (ReplyDirectory.add r entry).2.
Qed.

(** Whatever entries the filesystem offers, the directory reply of a
    request that asks for at most [2^32 - 17] bytes is a frame the kernel
    can read. *)
Lemma directory_reply_frame (u : Z) (s : ChannelSender) (size : Z) (entries : list bytes) :
  is_u64 u -> 0 <= size <= 2 ^ 32 - 17 -> Forall is_bytes entries ->
  frame_ok (encode_message (ReplyDirectory.ok (fill (ReplyDirectory.new u s size) entries))).
Proof.
  intros Hu Hsize Hes. apply message_typed_frame.
  destruct (fill_spec (ReplyDirectory.new u s size) entries) as (Hr & Hc & Hw).
  specialize (Hw (new_within u s size (proj1 Hsize))). unfold within in Hw.
  rewrite Hc in Hw. simpl in Hw. split_and!; simpl; [by rewrite Hr|done|].
  split; [by apply fill_is_bytes; [apply Forall_nil|]|range].
Qed.

(** The bound is needed: the length field of a reply whose payload has
    [2^32 - 16] bytes reads 0. *)
Lemma frame_length_wraps (m : Message) :
  len (payload_bytes (msg_payload m)) = 2 ^ 32 - 16 ->
  exists rest, fetch_int 4 (encode_message m) = Some (0, rest).
Proof.
  intros Hl. unfold encode_message. rewrite Hl.
  replace (16 + (2 ^ 32 - 16)) with (2 ^ 32) by lia. eexists.
  by rewrite fetch_int_length_app.
Qed.

(** ** The correlation ids on the channel *)

Section Order.
Context `{OperationParser} `{Config} `{fs.Filesystem FS} `{!FilesystemLaws FS}.
Variable c : ChannelSender.
Implicit Types (se : Session FS) (data : bytes) (bufs : list (Clock * bytes)).

(** One buffer: what is written for it, if anything, carries its
    correlation id, byte for byte. *)
Lemma receive_unique_bytes (now : Clock) data se se' msgs :
  is_bytes data -> receive now c data se = Done (se', msgs) ->
  unique_bytes <$> frames msgs `sublist_of` [unique_bytes data].
Proof.
  intros Hdata. unfold receive.
  destruct (Request.new c data) as [self|] eqn:Hn;
    [|intros [= <- <-]; apply sublist_nil_l].
  apply new_Some in Hn as (r & (body & Hdec & _)%try_from_Ok & ->).
  destruct (encode_decode_header _ _ _ Hdata Hdec) as (Heq & _).
  intros Hd. destruct (uses_inv _ _ (dispatch_uses _ _ _ _ _ Hd)) as [->|(m & -> & Hb)];
    [apply sublist_nil_l|].
  injection Hb as Hu _. simpl. unfold unique_bytes.
  by rewrite encode_message_unique, Heq, header_buffer_unique, Hu.
Qed.
End Order.

(** ** What the kernel sees *)

(** A buffer of bytes, handled at a clock that returns instants. *)
Definition readable (b : Clock * bytes) : Prop := clock_ok b.1 /\ is_bytes b.2.

Section Channel.
Context `{OperationParserTyped} `{Config} `{FilesystemTyped FS} `{!FilesystemLaws FS}.
Hypothesis config_ok : ConfigOk _.
Variable c : ChannelSender.
Implicit Types (se : Session FS) (bufs : list (Clock * bytes)).

(** What the parser accepts of readable buffers has fields in range. *)
Lemma parsed_ok bufs :
  Forall readable bufs ->
  Forall (fun i : Input => ll_request.ok (ll_request.operation (request i.2)))
    (parsed c bufs).
Proof.
  induction 1 as [|[t d] bufs [_ Hd] _ IH]; [by apply Forall_nil|].
  unfold parsed. simpl. destruct (Request.new c d) as [self|] eqn:Hn; [simpl|done].
  apply Forall_cons_2; [|done]. apply op_typed_ok. by eapply new_typed.
Qed.

(** What the loop leaves, read as frames: the replies written are typed
    and carry the correlation ids of the buffers read, in their order,
    also when a panic ends the loop. *)
Lemma play_frames bufs (t0 : Clock) (s : list Message) se :
  Forall readable bufs -> session_typed se ->
  exists msgs read,
    sent (play_from c bufs t0 s se).1 = s ++ msgs /\
    bufs = read ++ pending (play_from c bufs t0 s se).1 /\
    (Forall message_typed msgs /\
     unique_bytes <$> frames msgs `sublist_of` (unique_bytes ∘ snd) <$> read) /\
    match (play_from c bufs t0 s se).2 with
    | Done se' => session_typed se' /\ pending (play_from c bufs t0 s se).1 = []
    | Panicked _ => True
    end.
Proof.
  apply (play_ensures c readable session_typed).
  - intros read. split; [apply Forall_nil_2|apply sublist_nil_l].
  - intros msgs1 msgs2 bufs1 bufs2 [Hm1 Hu1] [Hm2 Hu2]. split; [by apply Forall_app|].
    unfold frames. rewrite !fmap_app. by apply sublist_app.
  - intros t d se0 se1 msgs0 [Ht Hd] Hse Hr.
    split; [by eapply receive_typed|split; [by eapply receive_typed|]].
    by eapply receive_unique_bytes.
Qed.

(** C14: from the bytes read to the bytes written.  For a filesystem that
    keeps the contract of the reply object and writes typed messages,
    against a kernel whose buffers are bytes, the loop ends, whatever the
    buffers hold.  What it has added to the channel are frames the kernel
    can read back (bytes, a reply header whose length field is the length
    of the frame), and the correlation ids of the frames, as the 8 bytes
    at offset 8, are a subsequence of those of the buffers read: at most
    one reply per buffer, each with the id of its buffer, in the order of
    the buffers.  The loop ends with every buffer read and a session whose
    fields are values of their types, or with a panic; and with a panic
    only if some buffer parses to a request on which an arm asserts or
    overflows. *)
Theorem channel_carries_frames (w : World) se :
  Forall readable (pending w) -> session_typed se ->
  exists w' r msgs read,
    interp_state handle_loopE (session_loop c se) w ≈ Ret (w', r) /\
    sent w' = sent w ++ msgs /\ pending w = read ++ pending w' /\
    Forall frame_ok (frames msgs) /\
    unique_bytes <$> frames msgs `sublist_of` (unique_bytes ∘ snd) <$> read /\
    match r with
    | Done se' => session_typed se' /\ pending w' = []
    | Panicked _ =>
        ~ Forall (fun i : Input => returning (ll_request.operation (request i.2)) = true)
            (parsed c (pending w))
    end.
Proof.
  intros Hb Hse.
  destruct (play_frames (pending w) (clock w) (sent w) se Hb Hse)
    as (msgs & read & Hs & Hp & [Hm Hu] & Hend).
  exists (play c w se).1, (play c w se).2, msgs, read.
  split_and!; [rewrite <- surjective_pairing; apply session_loop_plays|done..| |done|].
  - apply Forall_fmap. eapply list.Forall_impl; [exact Hm|]. apply message_typed_frame.
  - unfold play in *. destruct (play_from _ _ _ _ _).2 as [se'|p] eqn:Hr; [done|].
    intros Hret. destruct (run_done (parsed c (pending w)) se) as (se' & msgs' & Hrun).
    { apply Forall_and; [by apply parsed_ok|done]. }
    by rewrite play_outcome, serve_parsed, Hrun in Hr.
Qed.
End Channel.

(** ** A concrete channel *)

(** Three buffers: an attribute query with correlation id 77, a buffer cut
    short, and an attribute query with correlation id 78. *)
Definition byte_world : World :=
  mkWorld [ (sample_clock, getattr_buffer); (sample_clock, truncated_buffer);
            (sample_clock, <[8%nat := 78]> getattr_buffer) ] sample_clock [].

Lemma channel_carries_frames_witness :
  exists w' r msgs read,
    interp_state handle_loopE
      (session_loop (H := linux) (H1 := wire_parser (H := getattr_only)) 3 live)
      byte_world ≈ Ret (w', r) /\
    sent w' = sent byte_world ++ msgs /\ pending byte_world = read ++ pending w' /\
    Forall frame_ok (frames msgs) /\
    unique_bytes <$> frames msgs `sublist_of` (unique_bytes ∘ snd) <$> read /\
    match r with
    | Done se' => session_typed se' /\ pending w' = []
    | Panicked _ =>
        ~ Forall (fun i : Input =>
                    returning (H := linux) (ll_request.operation (request i.2)) = true)
            (parsed (H1 := wire_parser (H := getattr_only)) 3 (pending byte_world))
    end.
Proof.
  apply (channel_carries_frames (H := getattr_only) (H1 := linux) linux_ok 3 byte_world live).
  - repeat (apply Forall_cons_2; [split; [exact sample_clock_ok|]|]); try apply Forall_nil_2;
      by apply (bool_decide_unpack _); vm_compute.
  - by apply (bool_decide_unpack _); vm_compute.
Defined.

(** The frames of that world: two replies of 16 bytes, with the
    correlation ids 77 and 78 at offset 8. *)
Example byte_world_frames :
  frames (written (serve (H := linux) (H1 := wire_parser (H := getattr_only)) 3
                     (pending byte_world) live)) =
  [ [16; 0; 0; 0;  0; 0; 0; 0;  77; 0; 0; 0; 0; 0; 0; 0];
    [16; 0; 0; 0;  0; 0; 0; 0;  78; 0; 0; 0; 0; 0; 0; 0] ].
Proof. by vm_compute. Qed.
